(** * Paraty GO! responsiveness checkers: a shallow embedding

    Source files embedded here:
    - [test-responsive.js]: the regex based analyser of inline CSS
      (module [Responsive]);
    - [test-visual.js]: the three checks evaluated in the page and the run
      over pages and viewports (module [Visual]).

    Conventions of the embedding.
    - A JavaScript string is the list of its UTF-16 code units ([jsstring]);
      regular expressions are run by a small backtracking matcher written in
      continuation-passing style (module [JS]), one combinator per regex
      construct, tried in the order the engine tries them.
    - The three global arrays [issues], [warnings], [passed] are fields of an
      explicit [State], threaded through a small state monad.  The calls of
      the script's own [log(message, type)] are recorded in the field [out];
      the raw [console.log] banners (ANSI colours, rulers) are not part of
      the model.
    - Numbers that the script computes with (array lengths, the score, the
      sizes of bounding rectangles) are IEEE binary64 values ([float]).
      [parseInt] of a run of decimal digits is kept as the exact natural
      number: the script only compares it with small integer constants, and
      rounding to binary64 is monotone and fixes those constants.  Below
      2^53 the Number is that exact value; a statement about the value
      itself, rather than about a comparison, carries this bound. *)

From Stdlib Require Import String Ascii List NArith ZArith Bool Lia.
From Stdlib Require Import DecimalString Uint63 Floats.
Import ListNotations.

Set Implicit Arguments.

(* ================================================================= *)
(** ** JavaScript strings and regular expressions *)

Module JS.

Definition char16 := N.
Definition jsstring := list char16.

(** An ASCII literal of the source as a [jsstring]. *)
Definition lit (s : string) : jsstring :=
  map N_of_ascii (list_ascii_of_string s).

Definition isDigit (c : char16) : bool := ((48 <=? c) && (c <=? 57))%N.

(** [\s] of ECMAScript: WhiteSpace and LineTerminator code units. *)
Definition isSpace (c : char16) : bool :=
  ((9 <=? c) && (c <=? 13) || (c =? 32) || (c =? 160) || (c =? 5760)
   || (8192 <=? c) && (c <=? 8202) || (c =? 8232) || (c =? 8233)
   || (c =? 8239) || (c =? 8287) || (c =? 12288) || (c =? 65279))%N.

Definition anyChar (_ : char16) : bool := true.
Definition notChar (x : string) (c : char16) : bool :=
  negb (existsb (N.eqb c) (lit x)).

(** Canonicalisation of the [i] flag (without [u]) as far as the patterns
    of the script need it: they hold ASCII only, a code unit above 127
    never canonicalises to one below 128, and on ASCII the upper-case
    mapping only touches [a-z]. *)
Definition upcase (c : char16) : char16 :=
  if ((97 <=? c) && (c <=? 122))%N then (c - 32)%N else c.

Fixpoint startsWith (p s : jsstring) : bool :=
  match p, s with
  | [], _ => true
  | a :: p', b :: s' => (a =? b)%N && startsWith p' s'
  | _ :: _, [] => false
  end.

(** [s.includes(p)]. *)
Fixpoint includes (p s : jsstring) : bool :=
  startsWith p s || match s with [] => false | _ :: s' => includes p s' end.

(** [s.split(sep)] for a non-empty separator: [skip] counts the code units
    of the separator still to be stepped over, [cur] is the fragment being
    collected. *)
Fixpoint split_from (sep : jsstring) (skip : nat) (cur s : jsstring)
  : list jsstring :=
  match s with
  | [] => [cur]
  | c :: s' =>
      match skip with
      | S n => split_from sep n cur s'
      | O => if startsWith sep s
             then cur :: split_from sep (length sep - 1) [] s'
             else split_from sep 0 (cur ++ [c]) s'
      end
  end.

Definition split (sep s : jsstring) : list jsstring := split_from sep 0 [] s.

(** [parts.join(sep)]. *)
Fixpoint join (sep : jsstring) (parts : list jsstring) : jsstring :=
  match parts with
  | [] => []
  | [p] => p
  | p :: ps => p ++ sep ++ join sep ps
  end.

(** [parseInt] on a string that starts with decimal digits: the value of the
    longest digit prefix, kept exact (the Number is its rounding to
    binary64, the same value below 2^53). *)
Fixpoint parseInt_from (acc : N) (s : jsstring) : N :=
  match s with
  | c :: s' => if isDigit c then parseInt_from (10 * acc + (c - 48))%N s' else acc
  | [] => acc
  end.

Definition parseInt (s : jsstring) : N := parseInt_from 0 s.

(** *** The matcher

    A continuation receives what is left of the input after the part of
    the pattern before it, and answers [None] to make the engine
    backtrack. *)
Section Matcher.
Variable R : Type.

Definition cont := jsstring -> option R.

(** One code unit of a class. *)
Definition r_char (p : char16 -> bool) (k : cont) : cont :=
  fun s => match s with
           | c :: s' => if p c then k s' else None
           | [] => None
           end.

(** A literal, case-sensitive. *)
Fixpoint r_lit (l : jsstring) (k : cont) : cont :=
  match l with
  | [] => k
  | a :: l' => r_char (N.eqb a) (r_lit l' k)
  end.

(** A literal under the [i] flag. *)
Fixpoint r_lit_ci (l : jsstring) (k : cont) : cont :=
  match l with
  | [] => k
  | a :: l' => r_char (fun c => (upcase c =? upcase a)%N) (r_lit_ci l' k)
  end.

(** Greedy [p*]: take one more code unit first, give it back on failure. *)
Fixpoint r_star (p : char16 -> bool) (k : cont) (s : jsstring) : option R :=
  match s with
  | c :: s' =>
      if p c
      then match r_star p k s' with
           | Some r => Some r
           | None => k s
           end
      else k s
  | [] => k []
  end.

(** Greedy [p+]. *)
Definition r_plus (p : char16 -> bool) (k : cont) : cont :=
  r_char p (r_star p k).

(** Lazy [p*?]: try the rest of the pattern first. *)
Fixpoint r_lazy (p : char16 -> bool) (k : cont) (s : jsstring) : option R :=
  match k s with
  | Some r => Some r
  | None =>
      match s with
      | c :: s' => if p c then r_lazy p k s' else None
      | [] => None
      end
  end.

(** [(r)?], greedy. *)
Definition r_opt (r : cont -> cont) (k : cont) : cont :=
  fun s => match r k s with
           | Some x => Some x
           | None => k s
           end.

(** [(l1|l2|...)] over literals, left to right. *)
Fixpoint r_alt (ls : list jsstring) (k : cont) (s : jsstring) : option R :=
  match ls with
  | [] => None
  | l :: ls' =>
      match r_lit l k s with
      | Some x => Some x
      | None => r_alt ls' k s
      end
  end.

(** The leftmost position at which the pattern matches. *)
Fixpoint search (m : cont) (s : jsstring) : option R :=
  match m s with
  | Some r => Some r
  | None =>
      match s with
      | [] => None
      | _ :: s' => search m s'
      end
  end.
End Matcher.

(** A pattern whose result is what is left after the match. *)
Definition pattern := cont jsstring -> cont jsstring.

Definition finish : cont jsstring := fun rest => Some rest.

(** The text consumed between [s] and its suffix [rest]. *)
Definition consumed (s rest : jsstring) : jsstring :=
  firstn (length s - length rest) s.

(** [re.test(s)] for a freshly created regular expression. *)
Definition test (m : pattern) (s : jsstring) : bool :=
  match search (m finish) s with
  | Some _ => true
  | None => false
  end.

(** [s.match(re)] with the [g] flag: every match, left to right, the next
    attempt starting where the previous match ended.  [skip] counts the
    code units of the last match still to be stepped over.  ([null] is the
    empty list here: the script tests it with [||] or [if].  No pattern of
    the script matches the empty string, so no attempt is made at the very
    end of the input.) *)
Fixpoint match_all_from (m : pattern) (skip : nat) (s : jsstring)
  : list jsstring :=
  match s with
  | [] => []
  | _ :: s' =>
      match skip with
      | S n => match_all_from m n s'
      | O =>
          match m finish s with
          | Some rest =>
              consumed s rest
                :: match_all_from m (length s - length rest - 1) s'
          | None => match_all_from m 0 s'
          end
      end
  end.

Definition match_all (m : pattern) (s : jsstring) : list jsstring :=
  match_all_from m 0 s.

(** [s.match(re)[0]] without the [g] flag: the text of the leftmost match. *)
Definition match_first (m : pattern) (s : jsstring) : option jsstring :=
  search (fun t => match m finish t with
                   | Some rest => Some (consumed t rest)
                   | None => None
                   end) s.

(** *** Numbers *)

(** An array length as a Number. *)
Definition of_length (n : nat) : float :=
  PrimFloat.of_uint63 (Uint63.of_Z (Z.of_nat n)).

(** [Math.round]: the nearest integer, ties towards +infinity; NaN,
    infinities, zeros and integral values are returned unchanged. *)
Definition Math_round (x : float) : float :=
  match Prim2SF x with
  | S754_finite s m e =>
      if (0 <=? e)%Z then x
      else
        let sm := if s then Z.neg m else Z.pos m in
        let n := Z.shiftr (2 * sm + 2 ^ (- e)) (1 - e) in
        match n with
        | Z0 => if s then neg_zero else zero
        | Z.pos _ => PrimFloat.of_uint63 (Uint63.of_Z n)
        | Z.neg _ => PrimFloat.opp (PrimFloat.of_uint63 (Uint63.of_Z (- n)))
        end
  | _ => x
  end.

(** [`${n}`] for an array length. *)
Definition show_nat (n : nat) : string :=
  NilZero.string_of_uint (Nat.to_uint n).

End JS.

(* ================================================================= *)
(** ** test-responsive.js *)

Module Responsive.
Import JS.

Local Open Scope string_scope.
Local Open Scope list_scope.

(** *** Global state and the [log] helper *)

Inductive LogType := info | success | error | warning | section | device.

Record State := mkState {
  issues : list string;
  warnings : list string;
  passed : list string;
  out : list (LogType * string)
}.

(** The state when the script is loaded: [let issues = []; ...]. *)
Definition initial : State := mkState [] [] [] [].

Definition M (A : Type) : Type := State -> A * State.

Definition ret {A} (a : A) : M A := fun st => (a, st).

Definition bind {A B} (m : M A) (f : A -> M B) : M B :=
  fun st => let (a, st') := m st in f a st'.

Notation "x <- m ;; k" := (bind m (fun x => k))
  (at level 61, m at next level, right associativity).
Notation "m ;; k" := (bind m (fun _ => k))
  (at level 61, right associativity).

Definition push_issue (msg : string) : M unit :=
  fun st => (tt, mkState (issues st ++ [msg]) (warnings st) (passed st) (out st)).

Definition push_warning (msg : string) : M unit :=
  fun st => (tt, mkState (issues st) (warnings st ++ [msg]) (passed st) (out st)).

Definition push_passed (msg : string) : M unit :=
  fun st => (tt, mkState (issues st) (warnings st) (passed st ++ [msg]) (out st)).

Definition log (message : string) (type : LogType) : M unit :=
  fun st => (tt, mkState (issues st) (warnings st) (passed st)
                         (out st ++ [(type, message)])).

(** [xs.forEach(f)]. *)
Fixpoint forEach {A} (xs : list A) (f : A -> M unit) : M unit :=
  match xs with
  | [] => ret tt
  | x :: xs' => f x ;; forEach xs' f
  end.

(** *** The regular expressions of [analyzeCSS] *)

(** [/@media[^{]+\{/] *)
Definition re_media : pattern :=
  fun k => r_lit (lit "@media") (r_plus (notChar "{") (r_lit (lit "{") k)).

(** [/max-width:\s*(\d+)px/] and [/min-width:\s*(\d+)px/]: the result is
    capture group 1 of the leftmost match. *)
Definition capture_px (prop : string) (mq : jsstring) : option jsstring :=
  search
    (r_lit (lit prop)
       (r_star isSpace
          (fun d =>
             r_plus isDigit
               (fun e => r_lit (lit "px") (fun _ => Some (consumed d e)) e)
               d)))
    mq.

(** [/width:\s*\d{3,}px/] and [/padding:\s*\d{3,}px/] *)
Definition re_px3 (prop : string) : pattern :=
  fun k =>
    r_lit (lit prop)
      (r_star isSpace
         (r_char isDigit
            (r_char isDigit
               (r_char isDigit (r_star isDigit (r_lit (lit "px") k)))))).

(** [/\d+/] *)
Definition re_digits : pattern := fun k => r_plus isDigit k.

(** [/\d+(\.\d+)?(vw|vh|rem|em|%|clamp)/] *)
Definition units : list jsstring :=
  [lit "vw"; lit "vh"; lit "rem"; lit "em"; lit "%"; lit "clamp"].

Definition re_units : pattern :=
  fun k =>
    r_plus isDigit
      (r_opt (fun k' => r_lit (lit ".") (r_plus isDigit k')) (r_alt units k)).

(** [/display:\s*flex/], [/overflow-x:\s*hidden/], ...: a property, blanks,
    a value. *)
Definition re_decl (prop value : string) : pattern :=
  fun k => r_lit (lit prop) (r_star isSpace (r_lit (lit value) k)).

(** *** [analyzeCSS] *)

Record Analysis := mkAnalysis {
  mqBreakpoints : list N;
  hasTablet : bool;
  hasMobile : bool
}.

Definition mediaQueries_of (content : jsstring) : list jsstring :=
  match_all re_media content.

(** The callback of [mediaQueries.forEach]: what one media query pushes
    to [mqBreakpoints]. *)
Definition pushBreakpoints (acc : list N) (mq : jsstring) : list N :=
  let acc1 := match capture_px "max-width:" mq with
              | Some d => acc ++ [parseInt d]
              | None => acc
              end in
  match capture_px "min-width:" mq with
  | Some d => acc1 ++ [parseInt d]
  | None => acc1
  end.

Definition collect_breakpoints (mediaQueries : list jsstring) : list N :=
  fold_left pushBreakpoints mediaQueries [].

Definition mqBreakpoints_of (content : jsstring) : list N :=
  collect_breakpoints (mediaQueries_of content).

Definition hasTablet_of (content : jsstring) : bool :=
  existsb (fun bp => (600 <=? bp) && (bp <=? 900))%N (mqBreakpoints_of content).

Definition hasMobile_of (content : jsstring) : bool :=
  existsb (fun bp => bp <=? 500)%N (mqBreakpoints_of content).

Definition hasLaptop_of (content : jsstring) : bool :=
  existsb (fun bp => (1000 <=? bp) && (bp <=? 1100))%N (mqBreakpoints_of content).

Definition fixedWidths_of (content : jsstring) : list jsstring :=
  match_all (re_px3 "width:") content.

(** The filter callback [w => parseInt(w.match(/\d+/)[0]) > 400].  A match
    of [re_px3] always contains digits (lemma [fixedWidths_have_digits]
    below), so the [None] branch, where the script would throw, is never
    taken. *)
Definition exceeds400 (w : jsstring) : bool :=
  match match_first re_digits w with
  | Some ds => (400 <? parseInt ds)%N
  | None => false
  end.

Definition largeFixedWidths_of (content : jsstring) : list jsstring :=
  filter exceeds400 (fixedWidths_of content).

Definition hasResponsiveUnits_of (content : jsstring) : bool :=
  test re_units content.

Definition largePaddings_of (content : jsstring) : list jsstring :=
  match_all (re_px3 "padding:") content.

(** Block 1 of [analyzeCSS]: media queries and the essential breakpoints. *)
Definition checkBreakpoints (content : jsstring) : M Analysis :=
  let mediaQueries := mediaQueries_of content in
  log ("Media queries encontradas: " ++ show_nat (length mediaQueries)) info ;;
  let hasTablet := hasTablet_of content in
  let hasMobile := hasMobile_of content in
  (if hasTablet
   then push_passed "Breakpoint para tablet (768px) definido" ;;
        log "Breakpoint tablet: OK" success
   else push_warning "Falta breakpoint específico para tablet (~768px)" ;;
        log "Breakpoint tablet: FALTANDO" warning) ;;
  (if hasMobile
   then push_passed "Breakpoint para mobile definido" ;;
        log "Breakpoint mobile: OK" success
   else push_issue "Falta breakpoint para mobile pequeno (~480px)" ;;
        log "Breakpoint mobile pequeno: FALTANDO" error) ;;
  ret (mkAnalysis (mqBreakpoints_of content) hasTablet hasMobile).

(** Block 2: problematic fixed widths. *)
Definition checkFixedWidths (content : jsstring) : M unit :=
  let largeFixedWidths := largeFixedWidths_of content in
  if (0 <? length largeFixedWidths)%nat
  then push_warning (show_nat (length largeFixedWidths)
                       ++ " larguras fixas > 400px encontradas") ;;
       log ("Larguras fixas grandes: " ++ show_nat (length largeFixedWidths)
              ++ " encontradas") warning
  else push_passed "Sem larguras fixas problemáticas" ;;
       log "Larguras fixas: OK" success.

(** Block 3: vw/vh/rem/em. *)
Definition checkResponsiveUnits (content : jsstring) : M unit :=
  if hasResponsiveUnits_of content
  then push_passed "Usa unidades responsivas (vw, vh, rem, em, %, clamp)" ;;
       log "Unidades responsivas: OK" success
  else ret tt.

(** Block 4: flexbox/grid. *)
Definition checkLayout (content : jsstring) : M unit :=
  let hasFlexbox := test (re_decl "display:" "flex") content in
  let hasGrid := test (re_decl "display:" "grid") content in
  if hasFlexbox || hasGrid
  then push_passed "Usa Flexbox/Grid para layout" ;;
       log "Layout moderno (Flex/Grid): OK" success
  else ret tt.

(** Block 5: overflow-x. *)
Definition checkOverflow (content : jsstring) : M unit :=
  if test (re_decl "overflow-x:" "hidden") content
  then push_passed "Controle de overflow horizontal" ;;
       log "Overflow-x control: OK" success
  else push_warning "Considere adicionar overflow-x: hidden no body" ;;
       log "Overflow-x control: RECOMENDADO" warning.

(** Block 6: responsive font sizes. *)
Definition checkClampFonts (content : jsstring) : M unit :=
  if test (re_decl "font-size:" "clamp") content
  then push_passed "Usa clamp() para fontes responsivas" ;;
       log "Fontes responsivas (clamp): OK" success
  else ret tt.

(** Block 7: excessive paddings. *)
Definition checkPaddings (content : jsstring) : M unit :=
  let largePaddings := largePaddings_of content in
  if (0 <? length largePaddings)%nat
  then push_warning (show_nat (length largePaddings)
                       ++ " paddings > 100px encontrados") ;;
       log ("Paddings grandes: " ++ show_nat (length largePaddings)) warning
  else ret tt.

(** Block 8: responsive images. *)
Definition checkImages (content : jsstring) : M unit :=
  if test (re_decl "max-width:" "100%") content
  then push_passed "Imagens com max-width: 100%" ;;
       log "Imagens responsivas: OK" success
  else ret tt.

(** [analyzeCSS(content, filename)]: the eight numbered blocks of the
    function, in order. *)
Definition analyzeCSS (content : jsstring) (filename : string) : M Analysis :=
  log ("Analisando: " ++ filename) section ;;
  analysis <- checkBreakpoints content ;;
  checkFixedWidths content ;;
  checkResponsiveUnits content ;;
  checkLayout content ;;
  checkOverflow content ;;
  checkClampFonts content ;;
  checkPaddings content ;;
  checkImages content ;;
  ret analysis.

(** *** [analyzeElements] *)

Record Element := mkElement { selector : string; name : string }.

Definition criticalElements : list Element :=
  [ mkElement ".container" "Container principal";
    mkElement ".hero" "Seção Hero";
    mkElement ".logo" "Logo";
    mkElement ".form-section" "Formulário";
    mkElement ".submit-btn" "Botão de envio";
    mkElement ".form-grid" "Grid do formulário";
    mkElement ".text-block" "Blocos de texto";
    mkElement ".benefits-grid" "Grid de benefícios";
    mkElement ".benefit-card" "Cards de benefício";
    mkElement ".partnership-container" "Seção parceria" ].

(** [new RegExp(`\\${el.selector}\\s*\\{[^}]*\\}`, 'g')]: the backslash
    escapes the leading dot; the other code units of a catalogue selector
    are letters and hyphens, which the pattern reads literally. *)
Definition re_block (sel : string) : pattern :=
  fun k =>
    r_lit (lit sel)
      (r_star isSpace
         (r_lit (lit "{") (r_star (notChar "}") (r_lit (lit "}") k)))).

(** [el.selector.substring(1)] *)
Definition bareName (sel : string) : jsstring := tl (lit sel).

(** The loop [for (let i = 1; i < mediaBlocks.length; i++)] with its
    [break], run over the blocks from index 1 on. *)
Fixpoint anyIncludes (needle : jsstring) (blocks : list jsstring) : bool :=
  match blocks with
  | [] => false
  | b :: bs => if includes needle b then true else anyIncludes needle bs
  end.

Definition hasBlock (content : jsstring) (el : Element) : bool :=
  (0 <? length (match_all (re_block (selector el)) content))%nat.

Definition hasResponsive (content : jsstring) (el : Element) : bool :=
  let mediaBlocks := split (lit "@media") content in
  anyIncludes (bareName (selector el)) (tl mediaBlocks).

(** The callback of [criticalElements.forEach]. *)
Definition analyzeElement (content : jsstring) (el : Element) : M unit :=
  if hasBlock content el
  then
    if hasResponsive content el
    then push_passed (name el ++ ": tem estilos responsivos") ;;
         log (name el ++ ": ✅ Responsivo") success
    else push_warning (name el ++ ": pode precisar de ajustes mobile") ;;
         log (name el ++ ": ⚠️ Verificar responsividade") warning
  else log (name el ++ ": Não encontrado") info.

Definition analyzeElements (content : jsstring) : M unit :=
  log "ELEMENTOS CRÍTICOS PARA MOBILE" section ;;
  forEach criticalElements (analyzeElement content).

(** *** [generateSuggestions] *)

Inductive Priority := ALTA | MEDIA.

Record Suggestion := mkSuggestion {
  priority : Priority;
  message : string;
  code : string
}.

Definition suggestMobile : Suggestion :=
  mkSuggestion ALTA
    "Adicionar breakpoint para mobile pequeno (max-width: 480px)"
    "@media (max-width: 480px) {
    .container { padding: 20px 16px; }
    .logo { font-size: 2.5rem; }
    .form-section { padding: 24px 16px; }
    .submit-btn { width: 100%; padding: 18px 24px; }
}".

Definition suggestTouch : Suggestion :=
  mkSuggestion MEDIA
    "Garantir touch targets de pelo menos 44x44px em mobile"
    "@media (max-width: 768px) {
    .submit-btn, .social-link, button, a { min-height: 44px; }
}".

Definition suggestInputs : Suggestion :=
  mkSuggestion ALTA
    "Inputs de formulário devem ter 100% de largura em mobile"
    "@media (max-width: 768px) {
    .form-group input, .form-group select, .form-group textarea {
        width: 100%;
        font-size: 16px; /* Previne zoom no iOS */
    }
}".

Definition generateSuggestions (analysis : Analysis) : M (list Suggestion) :=
  log "SUGESTÕES DE MELHORIAS" section ;;
  let suggestions := if hasMobile analysis then [] else [suggestMobile] in
  let suggestions := suggestions ++ [suggestTouch] in
  let suggestions := suggestions ++ [suggestInputs] in
  ret suggestions.

(** *** [printChecklist] and [printReport] *)

Definition printChecklist : M unit :=
  log "CHECKLIST DE RESPONSIVIDADE" section.

Record Report := mkReport {
  r_passed : list string;
  r_warnings : list string;
  r_issues : list string;
  score : float
}.

(** [Math.round((passed.length / (passed.length + warnings.length
    + issues.length)) * 100)] *)
Definition computeScore (nPassed nWarnings nIssues : nat) : float :=
  Math_round
    (of_length nPassed / (of_length nPassed + of_length nWarnings + of_length nIssues)
     * 100)%float.

(** The banner chosen from the score. *)
Definition statusMsg (score : float) : string :=
  if (90 <=? score)%float then "🎉 EXCELENTE! Responsividade OK"
  else if (70 <=? score)%float then "⚠️ BOM, mas pode melhorar"
  else "❌ PRECISA DE MELHORIAS".

Definition printReport : M Report :=
  fun st =>
    let score := computeScore (length (passed st)) (length (warnings st))
                              (length (issues st)) in
    (mkReport (passed st) (warnings st) (issues st) score, st).

(** *** [main] *)

Definition files : list string := ["index.html"; "confirmacao.html"].

(** The directory of the script: [None] when [fs.existsSync] answers false,
    otherwise the text [fs.readFileSync] returns. *)
Definition FileSystem := string -> option jsstring.

(** [/<style[^>]*>([\s\S]*?)<\/style>/gi] *)
Definition re_style : pattern :=
  fun k =>
    r_lit_ci (lit "<style")
      (r_star (notChar ">")
         (r_lit_ci (lit ">") (r_lazy anyChar (r_lit_ci (lit "</style>") k)))).

Definition newline : jsstring := [10%N].

(** The body of [for (const file of files)]. *)
Definition processFile (fs : FileSystem) (file : string) : M unit :=
  match fs file with
  | Some content =>
      let styleMatch := match_all re_style content in
      match styleMatch with
      | _ :: _ =>
          let css := join newline styleMatch in
          analysis <- analyzeCSS css file ;;
          analyzeElements css ;;
          _ <- generateSuggestions analysis ;;
          ret tt
      | [] => ret tt
      end
  | None => log ("Arquivo não encontrado: " ++ file) warning
  end.

(** [main] up to the call of [process.exit]: the report and the exit
    status. *)
Definition main (fs : FileSystem) : M (Report * nat) :=
  forEach files (processFile fs) ;;
  printChecklist ;;
  report <- printReport ;;
  ret (report, if (0 <? length (r_issues report))%nat then 1%nat else 0%nat).

(** A whole run, from the freshly loaded script. *)
Definition run (fs : FileSystem) : (Report * nat) * State := main fs initial.

End Responsive.

(* ================================================================= *)
(** ** test-visual.js: the checks evaluated in the page and the run *)

Module Visual.
Import JS.

Local Open Scope list_scope.

(** *** Values read from the page *)

(** A property of a DOM element as the script meets it.  [el.id],
    [el.className] and [el.tagName] are strings on an HTML element.  On an
    SVG element [el.className] is an SVGAnimatedString object, and on a
    form a control named [id], [className] or [tagName] stands in the
    place of the property.  An object is truthy and has no [includes]
    method; [text] is the string the script gets where it prints the
    object. *)
Inductive Value :=
| Str (s : jsstring)
| Obj (text : jsstring).

(** The empty string is the only falsy value among these. *)
Definition truthy (v : Value) : bool :=
  match v with
  | Str [] => false
  | _ => true
  end.

(** [a || b] *)
Definition orElse (a b : Value) : Value := if truthy a then a else b.

(** String conversion, as a template literal and [join] apply it. *)
Definition toText (v : Value) : jsstring :=
  match v with
  | Str s => s
  | Obj text => text
  end.

(** What the callback reads of a clickable element: [el.id],
    [el.className], [el.tagName], and the width and height of
    [el.getBoundingClientRect()]. *)
Record Clickable := mkClickable {
  id : Value;
  className : Value;
  tagName : Value;
  width : float;
  height : float
}.

(** *** [Number.prototype.toFixed(0)] *)

Definition decimal (n : Z) : jsstring :=
  lit (NilZero.string_of_uint (N.to_uint (Z.to_N n))).

(** The Number nearest to an integer (ties to the even significand). *)
Definition numberOf (v : Z) : float :=
  SF2Prim (binary_normalize 53 1024 v 0 false).

(** The decimals [s * 10 ^ (n - k)] of [k] digits that read back as [x],
    among the two next to the exact value [v] of [x], for a decimal point
    after [n] digits; [d] is the number of digits of [v]. *)
Definition candidates (x : float) (v d k : Z) : list (Z * Z) :=
  flat_map (fun n =>
              let p := (10 ^ (n - k))%Z in
              filter (fun sn =>
                        ((10 ^ (k - 1) <=? fst sn)%Z && (fst sn <? 10 ^ k)%Z
                         && (numberOf (fst sn * p) =? x)%float)%bool)
                     [((v / p)%Z, n); ((v / p + 1)%Z, n)])
           [d; (d + 1)%Z].

(** Of two such decimals the one closer to [v], the even one on a tie. *)
Definition closer (v k : Z) (a b : Z * Z) : Z * Z :=
  let da := Z.abs (fst a * 10 ^ (snd a - k) - v) in
  let db := Z.abs (fst b * 10 ^ (snd b - k) - v) in
  if (da <? db)%Z then a
  else if (db <? da)%Z then b
  else if Z.even (fst a) then a else b.

(** The shortest decimal that reads back as [x]: its digits [s], the
    position [n] of the decimal point and the number [k] of digits. *)
Definition shortest (x : float) (v : Z) : option (Z * Z * Z) :=
  let d := Z.of_nat (length (decimal v)) in
  fold_left (fun found k =>
               match found with
               | Some _ => found
               | None =>
                   match candidates x v d k with
                   | [] => None
                   | c :: cs =>
                       let sn := fold_left (closer v k) cs c in
                       Some (fst sn, snd sn, k)
                   end
               end)
            (map Z.of_nat (seq 1 17)) None.

(** String conversion of a Number [x] of integer value [v], from 1e21 on:
    the shortest digits, a point after the first one, and the exponent. *)
Definition exponential (x : float) (v : Z) : jsstring :=
  match shortest x v with
  | Some (s, n, _) =>
      match decimal s with
      | c :: rest =>
          c :: (match rest with [] => [] | _ => lit "." ++ rest end)
            ++ lit "e+" ++ decimal (n - 1)
      | [] => []
      end
  | None => []
  end.

(** [x.toFixed(0)]: below 1e21 the nearest integer (the larger one on a
    tie) in decimal, from 1e21 on the string conversion of [x]; a minus
    sign before a negative value, also when it rounds to zero. *)
Definition toFixed0 (x : float) : jsstring :=
  match Prim2SF x with
  | S754_nan => lit "NaN"
  | S754_infinity s => (if s then lit "-" else []) ++ lit "Infinity"
  | S754_zero _ => lit "0"
  | S754_finite s m e =>
      (if s then lit "-" else [])
        ++ (if ((0 <=? e)%Z && (10 ^ 21 <=? Z.pos m * 2 ^ e)%Z)%bool
            then exponential (abs x) (Z.pos m * 2 ^ e)
            else decimal (if (0 <=? e)%Z then (Z.pos m * 2 ^ e)%Z
                          else Z.shiftr (2 * Z.pos m + 2 ^ (- e)) (1 - e)))
  end.

(** *** The touch-target callback *)

(** [rect.width > 0 && rect.height > 0 && (rect.width < 44 || rect.height < 44)] *)
Definition tooSmall (el : Clickable) : bool :=
  ((0 <? width el) && (0 <? height el)
   && ((width el <? 44) || (height el <? 44)))%float.

(** [el.id || el.className || el.tagName] *)
Definition identifier (el : Clickable) : Value :=
  orElse (orElse (id el) (className el)) (tagName el).

(** [id.includes('checkbox')]: [None] when [id] is an object, for the call
    then throws a TypeError. *)
Definition includesCheckbox (v : Value) : option bool :=
  match v with
  | Str s => Some (includes (lit "checkbox") s)
  | Obj _ => None
  end.

(** The string pushed for a flagged element. *)
Definition label (el : Clickable) : jsstring :=
  toText (tagName el) ++ lit "(" ++ toFixed0 (width el) ++ lit "x"
    ++ toFixed0 (height el) ++ lit ")".

(** The callback of [clickables.forEach], from the array [issues] as it
    stands: the array afterwards, or [None] when the callback throws. *)
Definition checkClickable (issues : list jsstring) (el : Clickable)
    : option (list jsstring) :=
  if tooSmall el then
    match includesCheckbox (identifier el) with
    | Some false => Some (issues ++ [label el])
    | Some true => Some issues
    | None => None
    end
  else Some issues.

(** [clickables.forEach(...)]: a throw of the callback ends the loop. *)
Fixpoint forEachClickable (cs : list Clickable) (issues : list jsstring)
    : option (list jsstring) :=
  match cs with
  | [] => Some issues
  | el :: rest =>
      match checkClickable issues el with
      | Some issues' => forEachClickable rest issues'
      | None => None
      end
  end.

(** The third callback passed to [page.evaluate]: the array [issues] it
    returns, or [None] when it throws. *)
Definition smallTouchTargets (clickables : list Clickable)
    : option (list jsstring) :=
  forEachClickable clickables [].

(** *** The run over pages and viewports *)

Record Viewport := mkViewport {
  vname : jsstring;
  vwidth : float;
  vheight : float;
  deviceScaleFactor : float
}.

Definition viewports : list Viewport :=
  [ mkViewport (lit "iPhone-SE") 375 667 2;
    mkViewport (lit "iPhone-12") 390 844 3;
    mkViewport (lit "iPhone-14-Pro-Max") 430 932 3;
    mkViewport (lit "Pixel-7") 412 915 2.625;
    mkViewport (lit "iPad-Mini") 768 1024 2;
    mkViewport (lit "iPad-Pro") 1024 1366 2;
    mkViewport (lit "Desktop-HD") 1280 800 1;
    mkViewport (lit "Desktop-FHD") 1920 1080 1;
    mkViewport (lit "Desktop-2K") 2560 1440 1 ].

Record PageConfig := mkPage { pname : jsstring; url : jsstring }.

Definition pages : list PageConfig :=
  [ mkPage (lit "index") (lit "index.html");
    mkPage (lit "confirmacao") (lit "confirmacao.html") ].

(** What the second callback reads of an element: [el.className] and the
    right edge of its bounding rectangle. *)
Record Box := mkBox { boxClass : Value; right : float }.

(** What the three callbacks read of a loaded page. *)
Record View := mkView {
  scrollWidth : float;
  clientWidth : float;
  innerWidth : float;
  boxes : list Box;
  clickables : list Clickable
}.

(** The awaited calls of one visit, in the order of the source.  [Open] is
    [browser.newPage()] with [page.setViewport(...)], [Navigate] is
    [page.goto(...)] with the waits that follow it, [Screenshots] is the
    two screenshots, [Close] is [page.close()]: the script records nothing
    between the calls taken together.  [Open] and [Close] stand outside the
    [try] block. *)
Inductive Stage :=
| Open | Navigate | ScrollCheck | CutOffCheck | TouchCheck | Screenshots
| Close.

(** What the browser does with one page at one viewport: [fault] tells
    which awaited calls reject for a reason of the browser's own (a
    timeout, a crashed page, a missing method), with the message of the
    error; [view] is what the callbacks read when they run;
    [callbackError] is the message of the error [page.evaluate] rejects
    with when the touch-target callback throws. *)
Record Session := mkSession {
  fault : Stage -> option jsstring;
  view : View;
  callbackError : jsstring
}.

(** The environment of a run.  [starts]: the screenshots directory is
    prepared and [puppeteer.launch] resolves; [stops]: [browser.close()]
    resolves. *)
Record Browser := mkBrowser {
  starts : bool;
  session : PageConfig -> Viewport -> Session;
  stops : bool
}.

(** [document.documentElement.scrollWidth > document.documentElement.clientWidth] *)
Definition hasHorizontalScroll (v : View) : bool :=
  (clientWidth v <? scrollWidth v)%float.

(** The callback that collects the class names of the elements whose right
    edge lies beyond [window.innerWidth]. *)
Definition elementsCutOff (v : View) : list Value :=
  fold_left (fun issues el =>
               if (innerWidth v <? right el)%float
               then issues ++ [boxClass el] else issues)
            (boxes v) [].

Record Results := mkResults {
  total : nat;
  captured : nat;
  issues : list jsstring
}.

Definition pushIssue (r : Results) (msg : jsstring) : Results :=
  mkResults (total r) (captured r) (issues r ++ [msg]).

(** [`${pageConfig.name} @ ${viewport.name}: `] *)
Definition issuePrefix (p : PageConfig) (v : Viewport) : jsstring :=
  pname p ++ lit " @ " ++ vname v ++ lit ": ".

(** The statements of the [try] block act on [results] and may throw an
    error, of which the [catch] clause reads the message. *)
Definition Try (A : Type) : Type := Results -> (A + jsstring) * Results.

Definition done {A} (a : A) : Try A := fun r => (inl a, r).

Definition throw {A} (message : jsstring) : Try A := fun r => (inr message, r).

Definition andThen {A B} (m : Try A) (f : A -> Try B) : Try B :=
  fun r =>
    match m r with
    | (inl a, r') => f a r'
    | (inr message, r') => (inr message, r')
    end.

Local Notation "x <- m ;; k" := (andThen m (fun x => k))
  (at level 61, m at next level, right associativity).
Local Notation "m ;; k" := (andThen m (fun _ => k))
  (at level 61, right associativity).

(** [await call], where the call rejects when the browser says so and
    otherwise resolves to [value]. *)
Definition await {A} (rejection : option jsstring) (value : A) : Try A :=
  match rejection with
  | Some message => throw message
  | None => done value
  end.

(** [results.issues.push(...)] *)
Definition push (msg : jsstring) : Try unit :=
  fun r => (inl tt, pushIssue r msg).

Definition when (b : bool) (m : Try unit) : Try unit :=
  if b then m else done tt.

(** [await page.evaluate(...)] of the touch-target callback. *)
Definition evaluateTouch (s : Session) : Try (list jsstring) :=
  _ <- await (fault s TouchCheck) tt ;;
  match smallTouchTargets (clickables (view s)) with
  | Some issues => done issues
  | None => throw (callbackError s)
  end.

(** The body of the [try] block. *)
Definition tryBlock (s : Session) (p : PageConfig) (v : Viewport) : Try unit :=
  await (fault s Navigate) tt ;;
  hasScroll <- await (fault s ScrollCheck) (hasHorizontalScroll (view s)) ;;
  when hasScroll
       (push (issuePrefix p v ++ lit "Scroll horizontal detectado")) ;;
  cut <- await (fault s CutOffCheck) (elementsCutOff (view s)) ;;
  when (0 <? length cut)%nat
       (push (issuePrefix p v ++ lit "Elementos cortados: "
                ++ join (lit ", ") (map toText cut))) ;;
  touch <- evaluateTouch s ;;
  await (fault s Screenshots) tt ;;
  fun r => (inl tt, mkResults (total r) (S (captured r)) (issues r)).

(** The body of [for (const viewport of viewports)]: the results after
    the visit, or [None] when a call outside the [try] block rejects and
    the error leaves the loops. *)
Definition visit (browser : Browser) (p : PageConfig)
    (results : Results) (v : Viewport) : option Results :=
  let s := session browser p v in
  let results := mkResults (S (total results)) (captured results)
                           (issues results) in
  match fault s Open with
  | Some _ => None
  | None =>
      let results :=
        match tryBlock s p v results with
        | (inl _, r) => r
        | (inr message, r) => pushIssue r (issuePrefix p v ++ message)
        end in
      match fault s Close with
      | Some _ => None
      | None => Some results
      end
  end.

Fixpoint forViewports (browser : Browser) (p : PageConfig)
    (vs : list Viewport) (results : Results) : option Results :=
  match vs with
  | [] => Some results
  | v :: rest =>
      match visit browser p results v with
      | Some results' => forViewports browser p rest results'
      | None => None
      end
  end.

Fixpoint forPages (browser : Browser) (ps : list PageConfig)
    (results : Results) : option Results :=
  match ps with
  | [] => Some results
  | p :: rest =>
      match forViewports browser p viewports results with
      | Some results' => forPages browser rest results'
      | None => None
      end
  end.

(** How [captureScreenshots] ends: it reaches [process.exit] with the
    results it reports, or its promise rejects. *)
Inductive Run :=
| Reported (results : Results) (status : nat)
| Rejected.

Definition captureScreenshots (browser : Browser) : Run :=
  if starts browser then
    match forPages browser pages (mkResults 0 0 []) with
    | Some results =>
        if stops browser
        then Reported results
               (if (0 <? length (issues results))%nat then 1%nat else 0%nat)
        else Rejected
    | None => Rejected
    end
  else Rejected.

(** The exit status of the script once the browser runtime is found: that
    of [captureScreenshots], or 1 from the handler of the rejected
    promise. *)
Definition exitStatus (browser : Browser) : nat :=
  match captureScreenshots browser with
  | Reported _ status => status
  | Rejected => 1%nat
  end.

End Visual.

(* ================================================================= *)
(** ** Vocabulary of the statements *)

Unset Implicit Arguments.
Import JS.
Import Responsive.
Local Open Scope string_scope.
Local Open Scope list_scope.

(** [p] occurs in [s]. *)
Definition substring (p s : jsstring) : Prop :=
  exists pre post, s = pre ++ p ++ post.

(** [emits m st i w p]: run from [st], the action [m] leaves [issues],
    [warnings] and [passed] as they were, with [i], [w] and [p] added at
    their ends. *)
Definition emits {A} (m : M A) (st : State) (i w p : list string) : Prop :=
  issues (snd (m st)) = issues st ++ i
  /\ warnings (snd (m st)) = warnings st ++ w
  /\ passed (snd (m st)) = passed st ++ p.

(** The same from every state. *)
Definition Emits {A} (m : M A) (i w p : list string) : Prop :=
  forall st, emits m st i w p.

(** [extends st st']: each sequence of [st'] is the one of [st] followed by
    new entries. *)
Definition extends (st st' : State) : Prop :=
  exists i w p,
    issues st' = issues st ++ i
    /\ warnings st' = warnings st ++ w
    /\ passed st' = passed st ++ p.

(** An action that only adds entries at the end of the sequences. *)
Definition appends {A} (m : M A) : Prop :=
  forall st, extends st (snd (m st)).

(** The messages of the rules the claims are about. *)
Definition tabletPass := "Breakpoint para tablet (768px) definido".
Definition tabletWarning := "Falta breakpoint específico para tablet (~768px)".
Definition mobilePass := "Breakpoint para mobile definido".
Definition mobileIssue := "Falta breakpoint para mobile pequeno (~480px)".
Definition fixedPass := "Sem larguras fixas problemáticas".
Definition fixedWarning (n : nat) : string :=
  show_nat n ++ " larguras fixas > 400px encontradas".
Definition unitsPass := "Usa unidades responsivas (vw, vh, rem, em, %, clamp)".
Definition overflowWarning := "Considere adicionar overflow-x: hidden no body".

(** What [analyzeCSS] adds to each sequence, block by block. *)
Definition cssIssues (content : jsstring) : list string :=
  if hasMobile_of content then [] else [mobileIssue].

Definition cssWarnings (content : jsstring) : list string :=
  (if hasTablet_of content then [] else [tabletWarning])
    ++ (let n := length (largeFixedWidths_of content) in
        if (0 <? n)%nat then [fixedWarning n] else [])
    ++ (if test (re_decl "overflow-x:" "hidden") content
        then [] else [overflowWarning])
    ++ (let n := length (largePaddings_of content) in
        if (0 <? n)%nat
        then [(show_nat n ++ " paddings > 100px encontrados")%string] else []).

Definition cssPassed (content : jsstring) : list string :=
  (if hasTablet_of content then [tabletPass] else [])
    ++ (if hasMobile_of content then [mobilePass] else [])
    ++ (if (0 <? length (largeFixedWidths_of content))%nat
        then [] else [fixedPass])
    ++ (if hasResponsiveUnits_of content then [unitsPass] else [])
    ++ (if test (re_decl "display:" "flex") content
           || test (re_decl "display:" "grid") content
        then ["Usa Flexbox/Grid para layout"] else [])
    ++ (if test (re_decl "overflow-x:" "hidden") content
        then ["Controle de overflow horizontal"] else [])
    ++ (if test (re_decl "font-size:" "clamp") content
        then ["Usa clamp() para fontes responsivas"] else [])
    ++ (if test (re_decl "max-width:" "100%") content
        then ["Imagens com max-width: 100%"] else []).

(** Every [@media] token of [pre] is followed, within [pre], by an opening
    brace: no media query is left open at the end of [pre]. *)
Definition mediaClosedIn (pre : jsstring) : Prop :=
  forall p1 p2, pre = p1 ++ lit "@media" ++ p2 -> In 123%N p2.

(** Any code unit but the letter [w]. *)
Definition notW (c : char16) : bool := negb (c =? 119)%N.

(** The corpus of the end-to-end scenario: one media query at 480px. *)
Definition scenario : jsstring :=
  lit "@media (max-width: 480px) { .logo { font-size: 2rem; } } .logo { width: 500px; }".

(** The corpus holds a declaration block of the selector: the selector,
    blanks, an opening brace, and a closing brace further on. *)
Definition declaresBlock (content : jsstring) (el : Element) : Prop :=
  exists pre ws body post,
    content = pre ++ lit (selector el) ++ ws ++ lit "{" ++ body ++ lit "}" ++ post
    /\ forallb isSpace ws = true
    /\ forallb (notChar "}") body = true.

(** The selector's bare name occurs in a fragment after the first
    [@media]. *)
Definition overriddenInMedia (content : jsstring) (el : Element) : Prop :=
  exists frag,
    In frag (tl (split (lit "@media") content))
    /\ substring (bareName (selector el)) frag.

(** The two Findings of the element checker and when each is added. *)
Definition responsiveMsg (el : Element) : string :=
  name el ++ ": tem estilos responsivos".

Definition reviewMsg (el : Element) : string :=
  name el ++ ": pode precisar de ajustes mobile".

Definition isResponsive (content : jsstring) (el : Element) : bool :=
  hasBlock content el && hasResponsive content el.

Definition needsReview (content : jsstring) (el : Element) : bool :=
  hasBlock content el && negb (hasResponsive content el).

(** Equality up to the case of [a-z], as the [i] flag compares. *)
Definition sameUpToCase (x l : jsstring) : Prop := map upcase x = map upcase l.

(** A [<style ...> ... </style>] block somewhere in a document. *)
Definition hasStyleBlock (content : jsstring) : Prop :=
  exists pre open attrs gt body close post,
    content = pre ++ open ++ attrs ++ gt ++ body ++ close ++ post
    /\ sameUpToCase open (lit "<style")
    /\ forallb (notChar ">") attrs = true
    /\ sameUpToCase gt (lit ">")
    /\ sameUpToCase close (lit "</style>").

(** A directory with only [index.html], whose stylesheet has a mobile
    breakpoint but neither a tablet one nor overflow control. *)
Definition onlyIndex : FileSystem :=
  fun file =>
    if String.eqb file "index.html"
    then Some (lit "<html><style>.logo { } @media (max-width: 480px) { .logo { font-size: 2rem; } }</style></html>")
    else None.

(** *** Vocabulary of the further properties *)

(** A width declaration as the fixed-width scan reads it. *)
Definition widthDecl (ws ds : jsstring) : jsstring :=
  lit "width:" ++ ws ++ ds ++ lit "px".

(** A padding declaration as the padding scan reads it. *)
Definition paddingDecl (ws ds : jsstring) : jsstring :=
  lit "padding:" ++ ws ++ ds ++ lit "px".

(** A property, blanks and a value, as the declaration tests read it. *)
Definition declOf (prop value : string) (ws : jsstring) : jsstring :=
  lit prop ++ ws ++ lit value.

(** The corpus [main] builds from a document: the style blocks, tags
    included, joined by a line feed. *)
Definition corpus (content : jsstring) : jsstring :=
  join newline (match_all re_style content).

(** The corpus of a file, when [main] analyses it. *)
Definition analysed (fs : FileSystem) (file : string) : option jsstring :=
  match fs file with
  | Some content =>
      match match_all re_style content with
      | [] => None
      | _ :: _ => Some (corpus content)
      end
  | None => None
  end.

Definition elementWarnings (css : jsstring) : list string :=
  map reviewMsg (filter (needsReview css) criticalElements).

Definition elementPasses (css : jsstring) : list string :=
  map responsiveMsg (filter (isResponsive css) criticalElements).

(** What the processing of one file adds to each sequence. *)
Definition fileIssues (fs : FileSystem) (file : string) : list string :=
  match analysed fs file with
  | Some css => cssIssues css
  | None => []
  end.

Definition fileWarnings (fs : FileSystem) (file : string) : list string :=
  match analysed fs file with
  | Some css => cssWarnings css ++ elementWarnings css
  | None => []
  end.

Definition filePassed (fs : FileSystem) (file : string) : list string :=
  match analysed fs file with
  | Some css => cssPassed css ++ elementPasses css
  | None => []
  end.

(** The percentage of [p] out of [t], rounded to the nearest integer, a
    half upwards, in exact arithmetic. *)
Definition exactPercent (p t : nat) : nat := ((200 * p + t) / (2 * t))%nat.

(** The banner the exact percentage calls for. *)
Definition tierOf (percent : nat) : string :=
  if (90 <=? percent)%nat then "🎉 EXCELENTE! Responsividade OK"
  else if (70 <=? percent)%nat then "⚠️ BOM, mas pode melhorar"
  else "❌ PRECISA DE MELHORIAS".

(** The score agrees with the exact percentage, is a number, and the
    banner is the one of the exact percentage. *)
Definition scoreIsExact (p w i : nat) : bool :=
  let s := computeScore p w i in
  let n := exactPercent p (p + w + i) in
  ((s =? of_length n)%float && negb (PrimFloat.is_nan s)
   && String.eqb (statusMsg s) (tierOf n))%bool.

(** Every triple of counts with a total between 1 and [bound]. *)
Definition scoresExactUpTo (bound : nat) : bool :=
  forallb (fun p =>
    forallb (fun w =>
      forallb (fun i =>
        if ((0 <? p + w + i) && (p + w + i <=? bound))%nat
        then scoreIsExact p w i else true)
        (seq 0 (S bound)))
      (seq 0 (S bound)))
    (seq 0 (S bound)).

(** The head of the name is none of the letters of [media], and the name
    holds no [@]: an occurrence of it cannot overlap an [@media] token. *)
Definition clearOfMedia (needle : jsstring) : bool :=
  match needle with
  | [] => false
  | c :: _ =>
      negb (existsb (N.eqb c) (lit "media"))
      && forallb (fun x => negb (x =? 64)%N) needle
  end.

(** The bare name of the selector occurs somewhere after an [@media]
    token. *)
Definition namedAfterMedia (content : jsstring) (el : Element) : Prop :=
  exists pre post,
    content = pre ++ lit "@media" ++ post
    /\ substring (bareName (selector el)) post.

(** Two selectors of the catalogue, and a corpus in which only the longer
    one has a declaration block. *)
Definition partnership : Element :=
  mkElement ".partnership-container" "Seção parceria".

Definition container : Element := mkElement ".container" "Container principal".

Definition partnershipOnly : jsstring :=
  lit ".partnership-container { } @media (max-width: 480px) { .partnership-container { } }".

(** The page of a visit opens and closes: the run goes on after it. *)
Definition survives (s : Visual.Session) : bool :=
  match Visual.fault s Visual.Open, Visual.fault s Visual.Close with
  | None, None => true
  | _, _ => false
  end.

(** The touch-target callback of a visit throws. *)
Definition touchThrows (s : Visual.Session) : bool :=
  match Visual.smallTouchTargets (Visual.clickables (Visual.view s)) with
  | Some _ => false
  | None => true
  end.

(** The error the [try] block of a visit ends with, if any: the stage it
    comes from and its message. *)
Definition caught (s : Visual.Session) : option (Visual.Stage * jsstring) :=
  match Visual.fault s Visual.Navigate with
  | Some m => Some (Visual.Navigate, m)
  | None =>
  match Visual.fault s Visual.ScrollCheck with
  | Some m => Some (Visual.ScrollCheck, m)
  | None =>
  match Visual.fault s Visual.CutOffCheck with
  | Some m => Some (Visual.CutOffCheck, m)
  | None =>
  match Visual.fault s Visual.TouchCheck with
  | Some m => Some (Visual.TouchCheck, m)
  | None =>
  if touchThrows s then Some (Visual.TouchCheck, Visual.callbackError s)
  else
  match Visual.fault s Visual.Screenshots with
  | Some m => Some (Visual.Screenshots, m)
  | None => None
  end end end end end.

(** A visit that completes: both screenshots are taken. *)
Definition completes (s : Visual.Session) : bool :=
  match caught s with
  | None => true
  | Some _ => false
  end.

(** A visit that reports nothing: no call of the [try] block fails, the
    touch-target callback does not throw, and the page has no horizontal
    scroll and no cut-off element. *)
Definition clean (s : Visual.Session) : bool :=
  completes s
  && negb (Visual.hasHorizontalScroll (Visual.view s))
  && match Visual.elementsCutOff (Visual.view s) with
     | [] => true
     | _ => false
     end.

(** The issue lines of the two checks that report. *)
Definition scrollIssue (p : Visual.PageConfig) (v : Visual.Viewport)
    (s : Visual.Session) : list jsstring :=
  if Visual.hasHorizontalScroll (Visual.view s)
  then [Visual.issuePrefix p v ++ lit "Scroll horizontal detectado"]
  else [].

Definition cutOffIssue (p : Visual.PageConfig) (v : Visual.Viewport)
    (s : Visual.Session) : list jsstring :=
  match Visual.elementsCutOff (Visual.view s) with
  | [] => []
  | cut => [Visual.issuePrefix p v ++ lit "Elementos cortados: "
              ++ join (lit ", ") (map Visual.toText cut)]
  end.

(** The issues one visit adds: those of the checks that ran before the
    error, then the error. *)
Definition visitIssues (p : Visual.PageConfig) (v : Visual.Viewport)
    (s : Visual.Session) : list jsstring :=
  match caught s with
  | Some (Visual.Navigate, m) | Some (Visual.ScrollCheck, m) =>
      [Visual.issuePrefix p v ++ m]
  | Some (Visual.CutOffCheck, m) =>
      scrollIssue p v s ++ [Visual.issuePrefix p v ++ m]
  | Some (_, m) =>
      scrollIssue p v s ++ cutOffIssue p v s ++ [Visual.issuePrefix p v ++ m]
  | None => scrollIssue p v s ++ cutOffIssue p v s
  end.

(** A clickable element is flagged: it is too small and its identifier is
    a string without [checkbox]. *)
Definition flagged (el : Visual.Clickable) : bool :=
  Visual.tooSmall el
  && match Visual.includesCheckbox (Visual.identifier el) with
     | Some false => true
     | _ => false
     end.

(** The callback throws at a clickable element: it is too small and its
    identifier is an object. *)
Definition throwsAt (el : Visual.Clickable) : bool :=
  Visual.tooSmall el
  && match Visual.includesCheckbox (Visual.identifier el) with
     | None => true
     | Some _ => false
     end.

(** An anchor inside an [<svg>], without id, of the given size: its
    [className] is an SVGAnimatedString. *)
Definition svgLink (w h : float) : Visual.Clickable :=
  Visual.mkClickable (Visual.Str []) (Visual.Obj (lit "[object SVGAnimatedString]"))
                     (Visual.Str (lit "a")) w h.

(** An HTML anchor of class [social-link], without id, of the given
    size. *)
Definition socialLink (w h : float) : Visual.Clickable :=
  Visual.mkClickable (Visual.Str []) (Visual.Str (lit "social-link"))
                     (Visual.Str (lit "A")) w h.

(** A session in which no call fails, on a page that fits the viewport and
    holds the given clickable elements. *)
Definition calmSession (cs : list Visual.Clickable) : Visual.Session :=
  Visual.mkSession (fun _ => None) (Visual.mkView 375 375 375 [] cs)
                   (lit "Evaluation failed: TypeError: id.includes is not a function").

(** The same session with other clickable elements. *)
Definition withClickables (s : Visual.Session) (cs : list Visual.Clickable)
    : Visual.Session :=
  Visual.mkSession
    (Visual.fault s)
    (Visual.mkView (Visual.scrollWidth (Visual.view s))
                   (Visual.clientWidth (Visual.view s))
                   (Visual.innerWidth (Visual.view s))
                   (Visual.boxes (Visual.view s)) cs)
    (Visual.callbackError s).

(** Every page at every viewport, in the order of the run. *)
Definition allVisits : list (Visual.PageConfig * Visual.Viewport) :=
  flat_map (fun p => map (fun v => (p, v)) Visual.viewports) Visual.pages.

(** No call outside the [try] blocks fails: the directory is prepared,
    the browser is launched and closed, and every page opens and closes. *)
Definition undisturbed (browser : Visual.Browser) : Prop :=
  Visual.starts browser = true
  /\ (forall p v, In p Visual.pages -> In v Visual.viewports ->
                  survives (Visual.session browser p v) = true)
  /\ Visual.stops browser = true.

(** Every visit of the run is clean. *)
Definition allClean (browser : Visual.Browser) : Prop :=
  forall p v, In p Visual.pages -> In v Visual.viewports ->
              clean (Visual.session browser p v) = true.


(* ================================================================= *)
(** ** Facts about strings and the matcher *)

Lemma startsWith_iff (p s : jsstring) :
  startsWith p s = true <-> exists post, s = p ++ post.
Proof.
  revert s; induction p as [|a p IH]; intros s; simpl.
  - split; [intros _; now exists s | reflexivity].
  - destruct s as [|b s].
    + split; [discriminate | intros [post H]; discriminate].
    + rewrite andb_true_iff, N.eqb_eq, IH. split.
      * intros [-> [post ->]]. now exists post.
      * intros [post H]. injection H as -> ->. split; [reflexivity | now exists post].
Qed.

Lemma includes_iff (p s : jsstring) :
  includes p s = true <-> substring p s.
Proof.
  unfold substring. induction s as [|c s IH].
  - simpl. rewrite orb_false_r, startsWith_iff. split.
    + intros [post H]. now exists [], post.
    + intros [pre [post H]]. destruct pre; [now exists post | discriminate].
  - cbn [includes]. rewrite orb_true_iff, startsWith_iff, IH. split.
    + intros [[post H] | [pre [post H]]].
      * now exists [], post.
      * exists (c :: pre), post. now rewrite H.
    + intros [[|x pre] [post H]].
      * left. now exists post.
      * right. injection H as _ H. now exists pre, post.
Qed.

Lemma anyIncludes_iff (needle : jsstring) (blocks : list jsstring) :
  Responsive.anyIncludes needle blocks = true
  <-> exists b, In b blocks /\ substring needle b.
Proof.
  induction blocks as [|b bs IH]; simpl.
  - split; [discriminate | intros [b [[] _]]].
  - destruct (includes needle b) eqn:E.
    + split; [intros _ | reflexivity].
      exists b. split; [now left | now apply includes_iff].
    + rewrite IH. split.
      * intros [b' [Hin Hs]]. exists b'. split; [now right | assumption].
      * intros [b' [[<- | Hin] Hs]].
        -- apply includes_iff in Hs. congruence.
        -- now exists b'.
Qed.

Lemma consumed_app (a b : jsstring) : consumed (a ++ b) b = a.
Proof.
  unfold consumed. rewrite length_app.
  replace (length a + length b - length b)%nat with (length a) by lia.
  rewrite firstn_app, Nat.sub_diag, firstn_all. simpl. apply app_nil_r.
Qed.

Section MatcherFacts.
Variable R : Type.
Implicit Types (k : cont R) (p : char16 -> bool) (s l : jsstring).

Lemma r_char_Some p k s r :
  r_char p k s = Some r
  <-> exists c s', s = c :: s' /\ p c = true /\ k s' = Some r.
Proof.
  unfold r_char. destruct s as [|c s'].
  - split; [discriminate | intros (c & s' & H & _); discriminate].
  - destruct (p c) eqn:E.
    + split; [intros H; now exists c, s' |].
      intros (c' & s'' & H & _ & Hk). now injection H as -> ->.
    + split; [discriminate |].
      intros (c' & s'' & H & Hp & _). injection H as -> ->. congruence.
Qed.

Lemma r_lit_Some l k s r :
  r_lit l k s = Some r <-> exists s', s = l ++ s' /\ k s' = Some r.
Proof.
  revert s; induction l as [|a l IH]; intros s; cbn [r_lit].
  - split; [intros H; now exists s | now intros (s' & -> & H)].
  - rewrite r_char_Some. split.
    + intros (c & s' & -> & Hc & H). apply N.eqb_eq in Hc as ->.
      apply IH in H as (s'' & -> & H). now exists s''.
    + intros (s' & -> & H). exists a, (l ++ s'). repeat split.
      * apply N.eqb_refl.
      * apply IH. now exists s'.
Qed.

Lemma r_star_Some p k s r :
  r_star p k s = Some r ->
  exists xs y, s = xs ++ y /\ forallb p xs = true /\ k y = Some r.
Proof.
  induction s as [|c s IH]; cbn [r_star]; intros H.
  - now exists [], [].
  - destruct (p c) eqn:E; [| now exists [], (c :: s)].
    destruct (r_star p k s) as [r'|] eqn:E'; [| now exists [], (c :: s)].
    destruct (IH H) as (xs & y & -> & Hxs & Hy).
    exists (c :: xs), y. cbn. rewrite E, Hxs. auto.
Qed.

(** The star succeeds as soon as the continuation does after some run of
    the class. *)
Lemma r_star_success p k xs y :
  forallb p xs = true -> k y <> None -> r_star p k (xs ++ y) <> None.
Proof.
  induction xs as [|c xs IH]; cbn; intros Hxs Hk.
  - destruct y as [|c y]; cbn; [assumption |].
    destruct (p c); [| assumption].
    destruct (r_star p k y); [discriminate | assumption].
  - apply andb_true_iff in Hxs as [-> Hxs].
    specialize (IH Hxs Hk).
    destruct (r_star p k (xs ++ y)); [discriminate | contradiction].
Qed.

(** The greedy star takes the whole run when the continuation accepts
    what follows it and nothing of the class follows it. *)
Lemma r_star_greedy p k xs y r :
  forallb p xs = true ->
  (forall c y', y = c :: y' -> p c = false) ->
  k y = Some r ->
  r_star p k (xs ++ y) = Some r.
Proof.
  induction xs as [|c xs IH]; cbn; intros Hxs Hy Hk.
  - destruct y as [|c y]; cbn; [assumption |].
    now rewrite (Hy c y eq_refl).
  - apply andb_true_iff in Hxs as [-> Hxs].
    now rewrite (IH Hxs Hy Hk).
Qed.

Lemma search_Some (m : cont R) s r :
  search m s = Some r -> exists pre t, s = pre ++ t /\ m t = Some r.
Proof.
  induction s as [|c s IH]; cbn [search]; intros H.
  - destruct (m []) eqn:E; [| discriminate]. exists [], []. now rewrite E.
  - destruct (m (c :: s)) eqn:E.
    + exists [], (c :: s). now rewrite E.
    + destruct (IH H) as (pre & t & -> & Ht). now exists (c :: pre), t.
Qed.

Lemma search_success (m : cont R) pre t :
  m t <> None -> search m (pre ++ t) <> None.
Proof.
  intros Ht. induction pre as [|c pre IH]; cbn.
  - destruct t as [|c t]; cbn; destruct (m _); congruence.
  - destruct (m (c :: pre ++ t)); [discriminate | assumption].
Qed.
End MatcherFacts.

(** Every element of a global match is the text of a match at some
    position. *)
Lemma In_match_all_from (m : pattern) (w : jsstring) :
  forall s skip,
    In w (match_all_from m skip s) ->
    exists pre t rest, s = pre ++ t /\ m finish t = Some rest /\ w = consumed t rest.
Proof.
  induction s as [|c s IH]; intros skip; cbn [match_all_from]; [intros [] |].
  destruct skip as [|n].
  - destruct (m finish (c :: s)) as [rest|] eqn:E.
    + intros [<- | H].
      * now exists [], (c :: s), rest.
      * destruct (IH _ H) as (pre & t & rest' & -> & Ht & ->).
        now exists (c :: pre), t, rest'.
    + intros H. destruct (IH _ H) as (pre & t & rest' & -> & Ht & ->).
      now exists (c :: pre), t, rest'.
  - intros H. destruct (IH _ H) as (pre & t & rest' & -> & Ht & ->).
    now exists (c :: pre), t, rest'.
Qed.

(** A global match finds nothing exactly when the pattern matches at no
    position. *)
Lemma match_all_nil_iff (m : pattern) (s : jsstring) :
  match_all m s = []
  <-> forall pre t, s = pre ++ t -> t <> [] -> m finish t = None.
Proof.
  unfold match_all. induction s as [|c s IH]; cbn [match_all_from].
  - split; [| reflexivity].
    intros _ pre t H Ht. destruct pre; destruct t; try discriminate. congruence.
  - destruct (m finish (c :: s)) as [rest|] eqn:E.
    + split; [discriminate |].
      intros H. specialize (H [] (c :: s) eq_refl). rewrite E in H.
      assert (Some rest = None) by (apply H; discriminate). discriminate.
    + rewrite IH. split.
      * intros H [|x pre] t Heq Ht; cbn in Heq.
        -- now subst t.
        -- injection Heq as -> ->. now apply (H pre t).
      * intros H pre t -> Ht. now apply (H (c :: pre) t).
Qed.

(** A match at [t] is reported by the global scan when no match that
    starts before [t] reaches into it. *)
Lemma match_all_from_finds (m : pattern) (t rest : jsstring) :
  t <> [] ->
  m finish t = Some rest ->
  forall pre skip,
    (forall p r, p <> [] -> (exists q, pre = q ++ p) ->
                 m finish (p ++ t) = Some r -> (length t <= length r)%nat) ->
    (skip <= length pre)%nat ->
    In (consumed t rest) (match_all_from m skip (pre ++ t)).
Proof.
  intros Ht Hm. induction pre as [|c pre IH]; intros skip Hno Hskip.
  - cbn in Hskip. replace skip with 0%nat by lia. cbn [app].
    destruct t as [|c t]; [congruence |].
    cbn [match_all_from]. rewrite Hm. now left.
  - assert (Hno' : forall p r, p <> [] -> (exists q, pre = q ++ p) ->
                     m finish (p ++ t) = Some r -> (length t <= length r)%nat).
    { intros p r Hp [q ->] H. apply (Hno p r Hp); [| assumption].
      now exists (c :: q). }
    cbn [app match_all_from]. destruct skip as [|n].
    + destruct (m finish (c :: pre ++ t)) as [r|] eqn:E.
      * right. apply IH; [assumption |].
        assert (length t <= length r)%nat.
        { apply (Hno (c :: pre) r); [discriminate | now exists [] | exact E]. }
        cbn [length]. rewrite length_app. lia.
      * apply IH; [assumption | lia].
    + apply IH; [assumption | cbn in Hskip; lia].
Qed.

(* ================================================================= *)
(** ** What each operation adds to the three sequences *)

Ltac run_monad :=
  unfold emits, bind, ret, push_issue, push_warning, push_passed, log;
  cbn [fst snd issues warnings passed out];
  rewrite ?app_nil_r, <- ?app_assoc; cbn [app]; auto.

Lemma emits_bind {A B} (m : M A) (f : A -> M B) st i w p i' w' p' :
  emits m st i w p ->
  emits (f (fst (m st))) (snd (m st)) i' w' p' ->
  emits (bind m f) st (i ++ i') (w ++ w') (p ++ p').
Proof.
  unfold emits, bind. destruct (m st) as [a st1]. cbn [fst snd].
  intros (Hi & Hw & Hp) (Hi' & Hw' & Hp').
  rewrite Hi', Hw', Hp', Hi, Hw, Hp, <- !app_assoc. auto.
Qed.

Lemma Emits_bind {A B} (m : M A) (f : A -> M B) i w p i' w' p' :
  Emits m i w p ->
  (forall a, Emits (f a) i' w' p') ->
  Emits (bind m f) (i ++ i') (w ++ w') (p ++ p').
Proof. intros Hm Hf st. apply emits_bind; [apply Hm | apply Hf]. Qed.

Lemma Emits_eq {A} (m : M A) i w p i' w' p' :
  Emits m i w p -> i = i' -> w = w' -> p = p' -> Emits m i' w' p'.
Proof. now intros H <- <- <-. Qed.

Lemma Emits_ret {A} (a : A) : Emits (ret a) [] [] [].
Proof. intros st. run_monad. Qed.

Lemma Emits_log msg ty : Emits (log msg ty) [] [] [].
Proof. intros st. run_monad. Qed.

Lemma emits_extends {A} (m : M A) st i w p :
  emits m st i w p -> extends st (snd (m st)).
Proof. intros H. now exists i, w, p. Qed.

Lemma extends_refl st : extends st st.
Proof. exists [], [], []. now rewrite !app_nil_r. Qed.

Lemma extends_trans st1 st2 st3 :
  extends st1 st2 -> extends st2 st3 -> extends st1 st3.
Proof.
  intros (i & w & p & Hi & Hw & Hp) (i' & w' & p' & Hi' & Hw' & Hp').
  exists (i ++ i'), (w ++ w'), (p ++ p').
  rewrite Hi', Hw', Hp', Hi, Hw, Hp, !app_assoc. auto.
Qed.

Lemma appends_ret {A} (a : A) : appends (ret a).
Proof. intros st. apply extends_refl. Qed.

Lemma appends_bind {A B} (m : M A) (f : A -> M B) :
  appends m -> (forall a, appends (f a)) -> appends (bind m f).
Proof.
  intros Hm Hf st. unfold bind. specialize (Hm st).
  destruct (m st) as [a st1]. cbn [snd] in Hm.
  eapply extends_trans; [exact Hm | apply Hf].
Qed.

Lemma appends_push_issue msg : appends (push_issue msg).
Proof. intros st. exists [msg], [], []. run_monad. Qed.

Lemma appends_push_warning msg : appends (push_warning msg).
Proof. intros st. exists [], [msg], []. run_monad. Qed.

Lemma appends_push_passed msg : appends (push_passed msg).
Proof. intros st. exists [], [], [msg]. run_monad. Qed.

Lemma appends_log msg ty : appends (log msg ty).
Proof. intros st. exists [], [], []. run_monad. Qed.

Lemma appends_if {A} (b : bool) (m1 m2 : M A) :
  appends m1 -> appends m2 -> appends (if b then m1 else m2).
Proof. now destruct b. Qed.

Lemma appends_forEach {A} (xs : list A) (f : A -> M unit) :
  (forall x, appends (f x)) -> appends (forEach xs f).
Proof.
  intros Hf. induction xs as [|x xs IH]; cbn [forEach].
  - apply appends_ret.
  - apply appends_bind; [apply Hf | intros _; exact IH].
Qed.

Create HintDb appends.
#[local] Hint Resolve appends_ret appends_bind appends_push_issue
  appends_push_warning appends_push_passed appends_log appends_if
  appends_forEach : appends.

Ltac appends_auto :=
  repeat (cbv beta zeta;
          first [ apply appends_bind | apply appends_if | apply appends_forEach
                | solve [auto with appends]
                | match goal with |- forall _, _ => intro end ]).

(** *** The blocks of [analyzeCSS] *)

Lemma checkBreakpoints_emits content :
  Emits (checkBreakpoints content)
    (if hasMobile_of content then [] else [mobileIssue])
    (if hasTablet_of content then [] else [tabletWarning])
    ((if hasTablet_of content then [tabletPass] else [])
       ++ (if hasMobile_of content then [mobilePass] else [])).
Proof.
  intros st. unfold checkBreakpoints.
  destruct (hasTablet_of content), (hasMobile_of content); run_monad.
Qed.

Lemma checkFixedWidths_emits content :
  let n := length (largeFixedWidths_of content) in
  Emits (checkFixedWidths content)
    []
    (if (0 <? n)%nat then [fixedWarning n] else [])
    (if (0 <? n)%nat then [] else [fixedPass]).
Proof.
  cbv zeta. intros st. unfold checkFixedWidths. cbv zeta.
  destruct (0 <? _)%nat; run_monad.
Qed.

Lemma checkResponsiveUnits_emits content :
  Emits (checkResponsiveUnits content) [] []
    (if hasResponsiveUnits_of content then [unitsPass] else []).
Proof.
  intros st. unfold checkResponsiveUnits.
  destruct (hasResponsiveUnits_of content); run_monad.
Qed.

Lemma checkLayout_emits content :
  Emits (checkLayout content) [] []
    (if test (re_decl "display:" "flex") content
        || test (re_decl "display:" "grid") content
     then ["Usa Flexbox/Grid para layout"] else []).
Proof.
  intros st. unfold checkLayout. cbv zeta.
  destruct (_ || _); run_monad.
Qed.

Lemma checkOverflow_emits content :
  Emits (checkOverflow content) []
    (if test (re_decl "overflow-x:" "hidden") content
     then [] else [overflowWarning])
    (if test (re_decl "overflow-x:" "hidden") content
     then ["Controle de overflow horizontal"] else []).
Proof.
  intros st. unfold checkOverflow.
  destruct (test _ _); run_monad.
Qed.

Lemma checkClampFonts_emits content :
  Emits (checkClampFonts content) [] []
    (if test (re_decl "font-size:" "clamp") content
     then ["Usa clamp() para fontes responsivas"] else []).
Proof.
  intros st. unfold checkClampFonts.
  destruct (test _ _); run_monad.
Qed.

Lemma checkPaddings_emits content :
  let n := length (largePaddings_of content) in
  Emits (checkPaddings content) []
    (if (0 <? n)%nat
     then [(show_nat n ++ " paddings > 100px encontrados")%string] else [])
    [].
Proof.
  cbv zeta. intros st. unfold checkPaddings. cbv zeta.
  destruct (0 <? _)%nat; run_monad.
Qed.

Lemma checkImages_emits content :
  Emits (checkImages content) [] []
    (if test (re_decl "max-width:" "100%") content
     then ["Imagens com max-width: 100%"] else []).
Proof.
  intros st. unfold checkImages.
  destruct (test _ _); run_monad.
Qed.

Ltac step_bind lem := eapply Emits_bind; [apply lem | intro].

Lemma analyzeCSS_Emits content filename :
  Emits (analyzeCSS content filename)
        (cssIssues content) (cssWarnings content) (cssPassed content).
Proof.
  eapply Emits_eq.
  - unfold analyzeCSS.
    step_bind Emits_log.
    step_bind checkBreakpoints_emits.
    step_bind checkFixedWidths_emits.
    step_bind checkResponsiveUnits_emits.
    step_bind checkLayout_emits.
    step_bind checkOverflow_emits.
    step_bind checkClampFonts_emits.
    step_bind checkPaddings_emits.
    step_bind checkImages_emits.
    apply Emits_ret.
  - unfold cssIssues. cbn [app]. now rewrite ?app_nil_r.
  - unfold cssWarnings. cbn [app]. now rewrite ?app_nil_r, <- ?app_assoc.
  - unfold cssPassed. cbn [app]. now rewrite ?app_nil_r, <- ?app_assoc.
Qed.

Lemma fst_bind {A B} (m : M A) (f : A -> M B) st :
  fst (bind m f st) = fst (f (fst (m st)) (snd (m st))).
Proof. unfold bind. now destruct (m st). Qed.

Lemma snd_bind {A B} (m : M A) (f : A -> M B) st :
  snd (bind m f st) = snd (f (fst (m st)) (snd (m st))).
Proof. unfold bind. now destruct (m st). Qed.

Lemma checkBreakpoints_result content st :
  fst (checkBreakpoints content st)
  = mkAnalysis (mqBreakpoints_of content) (hasTablet_of content)
               (hasMobile_of content).
Proof.
  unfold checkBreakpoints. cbv zeta.
  destruct (hasTablet_of content), (hasMobile_of content); reflexivity.
Qed.

Lemma analyzeCSS_result content filename st :
  fst (analyzeCSS content filename st)
  = mkAnalysis (mqBreakpoints_of content) (hasTablet_of content)
               (hasMobile_of content).
Proof.
  unfold analyzeCSS. rewrite !fst_bind. cbn [ret fst].
  apply checkBreakpoints_result.
Qed.

(* ================================================================= *)
(** ** The regular expressions of the rules *)

Lemma forallb_imp {A} (p q : A -> bool) (l : list A) :
  (forall x, p x = true -> q x = true) ->
  forallb p l = true -> forallb q l = true.
Proof.
  intros H. induction l as [|x l IH]; cbn; [reflexivity |].
  rewrite !andb_true_iff. intros [Hx Hl]. auto.
Qed.

Lemma isDigit_cases (c : char16) :
  isDigit c = true ->
  (c = 48 \/ c = 49 \/ c = 50 \/ c = 51 \/ c = 52
   \/ c = 53 \/ c = 54 \/ c = 55 \/ c = 56 \/ c = 57)%N.
Proof.
  unfold isDigit. rewrite andb_true_iff, !N.leb_le. lia.
Qed.

Lemma isSpace_not_digit (c : char16) : isSpace c = true -> isDigit c = false.
Proof.
  intros Hs. destruct (isDigit c) eqn:Hd; [| reflexivity].
  apply isDigit_cases in Hd.
  repeat (destruct Hd as [-> | Hd]; [discriminate Hs |]).
  subst c. discriminate Hs.
Qed.

(** The shape of a match of [/prop\s*\d{3,}px/]. *)
Lemma re_px3_shape (prop : string) (t rest : jsstring) :
  re_px3 prop finish t = Some rest ->
  exists ws ds,
    t = lit prop ++ ws ++ ds ++ lit "px" ++ rest
    /\ forallb isSpace ws = true
    /\ forallb isDigit ds = true
    /\ (3 <= length ds)%nat.
Proof.
  unfold re_px3. intros H.
  apply r_lit_Some in H as (s1 & -> & H).
  apply r_star_Some in H as (ws & s2 & -> & Hws & H).
  apply r_char_Some in H as (d1 & s3 & -> & Hd1 & H).
  apply r_char_Some in H as (d2 & s4 & -> & Hd2 & H).
  apply r_char_Some in H as (d3 & s5 & -> & Hd3 & H).
  apply r_star_Some in H as (ds & s6 & -> & Hds & H).
  apply r_lit_Some in H as (s7 & -> & H).
  injection H as ->.
  exists ws, (d1 :: d2 :: d3 :: ds). split; [| split; [| split]].
  - cbn [app]. reflexivity.
  - assumption.
  - cbn. now rewrite Hd1, Hd2, Hd3, Hds.
  - cbn. lia.
Qed.

(** [w.match(/\d+/)[0]] is the first maximal run of digits of [w]. *)
Lemma match_first_digits (pre ds post : jsstring) :
  forallb (fun c => negb (isDigit c)) pre = true ->
  forallb isDigit ds = true ->
  ds <> [] ->
  (forall c y, post = c :: y -> isDigit c = false) ->
  match_first re_digits (pre ++ ds ++ post) = Some ds.
Proof.
  intros Hpre Hds Hne Hpost. unfold match_first.
  induction pre as [|c pre IH].
  - destruct ds as [|d ds]; [congruence |].
    cbn in Hds. apply andb_true_iff in Hds as [Hd Hds].
    cbn [app search]. unfold re_digits, r_plus at 1. cbn [r_char]. rewrite Hd.
    rewrite (r_star_greedy _ isDigit finish ds post post); auto.
    f_equal. apply (consumed_app (d :: ds) post).
  - cbn in Hpre. apply andb_true_iff in Hpre as [Hc Hpre].
    apply negb_true_iff in Hc.
    cbn [app search]. unfold re_digits at 1, r_plus at 1. cbn [r_char].
    rewrite Hc. now apply IH.
Qed.

(** Every string found by the fixed-width scan occurs in the corpus, is
    [width:] followed by blanks, at least three digits and [px], and the
    filter compares the number those digits spell with 400. *)
Lemma fixedWidths_have_digits (content w : jsstring) :
  In w (fixedWidths_of content) ->
  exists ws ds,
    w = lit "width:" ++ ws ++ ds ++ lit "px"
    /\ substring w content
    /\ forallb isSpace ws = true
    /\ forallb isDigit ds = true
    /\ (3 <= length ds)%nat
    /\ match_first re_digits w = Some ds
    /\ exceeds400 w = (400 <? parseInt ds)%N.
Proof.
  intros H. apply In_match_all_from in H as (pre & t & rest & -> & Hm & ->).
  apply re_px3_shape in Hm as (ws & ds & -> & Hws & Hds & Hlen).
  exists ws, ds.
  assert (Hw : consumed (lit "width:" ++ ws ++ ds ++ lit "px" ++ rest) rest
               = lit "width:" ++ ws ++ ds ++ lit "px").
  { replace (lit "width:" ++ ws ++ ds ++ lit "px" ++ rest)
      with ((lit "width:" ++ ws ++ ds ++ lit "px") ++ rest)
      by now rewrite <- !app_assoc.
    apply consumed_app. }
  assert (Hf : match_first re_digits (lit "width:" ++ ws ++ ds ++ lit "px")
               = Some ds).
  { rewrite app_assoc. apply match_first_digits; auto.
    - rewrite forallb_app. apply andb_true_iff. split; [reflexivity |].
      apply (forallb_imp isSpace); [| assumption].
      intros c Hc. now rewrite (isSpace_not_digit c Hc).
    - intros ->. cbn in Hlen. lia.
    - intros c y E. injection E as <- _. reflexivity. }
  rewrite Hw. split; [reflexivity |]. split.
  { exists pre, rest. now rewrite <- !app_assoc. }
  do 4 (split; [assumption |]).
  unfold exceeds400. now rewrite Hf.
Qed.

(** Where a run of a class ends: if [m], all in the class [q], is followed
    by [r], and the same string reads [p], then [x] outside the class, then
    [tl], the run cannot reach past that [x]. *)
Lemma first_stop (q : char16 -> bool) (x : char16) (m r p tl : jsstring) :
  forallb q m = true ->
  q x = false ->
  m ++ r = p ++ x :: tl ->
  (length (x :: tl) <= length r)%nat.
Proof.
  intros Hm Hx. revert p. induction m as [|y m IH]; intros p H.
  - cbn in H. subst r. rewrite length_app. apply Nat.le_add_l.
  - cbn in Hm. apply andb_true_iff in Hm as [Hy Hm].
    destruct p as [|z p]; cbn in H; injection H as -> H.
    + congruence.
    + now apply (IH Hm p).
Qed.

Lemma re_px3_width_no_overlap (p tl r : jsstring) :
  p <> [] ->
  re_px3 "width:" finish (p ++ 119%N :: tl) = Some r ->
  (length (119%N :: tl) <= length r)%nat.
Proof.
  intros Hp H. apply re_px3_shape in H as (ws & ds & H & Hws & Hds & _).
  destruct p as [|c p]; [congruence |].
  cbn in H. injection H as _ H.
  apply (first_stop notW 119%N (lit "idth:" ++ ws ++ ds ++ lit "px") r p tl);
    [| reflexivity |].
  - rewrite !forallb_app, !andb_true_iff.
    split; [reflexivity |]. split; [| split; [| reflexivity]].
    + apply (forallb_imp isSpace); [| assumption].
      intros x Hx. unfold notW. destruct (N.eqb_spec x 119); [| reflexivity].
      subst x. discriminate Hx.
    + apply (forallb_imp isDigit); [| assumption].
      intros x Hx. unfold notW. destruct (N.eqb_spec x 119); [| reflexivity].
      subst x. discriminate Hx.
  - rewrite <- !app_assoc. symmetry. exact H.
Qed.

(** An occurrence of [width: 401px] is always found by the scan. *)
Lemma fixedWidths_finds_401 (content : jsstring) :
  substring (lit "width: 401px") content ->
  In (lit "width: 401px") (fixedWidths_of content).
Proof.
  intros (pre & post & ->). unfold fixedWidths_of, match_all.
  assert (H : In (consumed (lit "width: 401px" ++ post) post)
                 (match_all_from (re_px3 "width:") 0
                    (pre ++ lit "width: 401px" ++ post))).
  { apply match_all_from_finds.
    - discriminate.
    - reflexivity.
    - intros p r Hp _ H. now apply (re_px3_width_no_overlap p _ r Hp H).
    - apply Nat.le_0_l. }
  now rewrite consumed_app in H.
Qed.

(* ================================================================= *)
(** ** The rules of [analyzeCSS] *)

(** The shape of a match of [/@media[^{]+\{/]. *)
Lemma re_media_shape (t rest : jsstring) :
  re_media finish t = Some rest ->
  exists c xs,
    t = lit "@media" ++ (c :: xs) ++ 123%N :: rest
    /\ forallb (notChar "{") (c :: xs) = true.
Proof.
  unfold re_media, r_plus. intros H.
  apply r_lit_Some in H as (s1 & -> & H).
  apply r_char_Some in H as (c & s2 & -> & Hc & H).
  apply r_star_Some in H as (xs & s3 & -> & Hxs & H).
  apply r_lit_Some in H as (s4 & -> & H). injection H as ->.
  exists c, xs. split; [reflexivity |]. cbn. now rewrite Hc, Hxs.
Qed.

(** A media-query match that starts in a closed prefix ends in it. *)
Lemma re_media_no_overlap (pre p tl r : jsstring) :
  mediaClosedIn pre ->
  p <> [] ->
  (exists q, pre = q ++ p) ->
  re_media finish (p ++ 64%N :: tl) = Some r ->
  (length (64%N :: tl) <= length r)%nat.
Proof.
  intros Hclosed Hp [q ->] H.
  apply re_media_shape in H as (c & xs & H & Hxs).
  destruct p as [|c1 [|c2 [|c3 [|c4 [|c5 [|c6 p]]]]]];
    try congruence; try discriminate H.
  cbn in H. injection H as -> -> -> -> -> -> H.
  assert (Hin : In 123%N p) by (apply (Hclosed q p); reflexivity).
  apply in_split in Hin as (a & b & ->).
  rewrite <- app_assoc in H. cbn [app] in H.
  pose proof (first_stop (notChar "{") 123%N (c :: xs) (123%N :: r) a
                (b ++ 64%N :: tl) Hxs eq_refl) as L.
  cbn [app] in L. specialize (L (eq_sym H)).
  cbn [length] in L |- *. rewrite length_app in L. cbn [length] in L.
  lia.
Qed.

Lemma fold_breakpoints_keeps (mqs : list jsstring) :
  forall acc x, In x acc -> In x (fold_left pushBreakpoints mqs acc).
Proof.
  induction mqs as [|mq mqs IH]; intros acc x Hx; cbn [fold_left]; [exact Hx |].
  apply IH. unfold pushBreakpoints.
  destruct (capture_px "max-width:" mq), (capture_px "min-width:" mq);
    rewrite ?in_app_iff; auto.
Qed.

(** The [max-width] of every media query found is collected. *)
Lemma collect_breakpoints_In (mqs : list jsstring) (mq d : jsstring) :
  In mq mqs ->
  capture_px "max-width:" mq = Some d ->
  In (parseInt d) (collect_breakpoints mqs).
Proof.
  unfold collect_breakpoints. generalize (@nil N) as acc.
  induction mqs as [|mq' mqs IH]; intros acc Hin Hd; [destruct Hin |].
  cbn [fold_left]. destruct Hin as [-> | Hin].
  - apply fold_breakpoints_keeps. unfold pushBreakpoints. rewrite Hd.
    destruct (capture_px "min-width:" mq); rewrite ?in_app_iff; cbn; auto.
  - now apply IH.
Qed.

(** A rule [@media (max-width: 480px) {] after a closed prefix yields the
    breakpoint 480. *)
Lemma media480_extracted (pre post : jsstring) :
  mediaClosedIn pre ->
  In 480%N (mqBreakpoints_of (pre ++ lit "@media (max-width: 480px) {" ++ post)).
Proof.
  intros Hclosed. unfold mqBreakpoints_of.
  apply (collect_breakpoints_In _ (lit "@media (max-width: 480px) {") (lit "480"));
    [| reflexivity].
  unfold mediaQueries_of, match_all.
  assert (H : In (consumed (lit "@media (max-width: 480px) {" ++ post) post)
                 (match_all_from re_media 0
                    (pre ++ lit "@media (max-width: 480px) {" ++ post))).
  { apply match_all_from_finds.
    - discriminate.
    - reflexivity.
    - intros p r Hp Hq H.
      exact (re_media_no_overlap pre p _ r Hclosed Hp Hq H).
    - apply Nat.le_0_l. }
  now rewrite consumed_app in H.
Qed.

Lemma hasMobile_iff (content : jsstring) :
  hasMobile_of content = true
  <-> exists bp, In bp (mqBreakpoints_of content) /\ (bp <= 500)%N.
Proof.
  unfold hasMobile_of. rewrite existsb_exists.
  split; intros (bp & Hin & H); exists bp; split; auto; now apply N.leb_le.
Qed.

Example scenario_breakpoints : mqBreakpoints_of scenario = [480%N].
Proof. vm_compute. reflexivity. Qed.

(** A media query quoted in a comment just before the rule hides it: the
    match starts at the quoted [@media] and its first [max-width] is 900. *)
Example media480_hidden_by_comment :
  mqBreakpoints_of
    (lit "/* @media (max-width: 900px) */ @media (max-width: 480px) { }")
  = [900%N].
Proof. vm_compute. reflexivity. Qed.

(** C5. Whenever a breakpoint value of at most 500 is extracted from the
    corpus, the mobile-breakpoint rule adds a Pass and no Issue: block 1
    leaves [issues] alone and ends [passed] with the mobile Pass, and the
    whole of [analyzeCSS] adds no Issue.  Whenever no such value is
    extracted, the rule adds the mobile entry to [issues]; the only Warning
    and Pass block 1 can add are the tablet ones.  A corpus with a rule
    [@media (max-width: 480px) {] that no unclosed [@media] precedes is one
    from which such a value is extracted. *)
Theorem mobile_breakpoint_rule
    (content : jsstring) (filename : string) (st : State) :
  let mobile := exists bp, In bp (mqBreakpoints_of content) /\ (bp <= 500)%N in
  let tabletW := if hasTablet_of content then [] else [tabletWarning] in
  let tabletP := if hasTablet_of content then [tabletPass] else [] in
  let st' := snd (analyzeCSS content filename st) in
  (mobile ->
     emits (checkBreakpoints content) st [] tabletW (tabletP ++ [mobilePass])
     /\ issues st' = issues st
     /\ exists before after,
          passed st' = passed st ++ before ++ mobilePass :: after)
  /\ (~ mobile ->
     emits (checkBreakpoints content) st [mobileIssue] tabletW tabletP
     /\ issues st' = issues st ++ [mobileIssue])
  /\ (forall pre post,
        content = pre ++ lit "@media (max-width: 480px) {" ++ post ->
        mediaClosedIn pre ->
        mobile).
Proof.
  cbv zeta.
  pose proof (checkBreakpoints_emits content st) as Hb.
  destruct (analyzeCSS_Emits content filename st) as (Hi & _ & Hp).
  unfold cssIssues in Hi. unfold cssPassed in Hp.
  split; [| split].
  - intros Hm. apply hasMobile_iff in Hm. rewrite Hm in Hb, Hi, Hp.
    split; [exact Hb |]. split.
    + now rewrite Hi, app_nil_r.
    + eexists. eexists. rewrite Hp. cbn [app]. reflexivity.
  - intros Hm.
    assert (E : hasMobile_of content = false).
    { destruct (hasMobile_of content) eqn:E; [| reflexivity].
      apply hasMobile_iff in E. contradiction. }
    rewrite E in Hb, Hi. rewrite app_nil_r in Hb.
    split; [exact Hb | exact Hi].
  - intros pre post -> Hclosed. exists 480%N.
    split; [now apply media480_extracted | lia].
Qed.

Lemma mobile_breakpoint_rule_witness :
  (emits (checkBreakpoints scenario) initial [] [tabletWarning] [mobilePass]
   /\ issues (snd (analyzeCSS scenario "index.html" initial)) = []
   /\ exists before after,
        passed (snd (analyzeCSS scenario "index.html" initial))
        = [] ++ before ++ mobilePass :: after)
  /\ (emits (checkBreakpoints []) initial [mobileIssue] [tabletWarning] []
      /\ issues (snd (analyzeCSS [] "index.html" initial)) = [mobileIssue])
  /\ (exists bp, In bp (mqBreakpoints_of scenario) /\ (bp <= 500)%N).
Proof.
  split; [| split].
  - apply (proj1 (mobile_breakpoint_rule scenario "index.html" initial)).
    exists 480%N. split; [rewrite scenario_breakpoints; now left | lia].
  - apply (proj1 (proj2 (mobile_breakpoint_rule [] "index.html" initial))).
    intros (bp & Hin & _). exact Hin.
  - apply (proj2 (proj2 (mobile_breakpoint_rule scenario "index.html" initial))
             [] (lit " .logo { font-size: 2rem; } } .logo { width: 500px; }")).
    + reflexivity.
    + intros p1 p2 E. destruct p1; discriminate E.
Defined.

(** C6. The fixed-width rule scans for [width:], blanks, three or more
    digits and [px]; it counts the occurrences whose number exceeds 400
    and adds a Warning carrying that count exactly when the count is
    positive.  A corpus whose only such declaration is [width: 400px]
    gets no Warning; a corpus containing [width: 401px] gets one. *)
Theorem fixed_width_rule (content : jsstring) (st : State) :
  let n := length (largeFixedWidths_of content) in
  (forall w, In w (fixedWidths_of content) ->
     exists ws ds,
       w = lit "width:" ++ ws ++ ds ++ lit "px"
       /\ substring w content
       /\ forallb isSpace ws = true
       /\ forallb isDigit ds = true
       /\ (3 <= length ds)%nat
       /\ exceeds400 w = (400 <? parseInt ds)%N)
  /\ n = length (filter exceeds400 (fixedWidths_of content))
  /\ emits (checkFixedWidths content) st
       []
       (if (0 <? n)%nat then [fixedWarning n] else [])
       (if (0 <? n)%nat then [] else [fixedPass])
  /\ (fixedWidths_of content = [lit "width: 400px"] ->
      emits (checkFixedWidths content) st [] [] [fixedPass])
  /\ (substring (lit "width: 401px") content ->
      (0 < n)%nat
      /\ emits (checkFixedWidths content) st [] [fixedWarning n] []).
Proof.
  cbv zeta. split; [| split; [| split; [| split]]].
  - intros w Hw.
    destruct (fixedWidths_have_digits content w Hw)
      as (ws & ds & H1 & H2 & H3 & H4 & H5 & _ & H7).
    exists ws, ds. auto 10.
  - reflexivity.
  - apply checkFixedWidths_emits.
  - intros H. pose proof (checkFixedWidths_emits content st) as He.
    cbv zeta in He. unfold largeFixedWidths_of in He. rewrite H in He.
    exact He.
  - intros H. apply fixedWidths_finds_401 in H.
    assert (Hin : In (lit "width: 401px") (largeFixedWidths_of content)).
    { apply filter_In. split; [exact H | reflexivity]. }
    assert (Hn : (0 < length (largeFixedWidths_of content))%nat).
    { destruct (largeFixedWidths_of content); [destruct Hin | cbn; lia]. }
    split; [exact Hn |].
    pose proof (checkFixedWidths_emits content st) as He. cbv zeta in He.
    apply Nat.ltb_lt in Hn. now rewrite Hn in He.
Qed.

Lemma fixed_width_rule_witness :
  emits (checkFixedWidths (lit ".hero { width: 400px; }")) initial
        [] [] [fixedPass]
  /\ ((0 < length (largeFixedWidths_of (lit ".hero { width: 401px; }")))%nat
      /\ emits (checkFixedWidths (lit ".hero { width: 401px; }")) initial
               [] [fixedWarning
                     (length (largeFixedWidths_of
                                (lit ".hero { width: 401px; }")))] []).
Proof.
  split.
  - apply (proj1 (proj2 (proj2 (proj2
      (fixed_width_rule (lit ".hero { width: 400px; }") initial))))).
    reflexivity.
  - apply (proj2 (proj2 (proj2 (proj2
      (fixed_width_rule (lit ".hero { width: 401px; }") initial))))).
    exists (lit ".hero { "), (lit "; }"). reflexivity.
Defined.

Lemma r_alt_Some (R : Type) (ls : list jsstring) (k : cont R) (s : jsstring) (r : R) :
  r_alt ls k s = Some r ->
  exists u s', In u ls /\ s = u ++ s' /\ k s' = Some r.
Proof.
  induction ls as [|l ls IH]; cbn [r_alt]; [discriminate |].
  destruct (r_lit l k s) as [x|] eqn:E.
  - intros H. injection H as ->.
    apply r_lit_Some in E as (s' & -> & Hk).
    exists l, s'. split; [now left | auto].
  - intros H. destruct (IH H) as (u & s' & Hin & -> & Hk).
    exists u, s'. split; [now right | auto].
Qed.

Lemma digits_last (c : char16) (xs : jsstring) :
  isDigit c = true -> forallb isDigit xs = true ->
  exists ys d, c :: xs = ys ++ [d] /\ isDigit d = true.
Proof.
  revert c. induction xs as [|x xs IH]; intros c Hc Hxs.
  - now exists [], c.
  - cbn in Hxs. apply andb_true_iff in Hxs as [Hx Hxs].
    destruct (IH x Hx Hxs) as (ys & d & E & Hd).
    exists (c :: ys), d. cbn [app]. now rewrite <- E.
Qed.

(** What [/\d+(\.\d+)?(vw|vh|rem|em|%|clamp)/] looks for: a digit directly
    followed by one of the six suffixes. *)
Lemma hasResponsiveUnits_iff (content : jsstring) :
  hasResponsiveUnits_of content = true
  <-> exists pre d u post,
        content = pre ++ d :: u ++ post /\ isDigit d = true /\ In u units.
Proof.
  unfold hasResponsiveUnits_of, test. split.
  - destruct (search (re_units finish) content) as [r|] eqn:E; [| discriminate].
    intros _. apply search_Some in E as (pre & t & -> & H).
    unfold re_units, r_plus in H.
    apply r_char_Some in H as (c & s1 & -> & Hc & H).
    apply r_star_Some in H as (xs & y & -> & Hxs & H).
    unfold r_opt in H.
    destruct (r_lit (lit ".") _ y) as [r'|] eqn:E.
    + injection H as ->.
      apply r_lit_Some in E as (y1 & -> & E).
      apply r_char_Some in E as (c' & s2 & -> & Hc' & E).
      apply r_star_Some in E as (xs' & y2 & -> & Hxs' & E).
      apply r_alt_Some in E as (u & s3 & Hu & -> & _).
      destruct (digits_last c' xs' Hc' Hxs') as (ys & d & Ed & Hd).
      exists (pre ++ c :: xs ++ lit "." ++ ys), d, u, s3.
      split; [| auto].
      rewrite <- !app_assoc. cbn [app]. rewrite <- !app_assoc.
      do 4 f_equal. change (c' :: xs' ++ u ++ s3) with ((c' :: xs') ++ u ++ s3).
      rewrite Ed, <- app_assoc. reflexivity.
    + apply r_alt_Some in H as (u & s3 & Hu & -> & _).
      destruct (digits_last c xs Hc Hxs) as (ys & d & Ed & Hd).
      exists (pre ++ ys), d, u, s3. split; [| auto].
      change (c :: xs ++ u ++ s3) with ((c :: xs) ++ u ++ s3).
      rewrite Ed, <- !app_assoc. reflexivity.
  - intros (pre & d & u & post & -> & Hd & Hu).
    assert (H : re_units finish (d :: u ++ post) <> None).
    { unfold re_units, r_plus. cbn [r_char]. rewrite Hd.
      cbn in Hu.
      repeat (destruct Hu as [<- | Hu]; [intros H; vm_compute in H; discriminate H |]).
      destruct Hu. }
    apply (search_success _ (re_units finish) pre) in H.
    destruct (search _ _); [reflexivity | congruence].
Qed.

(** C7. A corpus whose only responsive construct is a [clamp(...)]
    expression gets no responsive-units Pass: the pattern asks for a digit
    directly before [clamp]. *)
Theorem clamp_only_corpus_gets_no_units_pass :
  let content := lit ".hero { width: clamp(100px, 50px, 300px); }" in
  substring (lit "clamp(100px, 50px, 300px)") content
  /\ hasResponsiveUnits_of content = false
  /\ checkResponsiveUnits content initial = (tt, initial)
  /\ passed (snd (analyzeCSS content "index.html" initial)) = [fixedPass].
Proof.
  cbv zeta. split; [| split; [| split]].
  - exists (lit ".hero { width: "), (lit "; }"). reflexivity.
  - vm_compute. reflexivity.
  - vm_compute. reflexivity.
  - vm_compute. reflexivity.
Qed.

(* ================================================================= *)
(** ** The element checker *)

(** Splitting loses nothing: the fragments joined by the separator give
    the string back. *)
Lemma split_from_nonempty (sep : jsstring) (s : jsstring) :
  forall skip cur, split_from sep skip cur s <> [].
Proof.
  induction s as [|c s IH]; intros skip cur; cbn [split_from]; [discriminate |].
  destruct skip; [| apply IH].
  destruct (startsWith sep (c :: s)); [discriminate | apply IH].
Qed.

Lemma join_cons (sep p : jsstring) (ps : list jsstring) :
  ps <> [] -> join sep (p :: ps) = p ++ sep ++ join sep ps.
Proof. destruct ps; [congruence | reflexivity]. Qed.

Lemma join_split_from (sep : jsstring) :
  sep <> [] ->
  forall s skip cur,
    join sep (split_from sep skip cur s) = cur ++ skipn skip s.
Proof.
  intros Hsep. induction s as [|c s IH]; intros skip cur; cbn [split_from].
  - cbn [join]. now rewrite skipn_nil, app_nil_r.
  - destruct skip as [|n]; [| now rewrite IH].
    destruct (startsWith sep (c :: s)) eqn:E.
    + rewrite join_cons by apply split_from_nonempty.
      rewrite IH. cbn [app skipn]. f_equal.
      apply startsWith_iff in E as (post & E).
      destruct sep as [|a sep]; [congruence |].
      cbn in E. injection E as -> ->.
      replace (length (a :: sep) - 1)%nat with (length sep)
        by (cbn [length]; apply eq_sym, Nat.sub_0_r).
      rewrite skipn_app, skipn_all, Nat.sub_diag. reflexivity.
    + rewrite IH. cbn [skipn]. now rewrite <- app_assoc.
Qed.

Lemma join_split (sep s : jsstring) :
  sep <> [] -> join sep (split sep s) = s.
Proof. intros H. unfold split. now rewrite join_split_from. Qed.

Lemma re_block_matches (sel : string) (ws body post : jsstring) :
  forallb isSpace ws = true ->
  forallb (notChar "}") body = true ->
  re_block sel finish (lit sel ++ ws ++ lit "{" ++ body ++ lit "}" ++ post)
  = Some post.
Proof.
  intros Hws Hbody. unfold re_block.
  apply r_lit_Some. eexists. split; [reflexivity |].
  apply r_star_greedy; [assumption | |].
  { intros c y E. injection E as <- _. reflexivity. }
  apply r_lit_Some. eexists. split; [reflexivity |].
  apply r_star_greedy; [assumption | |].
  { intros c y E. injection E as <- _. reflexivity. }
  apply r_lit_Some. eexists. split; reflexivity.
Qed.

Lemma hasBlock_iff (content : jsstring) (el : Element) :
  hasBlock content el = true <-> declaresBlock content el.
Proof.
  unfold hasBlock, declaresBlock. rewrite Nat.ltb_lt. split.
  - intros H.
    destruct (match_all (re_block (selector el)) content) as [|w ws'] eqn:E;
      [cbn in H; lia |].
    assert (Hin : In w (match_all (re_block (selector el)) content))
      by (rewrite E; now left).
    apply In_match_all_from in Hin as (pre & t & rest & -> & Hm & _).
    unfold re_block in Hm.
    apply r_lit_Some in Hm as (s1 & -> & Hm).
    apply r_star_Some in Hm as (ws & s2 & -> & Hws & Hm).
    apply r_lit_Some in Hm as (s3 & -> & Hm).
    apply r_star_Some in Hm as (body & s4 & -> & Hbody & Hm).
    apply r_lit_Some in Hm as (s5 & -> & _).
    now exists pre, ws, body, s5.
  - intros (pre & ws & body & post & -> & Hws & Hbody).
    destruct (match_all (re_block (selector el)) _) eqn:E; [| cbn; lia].
    exfalso.
    pose proof (proj1 (match_all_nil_iff _ _) E pre _ eq_refl) as H.
    rewrite re_block_matches in H by assumption.
    assert (Some post = None); [| discriminate].
    apply H. intros E'. apply (f_equal (@length _)) in E'.
    rewrite !length_app in E'. cbn in E'. lia.
Qed.

Lemma hasResponsive_iff (content : jsstring) (el : Element) :
  hasResponsive content el = true <-> overriddenInMedia content el.
Proof. unfold hasResponsive, overriddenInMedia. apply anyIncludes_iff. Qed.

Lemma analyzeElement_Emits (content : jsstring) (el : Element) :
  Emits (analyzeElement content el) []
    (if needsReview content el then [reviewMsg el] else [])
    (if isResponsive content el then [responsiveMsg el] else []).
Proof.
  intros st. unfold analyzeElement, needsReview, isResponsive.
  destruct (hasBlock content el), (hasResponsive content el); run_monad.
Qed.

Lemma forEach_analyzeElement_Emits (content : jsstring) (els : list Element) :
  Emits (forEach els (analyzeElement content)) []
    (map reviewMsg (filter (needsReview content) els))
    (map responsiveMsg (filter (isResponsive content) els)).
Proof.
  induction els as [|el els IH]; cbn [forEach].
  - apply Emits_ret.
  - eapply Emits_eq.
    + eapply Emits_bind; [apply analyzeElement_Emits | intros _; exact IH].
    + reflexivity.
    + cbn [filter]. now destruct (needsReview content el).
    + cbn [filter]. now destruct (isResponsive content el).
Qed.

Lemma analyzeElements_Emits (content : jsstring) :
  Emits (analyzeElements content) []
    (map reviewMsg (filter (needsReview content) criticalElements))
    (map responsiveMsg (filter (isResponsive content) criticalElements)).
Proof.
  unfold analyzeElements.
  eapply Emits_eq.
  - eapply Emits_bind; [apply Emits_log | intros _].
    apply forEach_analyzeElement_Emits.
  - reflexivity.
  - reflexivity.
  - reflexivity.
Qed.

(** C4, as the code has it: the catalogue holds ten selectors, not
    fourteen. *)
Lemma criticalElements_are_ten :
  length criticalElements = 10%nat /\ length criticalElements <> 14%nat.
Proof. split; [reflexivity | discriminate]. Qed.

(** C4 (amended). The element checker walks a fixed catalogue of ten
    selectors.  For a selector with at least one declaration block in the
    corpus, the corpus is split on [@media]: the selector is passed as
    having responsive styles exactly when its bare name occurs in a
    fragment after the first split point, and is otherwise warned about.
    A selector with no declaration block is logged as not found and adds
    no Finding. *)
Theorem element_checker_verdicts
    (content : jsstring) (el : Element) (st : State) :
  length criticalElements = 10%nat
  /\ (declaresBlock content el -> overriddenInMedia content el ->
      emits (analyzeElement content el) st [] [] [responsiveMsg el])
  /\ (declaresBlock content el -> ~ overriddenInMedia content el ->
      emits (analyzeElement content el) st [] [reviewMsg el] [])
  /\ (~ declaresBlock content el ->
      snd (analyzeElement content el st)
      = mkState (issues st) (warnings st) (passed st)
                (out st ++ [(info, (name el ++ ": Não encontrado")%string)]))
  /\ emits (analyzeElements content) st []
       (map reviewMsg (filter (needsReview content) criticalElements))
       (map responsiveMsg (filter (isResponsive content) criticalElements))
  /\ (forall e, needsReview content e = true
                <-> declaresBlock content e /\ ~ overriddenInMedia content e)
  /\ (forall e, isResponsive content e = true
                <-> declaresBlock content e /\ overriddenInMedia content e).
Proof.
  pose proof (analyzeElement_Emits content el st) as He.
  unfold needsReview, isResponsive in He.
  split; [reflexivity |].
  split; [| split; [| split; [| split; [| split]]]].
  - intros Hd Ho. apply hasBlock_iff in Hd. apply hasResponsive_iff in Ho.
    now rewrite Hd, Ho in He.
  - intros Hd Ho. apply hasBlock_iff in Hd.
    destruct (hasResponsive content el) eqn:E.
    + apply hasResponsive_iff in E. contradiction.
    + now rewrite Hd in He.
  - intros Hd. unfold analyzeElement.
    destruct (hasBlock content el) eqn:E; [| reflexivity].
    apply hasBlock_iff in E. contradiction.
  - apply analyzeElements_Emits.
  - intros e. unfold needsReview.
    rewrite andb_true_iff, negb_true_iff, hasBlock_iff, <- hasResponsive_iff.
    split; intros [H1 H2]; split; auto.
    + congruence.
    + now destruct (hasResponsive content e).
  - intros e. unfold isResponsive.
    now rewrite andb_true_iff, hasBlock_iff, hasResponsive_iff.
Qed.

Lemma element_checker_verdicts_witness :
  emits (analyzeElement scenario (mkElement ".logo" "Logo")) initial
        [] [] ["Logo: tem estilos responsivos"]
  /\ emits (analyzeElement (lit ".hero { color: red; }")
                           (mkElement ".hero" "Seção Hero")) initial
           [] ["Seção Hero: pode precisar de ajustes mobile"] []
  /\ snd (analyzeElement [] (mkElement ".hero" "Seção Hero") initial)
     = mkState [] [] [] [(info, "Seção Hero: Não encontrado")].
Proof.
  split; [| split].
  - apply (proj1 (proj2
      (element_checker_verdicts scenario (mkElement ".logo" "Logo") initial))).
    + exists (lit "@media (max-width: 480px) { "), (lit " "),
        (lit " font-size: 2rem; "),
        (lit " } .logo { width: 500px; }").
      split; [reflexivity | split; reflexivity].
    + exists (lit " (max-width: 480px) { .logo { font-size: 2rem; } } .logo { width: 500px; }").
      split; [now left |].
      exists (lit " (max-width: 480px) { ."),
        (lit " { font-size: 2rem; } } .logo { width: 500px; }").
      reflexivity.
  - apply (proj1 (proj2 (proj2
      (element_checker_verdicts (lit ".hero { color: red; }")
         (mkElement ".hero" "Seção Hero") initial)))).
    + exists [], (lit " "), (lit " color: red; "), [].
      split; [reflexivity | split; reflexivity].
    + intros (frag & Hin & _). exact Hin.
  - apply (proj1 (proj2 (proj2 (proj2
      (element_checker_verdicts [] (mkElement ".hero" "Seção Hero") initial))))).
    intros (pre & ws & body & post & E & _).
    destruct pre; discriminate E.
Defined.

(* ================================================================= *)
(** ** The driver *)

Lemma r_lit_ci_Some (R : Type) (l : jsstring) (k : cont R) (s : jsstring) (r : R) :
  r_lit_ci l k s = Some r
  <-> exists x s', s = x ++ s' /\ sameUpToCase x l /\ k s' = Some r.
Proof.
  unfold sameUpToCase.
  revert s; induction l as [|a l IH]; intros s; cbn [r_lit_ci].
  - split.
    + intros H. now exists [], s.
    + intros (x & s' & -> & Hx & H). destruct x; [exact H | discriminate].
  - rewrite r_char_Some. split.
    + intros (c & s' & -> & Hc & H). apply N.eqb_eq in Hc.
      apply IH in H as (x & s'' & -> & Hx & H).
      exists (c :: x), s''. cbn. now rewrite Hc, Hx.
    + intros (x & s' & -> & Hx & H). destruct x as [|c x]; [discriminate |].
      cbn in Hx. injection Hx as Hc Hx.
      exists c, (x ++ s'). split; [reflexivity |]. split.
      * now apply N.eqb_eq.
      * apply IH. now exists x, s'.
Qed.

Lemma r_lazy_Some (R : Type) (p : char16 -> bool) (k : cont R) (s : jsstring) (r : R) :
  r_lazy p k s = Some r ->
  exists xs y, s = xs ++ y /\ forallb p xs = true /\ k y = Some r.
Proof.
  induction s as [|c s IH]; cbn [r_lazy].
  - destruct (k []) eqn:E; [| discriminate].
    intros H. injection H as ->. now exists [], [].
  - destruct (k (c :: s)) eqn:E.
    + intros H. injection H as ->. now exists [], (c :: s).
    + destruct (p c) eqn:Hc; [| discriminate].
      intros H. destruct (IH H) as (xs & y & -> & Hxs & Hy).
      exists (c :: xs), y. cbn. now rewrite Hc, Hxs.
Qed.

Lemma r_lazy_success (R : Type) (p : char16 -> bool) (k : cont R) (xs y : jsstring) :
  forallb p xs = true -> k y <> None -> r_lazy p k (xs ++ y) <> None.
Proof.
  induction xs as [|c xs IH]; cbn [app]; intros Hxs Hk.
  - destruct y; cbn [r_lazy]; destruct (k _); congruence.
  - cbn in Hxs. apply andb_true_iff in Hxs as [Hc Hxs].
    cbn [r_lazy]. destruct (k (c :: xs ++ y)); [discriminate |].
    rewrite Hc. now apply IH.
Qed.

Lemma r_lit_ci_success (R : Type) (l x : jsstring) (k : cont R) (s' : jsstring) :
  sameUpToCase x l -> k s' <> None -> r_lit_ci l k (x ++ s') <> None.
Proof.
  intros Hx Hk. destruct (k s') as [r|] eqn:E; [| congruence].
  assert (H : r_lit_ci l k (x ++ s') = Some r)
    by (apply r_lit_ci_Some; now exists x, s').
  congruence.
Qed.

(** The extraction finds a block exactly when the document has one. *)
Lemma styleMatch_iff (content : jsstring) :
  match_all re_style content <> [] <-> hasStyleBlock content.
Proof.
  unfold hasStyleBlock. split.
  - intros H.
    destruct (match_all re_style content) as [|w ws'] eqn:E; [congruence |].
    assert (Hin : In w (match_all re_style content)) by (rewrite E; now left).
    apply In_match_all_from in Hin as (pre & t & rest & -> & Hm & _).
    unfold re_style in Hm.
    apply r_lit_ci_Some in Hm as (open & s1 & -> & Hopen & Hm).
    apply r_star_Some in Hm as (attrs & s2 & -> & Hattrs & Hm).
    apply r_lit_ci_Some in Hm as (gt & s3 & -> & Hgt & Hm).
    apply r_lazy_Some in Hm as (body & s4 & -> & _ & Hm).
    apply r_lit_ci_Some in Hm as (close & s5 & -> & Hclose & _).
    now exists pre, open, attrs, gt, body, close, s5.
  - intros (pre & open & attrs & gt & body & close & post
            & -> & Hopen & Hattrs & Hgt & Hclose) E.
    pose proof (proj1 (match_all_nil_iff _ _) E pre _ eq_refl) as H.
    assert (Hm : re_style finish
                   (open ++ attrs ++ gt ++ body ++ close ++ post) <> None).
    { unfold re_style.
      apply r_lit_ci_success; [assumption |].
      apply r_star_success; [assumption |].
      apply r_lit_ci_success; [assumption |].
      apply r_lazy_success; [now apply forallb_forall |].
      apply r_lit_ci_success; [assumption | discriminate]. }
    apply Hm, H. intros E'. destruct open; [discriminate Hopen | discriminate E'].
Qed.

(** A file that is missing is logged and nothing else happens. *)
Lemma processFile_missing (fs : FileSystem) (file : string) (st : State) :
  fs file = None ->
  processFile fs file st
  = (tt, mkState (issues st) (warnings st) (passed st)
                 (out st ++ [(warning, ("Arquivo não encontrado: " ++ file)%string)])).
Proof. intros H. unfold processFile. now rewrite H. Qed.

(** A file without any style block is skipped altogether. *)
Lemma processFile_no_style (fs : FileSystem) (file : string)
    (content : jsstring) (st : State) :
  fs file = Some content ->
  ~ hasStyleBlock content ->
  processFile fs file st = (tt, st).
Proof.
  intros H Hno. unfold processFile. rewrite H.
  destruct (match_all re_style content) eqn:E; [reflexivity |].
  exfalso. apply Hno, styleMatch_iff. congruence.
Qed.

Lemma Emits_appends {A} (m : M A) i w p : Emits m i w p -> appends m.
Proof. intros H st. exists i, w, p. exact (H st). Qed.

Lemma appends_analyzeCSS content filename : appends (analyzeCSS content filename).
Proof. eapply Emits_appends, analyzeCSS_Emits. Qed.

Lemma appends_analyzeElements content : appends (analyzeElements content).
Proof. eapply Emits_appends, analyzeElements_Emits. Qed.

Lemma appends_generateSuggestions analysis : appends (generateSuggestions analysis).
Proof. unfold generateSuggestions. appends_auto. Qed.

Lemma appends_printChecklist : appends printChecklist.
Proof. unfold printChecklist. appends_auto. Qed.

Lemma appends_printReport : appends printReport.
Proof. intros st. apply extends_refl. Qed.

#[local] Hint Resolve appends_analyzeCSS appends_analyzeElements
  appends_generateSuggestions appends_printChecklist appends_printReport
  : appends.

Lemma appends_processFile fs file : appends (processFile fs file).
Proof.
  unfold processFile. destruct (fs file) as [content|]; [| appends_auto].
  destruct (match_all re_style content); appends_auto.
Qed.

#[local] Hint Resolve appends_processFile : appends.

Lemma appends_main fs : appends (main fs).
Proof. unfold main. appends_auto. Qed.

Lemma main_unfold (fs : FileSystem) (st : State) :
  let final :=
    snd (printChecklist
           (snd (processFile fs "confirmacao.html"
                   (snd (processFile fs "index.html" st))))) in
  main fs st
  = (fst (printReport final),
     if (0 <? length (issues final))%nat then 1%nat else 0%nat,
     final).
Proof.
  cbv zeta. unfold main, files. cbn [forEach].
  unfold bind at 1. unfold bind at 1.
  destruct (processFile fs "index.html" st) as [[] st1]. cbn [snd].
  unfold bind at 1.
  destruct (processFile fs "confirmacao.html" st1) as [[] st2]. cbn [snd ret].
  reflexivity.
Qed.

(** C10. The three sequences only grow: every operation of the script
    leaves each of them as it was and adds entries at its end, so does the
    processing of each file and the whole run, and the report holds
    exactly the accumulated sequences. *)
Theorem sequences_append_only
    (content : jsstring) (filename : string) (analysis : Analysis)
    (fs : FileSystem) (file : string) (st : State) :
  appends (analyzeCSS content filename)
  /\ appends (analyzeElements content)
  /\ appends (generateSuggestions analysis)
  /\ appends printChecklist
  /\ appends printReport
  /\ appends (processFile fs file)
  /\ appends (main fs)
  /\ snd (printReport st) = st
  /\ (let report := fst (printReport st) in
      r_passed report = passed st
      /\ r_warnings report = warnings st
      /\ r_issues report = issues st)
  /\ (let report := fst (fst (main fs st)) in
      let final := snd (main fs st) in
      extends st final
      /\ r_passed report = passed final
      /\ r_warnings report = warnings final
      /\ r_issues report = issues final).
Proof.
  split; [apply appends_analyzeCSS |].
  split; [apply appends_analyzeElements |].
  split; [apply appends_generateSuggestions |].
  split; [apply appends_printChecklist |].
  split; [apply appends_printReport |].
  split; [apply appends_processFile |].
  split; [apply appends_main |].
  split; [reflexivity |].
  split; [cbv zeta; auto |].
  cbv zeta. split; [apply appends_main |].
  rewrite main_unfold. cbv zeta. cbn [fst snd]. auto.
Qed.

(** C8. The exit status is 0 exactly when the accumulated [issues] are
    empty after both files and 1 otherwise, whatever [warnings] and
    [passed] hold; a missing file is logged as a warning line, adds no
    Finding, and the run goes on with the next file. *)
Theorem exit_status (fs : FileSystem) (st : State) :
  let code := snd (fst (main fs st)) in
  let final := snd (main fs st) in
  (code = 0%nat <-> issues final = [])
  /\ (code = 1%nat <-> issues final <> [])
  /\ final
     = snd (printChecklist
              (snd (processFile fs "confirmacao.html"
                      (snd (processFile fs "index.html" st)))))
  /\ issues final
     = issues (snd (processFile fs "confirmacao.html"
                      (snd (processFile fs "index.html" st))))
  /\ (forall file,
        fs file = None ->
        processFile fs file st
        = (tt, mkState (issues st) (warnings st) (passed st)
                 (out st ++ [(warning,
                              ("Arquivo não encontrado: " ++ file)%string)]))).
Proof.
  cbv zeta. rewrite main_unfold. cbv zeta. cbn [fst snd].
  split; [| split; [| split; [| split]]].
  - destruct (issues _); cbn; split; congruence.
  - destruct (issues _); cbn; split; congruence.
  - reflexivity.
  - reflexivity.
  - intros file H. now apply processFile_missing.
Qed.

Lemma exit_status_witness :
  processFile onlyIndex "confirmacao.html" initial
  = (tt, mkState [] [] [] [(warning, "Arquivo não encontrado: confirmacao.html")])
  /\ snd (fst (main onlyIndex initial)) = 0%nat
  /\ warnings (snd (main onlyIndex initial)) <> [].
Proof.
  split; [| split].
  - apply (proj2 (proj2 (proj2 (proj2 (exit_status onlyIndex initial))))).
    reflexivity.
  - apply (proj1 (exit_status onlyIndex initial)). vm_compute. reflexivity.
  - vm_compute. discriminate.
Defined.

(** C3, as the code has it: a file without a style block leaves the
    state untouched, although the rules run on the empty corpus would
    have added Findings. *)
Lemma file_without_style_runs_no_rule :
  let fs : FileSystem :=
    fun _ => Some (lit "<html><body><h1>Paraty GO!</h1></body></html>") in
  processFile fs "index.html" initial = (tt, initial)
  /\ issues (snd (analyzeCSS [] "index.html" initial)) = [mobileIssue]
  /\ warnings (snd (analyzeCSS [] "index.html" initial))
     = [tabletWarning; overflowWarning].
Proof. cbv zeta. split; [| split]; vm_compute; reflexivity. Qed.

(** C3 (amended). For every input file that exists but holds no style
    block (none at all, or one that is never closed), the analyser does
    not fail and skips the file: no rule runs, no Finding is added and
    nothing is logged. *)
Theorem file_without_style_block_is_skipped
    (fs : FileSystem) (file : string) (content : jsstring) (st : State) :
  fs file = Some content ->
  ~ hasStyleBlock content ->
  processFile fs file st = (tt, st)
  /\ match_all re_style content = [].
Proof.
  intros H Hno. split; [exact (processFile_no_style fs file content st H Hno) |].
  destruct (match_all re_style content) eqn:E; [reflexivity |].
  exfalso. apply Hno, styleMatch_iff. congruence.
Qed.

Lemma file_without_style_block_is_skipped_witness :
  processFile (fun _ => Some (lit "<html><style>body { margin: 0 }</html>"))
              "index.html" initial
  = (tt, initial)
  /\ match_all re_style (lit "<html><style>body { margin: 0 }</html>") = [].
Proof.
  apply (file_without_style_block_is_skipped
           (fun _ => Some (lit "<html><style>body { margin: 0 }</html>"))
           "index.html" (lit "<html><style>body { margin: 0 }</html>") initial).
  - reflexivity.
  - intros H. apply styleMatch_iff in H. apply H. vm_compute. reflexivity.
Defined.

(* ================================================================= *)
(** ** The empty corpus and the score *)

(** C2, as the code has it: on the empty corpus the fixed-width rule adds
    a Pass, so there are four Findings and the score is 25. *)
Lemma empty_corpus_has_a_pass :
  let st := snd (analyzeCSS [] "index.html" initial) in
  passed st = [fixedPass]
  /\ (length (issues st) + length (warnings st) + length (passed st))%nat = 4%nat
  /\ score (fst (printReport st)) = 25%float.
Proof. cbv zeta. split; [| split]; vm_compute; reflexivity. Qed.

(** C2 (amended). On the empty corpus the rule set adds exactly four
    Findings: the tablet Warning, the mobile Issue, the overflow-x
    Warning and the Pass of the fixed-width rule; the element checker
    adds none; the score of these four Findings is 25. *)
Theorem empty_corpus_findings (filename : string) :
  Emits (analyzeCSS [] filename)
        [mobileIssue] [tabletWarning; overflowWarning] [fixedPass]
  /\ Emits (analyzeElements []) [] [] []
  /\ computeScore 1 2 1 = 25%float
  /\ score (fst (printReport (snd (analyzeCSS [] filename initial))))
     = 25%float.
Proof.
  split; [exact (analyzeCSS_Emits [] filename) |].
  split; [exact (analyzeElements_Emits []) |].
  split; [vm_compute; reflexivity |].
  destruct (analyzeCSS_Emits [] filename initial) as (Hi & Hw & Hp).
  unfold printReport. cbn [fst score]. rewrite Hi, Hw, Hp.
  vm_compute. reflexivity.
Qed.

(** C1. With no Finding at all the score is not guarded: the division is
    0/0 and the report carries NaN, under the lowest banner, while the
    exit status is 0.  This is what a run gives when neither file
    exists, or when no file has a style block. *)
Theorem score_without_findings_is_nan :
  computeScore 0 0 0 = nan
  /\ PrimFloat.is_nan (score (fst (printReport initial))) = true
  /\ (let r := main (fun _ => None) initial in
      issues (snd r) = [] /\ warnings (snd r) = [] /\ passed (snd r) = []
      /\ score (fst (fst r)) = nan
      /\ snd (fst r) = 0%nat)
  /\ score (fst (fst (main (fun _ => Some (lit "<html></html>")) initial)))
     = nan
  /\ statusMsg nan = "❌ PRECISA DE MELHORIAS".
Proof.
  cbv zeta.
  split; [| split; [| split; [| split]]]; vm_compute; auto.
Qed.

Example score_of_two_passes_three_warnings : computeScore 2 3 0 = 40%float.
Proof. vm_compute. reflexivity. Qed.

(** The quotient is rounded to binary64 before it is multiplied: 29 passes
    out of 200 Findings give 14, although 100 * 29 / 200 is 14.5. *)
Example score_rounds_the_binary64_product : computeScore 29 171 0 = 14%float.
Proof. vm_compute. reflexivity. Qed.

(* ================================================================= *)
(** ** The touch-target check of test-visual.js *)

(** The formatting of the sizes: the nearest integer, a half upwards, and
    the exponent notation from 1e21 on. *)
Example toFixed0_examples :
  Visual.toFixed0 43.5 = lit "44"
  /\ Visual.toFixed0 0.5 = lit "1"
  /\ Visual.toFixed0 0.25 = lit "0"
  /\ Visual.toFixed0 1e21 = lit "1e+21"
  /\ Visual.toFixed0 1180591620717411303424 = lit "1.1805916207174113e+21"
  /\ Visual.toFixed0 infinity = lit "Infinity"
  /\ Visual.label (socialLink 43 44) = lit "A(43x44)".
Proof. vm_compute. repeat split; reflexivity. Qed.

Lemma checkClickable_cases (issues : list jsstring) (el : Visual.Clickable) :
  Visual.checkClickable issues el
  = if throwsAt el then None
    else if flagged el then Some (issues ++ [Visual.label el])
    else Some issues.
Proof.
  unfold Visual.checkClickable, throwsAt, flagged.
  destruct (Visual.tooSmall el); cbn [andb]; [| reflexivity].
  destruct (Visual.includesCheckbox (Visual.identifier el)) as [[|]|];
    reflexivity.
Qed.

Lemma not_self_extended {A} (l : list A) (x : A) : l ++ [x] <> l.
Proof.
  intros E. apply (f_equal (@length A)) in E.
  rewrite length_app in E. cbn in E. lia.
Qed.

(** C9. On a clickable element of positive width and height whose
    identifier is a string without [checkbox], the touch-target callback
    flags the element exactly when its width or its height is below 44;
    44x44 is never flagged, whatever the element.  The identifier of a
    link inside an [<svg>], without id, is an object and not a string: at
    43x44 the callback throws instead of flagging it, and what it had
    collected before is lost with it. *)
Theorem touch_target_check (el : Visual.Clickable) (issues : list jsstring) :
  ((0 <? Visual.width el)%float = true ->
   (0 <? Visual.height el)%float = true ->
   Visual.includesCheckbox (Visual.identifier el) = Some false ->
   (Visual.checkClickable issues el = Some (issues ++ [Visual.label el])
    <-> (Visual.width el <? 44)%float = true
        \/ (Visual.height el <? 44)%float = true)
   /\ (Visual.checkClickable issues el = Some issues
       <-> (Visual.width el <? 44)%float = false
           /\ (Visual.height el <? 44)%float = false))
  /\ (forall i c t,
        Visual.checkClickable issues (Visual.mkClickable i c t 44 44)
        = Some issues)
  /\ (forall i c t,
        Visual.includesCheckbox
          (Visual.identifier (Visual.mkClickable i c t 43 44)) = Some false ->
        Visual.checkClickable issues (Visual.mkClickable i c t 43 44)
        = Some (issues ++ [Visual.label (Visual.mkClickable i c t 43 44)]))
  /\ Visual.includesCheckbox (Visual.identifier (svgLink 43 44)) = None
  /\ Visual.checkClickable issues (svgLink 43 44) = None
  /\ Visual.smallTouchTargets [socialLink 43 44; svgLink 43 44] = None
  /\ Visual.smallTouchTargets [socialLink 43 44; svgLink 44 44]
     = Some [lit "A(43x44)"].
Proof.
  split; [| split; [| split; [| split; [| split; [| split]]]]].
  - intros Hw Hh Hc. unfold Visual.checkClickable, Visual.tooSmall.
    rewrite Hw, Hh, Hc. cbn [andb].
    destruct (Visual.width el <? 44)%float, (Visual.height el <? 44)%float;
      cbn [orb];
      repeat match goal with
             | |- _ /\ _ => split
             | |- _ <-> _ => split; intros ?
             | H : _ \/ _ |- _ => destruct H
             | H : _ /\ _ |- _ => destruct H
             | H : true = false |- _ => discriminate H
             | H : false = true |- _ => discriminate H
             | H : Some (_ ++ [_]) = Some _ |- _ =>
                 injection H as H; destruct (not_self_extended _ _ H)
             | H : Some ?l = Some (?l ++ [_]) |- _ =>
                 injection H as H;
                 destruct (not_self_extended _ _ (eq_sym H))
             | |- ?x = ?x => reflexivity
             | |- true = true \/ _ => left; reflexivity
             | |- _ \/ true = true => right; reflexivity
             end.
  - intros i c t. reflexivity.
  - intros i c t Hc. unfold Visual.checkClickable. rewrite Hc. reflexivity.
  - reflexivity.
  - reflexivity.
  - vm_compute. reflexivity.
  - vm_compute. reflexivity.
Qed.

Lemma touch_target_check_witness :
  (Visual.checkClickable [] (socialLink 43 44)
   = Some ([] ++ [Visual.label (socialLink 43 44)])
   <-> (43 <? 44)%float = true \/ (44 <? 44)%float = true)
  /\ (Visual.checkClickable [] (socialLink 44 44) = Some []
      <-> (44 <? 44)%float = false /\ (44 <? 44)%float = false)
  /\ Visual.checkClickable [] (socialLink 43 44)
     = Some ([] ++ [Visual.label (socialLink 43 44)]).
Proof.
  split; [| split].
  - apply (proj1 (touch_target_check (socialLink 43 44) []));
      reflexivity.
  - apply (proj1 (touch_target_check (socialLink 44 44) []));
      reflexivity.
  - apply (proj1 (proj2 (proj2 (touch_target_check (socialLink 43 44) [])))).
    reflexivity.
Defined.

(* ================================================================= *)
(** ** Further properties: the scans of widths and paddings *)

Lemma isDigit_not_space (c : char16) : isDigit c = true -> isSpace c = false.
Proof.
  intros H. destruct (isSpace c) eqn:E; [| reflexivity].
  apply isSpace_not_digit in E. congruence.
Qed.

Lemma substring_trans (a b c : jsstring) :
  substring a b -> substring b c -> substring a c.
Proof.
  intros (p1 & q1 & ->) (p2 & q2 & ->).
  exists (p2 ++ p1), (q1 ++ q2). now rewrite <- !app_assoc.
Qed.

(** The pattern [/prop\s*\d{3,}px/] matches a declaration of that shape, and
    the match ends right after [px]. *)
Lemma re_px3_matches (prop : string) (ws ds post : jsstring) :
  forallb isSpace ws = true ->
  forallb isDigit ds = true ->
  (3 <= length ds)%nat ->
  re_px3 prop finish (lit prop ++ ws ++ ds ++ lit "px" ++ post) = Some post.
Proof.
  intros Hws Hds Hlen.
  destruct ds as [|d1 [|d2 [|d3 ds]]]; cbn in Hlen; try lia.
  cbn in Hds.
  apply andb_true_iff in Hds as [H1 Hds].
  apply andb_true_iff in Hds as [H2 Hds].
  apply andb_true_iff in Hds as [H3 Hds].
  unfold re_px3. apply r_lit_Some. eexists. split; [reflexivity |].
  apply r_star_greedy; [assumption | |].
  { intros c y E. cbn in E. injection E as <- _. now apply isDigit_not_space. }
  cbn [app r_char]. rewrite H1, H2, H3.
  apply r_star_greedy; [assumption | |].
  { intros c y E. injection E as <- _. reflexivity. }
  apply r_lit_Some. eexists. split; reflexivity.
Qed.

Lemma exceeds400_widthDecl (ws ds : jsstring) :
  forallb isSpace ws = true ->
  forallb isDigit ds = true ->
  ds <> [] ->
  exceeds400 (widthDecl ws ds) = (400 <? parseInt ds)%N.
Proof.
  intros Hws Hds Hne. unfold exceeds400, widthDecl.
  rewrite app_assoc, match_first_digits; auto.
  - rewrite forallb_app. apply andb_true_iff. split; [reflexivity |].
    apply (forallb_imp isSpace); [| assumption].
    intros c Hc. now rewrite (isSpace_not_digit c Hc).
  - intros c y E. injection E as <- _. reflexivity.
Qed.

(** A width declaration anywhere in the corpus is found by the scan. *)
Lemma fixedWidths_finds (content ws ds : jsstring) :
  forallb isSpace ws = true ->
  forallb isDigit ds = true ->
  (3 <= length ds)%nat ->
  substring (widthDecl ws ds) content ->
  In (widthDecl ws ds) (fixedWidths_of content).
Proof.
  intros Hws Hds Hlen (pre & post & ->). unfold fixedWidths_of, match_all.
  assert (H : In (consumed (widthDecl ws ds ++ post) post)
                 (match_all_from (re_px3 "width:") 0
                    (pre ++ widthDecl ws ds ++ post))).
  { apply match_all_from_finds.
    - unfold widthDecl. discriminate.
    - unfold widthDecl. rewrite <- !app_assoc. now apply re_px3_matches.
    - intros p r Hp _ H.
      exact (re_px3_width_no_overlap p _ r Hp H).
    - apply Nat.le_0_l. }
  now rewrite consumed_app in H.
Qed.

Lemma filter_nonempty_iff {A} (f : A -> bool) (l : list A) :
  (0 < length (filter f l))%nat <-> exists x, In x l /\ f x = true.
Proof.
  split.
  - destruct (filter f l) as [|x xs] eqn:E; cbn; [lia |].
    intros _. exists x. apply filter_In. rewrite E. now left.
  - intros (x & Hx). apply filter_In in Hx.
    destruct (filter f l); [destruct Hx | cbn; lia].
Qed.

(** The count of large fixed widths is positive exactly when a width
    declaration above 400 occurs in the corpus. *)
Lemma largeFixedWidths_nonempty_iff (content : jsstring) :
  (0 < length (largeFixedWidths_of content))%nat
  <-> exists ws ds,
        substring (widthDecl ws ds) content
        /\ forallb isSpace ws = true
        /\ forallb isDigit ds = true
        /\ (3 <= length ds)%nat
        /\ (400 < parseInt ds)%N.
Proof.
  unfold largeFixedWidths_of. rewrite filter_nonempty_iff. split.
  - intros (w & Hin & Hw).
    destruct (fixedWidths_have_digits content w Hin)
      as (ws & ds & -> & Hsub & Hws & Hds & Hlen & _ & Hex).
    exists ws, ds. repeat (split; [assumption |]).
    apply N.ltb_lt. now rewrite <- Hex.
  - intros (ws & ds & Hsub & Hws & Hds & Hlen & Hgt).
    exists (widthDecl ws ds). split; [now apply fixedWidths_finds |].
    rewrite exceeds400_widthDecl; auto.
    + now apply N.ltb_lt.
    + intros ->. cbn in Hlen. lia.
Qed.

(** X1. The fixed-width rule warns exactly when the corpus holds, anywhere
    (also inside [max-width] or [min-width]), the text [width:], blanks,
    three or more digits spelling a number above 400, and [px]; otherwise
    it adds its Pass. *)
Theorem fixed_width_warning_iff (content : jsstring) (st : State) :
  let n := length (largeFixedWidths_of content) in
  let wide := exists ws ds,
      substring (widthDecl ws ds) content
      /\ forallb isSpace ws = true
      /\ forallb isDigit ds = true
      /\ (3 <= length ds)%nat
      /\ (400 < parseInt ds)%N in
  ((0 < n)%nat <-> wide)
  /\ (wide -> emits (checkFixedWidths content) st [] [fixedWarning n] [])
  /\ (~ wide -> emits (checkFixedWidths content) st [] [] [fixedPass]).
Proof.
  cbv zeta.
  pose proof (largeFixedWidths_nonempty_iff content) as Hiff.
  pose proof (checkFixedWidths_emits content st) as He. cbv zeta in He.
  split; [exact Hiff |]. split.
  - intros Hw. apply Hiff, Nat.ltb_lt in Hw. now rewrite Hw in He.
  - intros Hw.
    destruct (0 <? length (largeFixedWidths_of content))%nat eqn:E;
      [| exact He].
    apply Nat.ltb_lt, Hiff in E. contradiction.
Qed.

Lemma fixed_width_warning_iff_witness :
  emits (checkFixedWidths (lit "@media (max-width: 768px) { }")) initial
        [] [fixedWarning
              (length (largeFixedWidths_of
                         (lit "@media (max-width: 768px) { }")))] []
  /\ emits (checkFixedWidths (lit ".hero { width: 50%; }")) initial
           [] [] [fixedPass].
Proof.
  split.
  - apply (proj1 (proj2 (fixed_width_warning_iff
                           (lit "@media (max-width: 768px) { }") initial))).
    exists (lit " "), (lit "768"). split.
    + exists (lit "@media (max-"), (lit ") { }"). reflexivity.
    + repeat split; cbn; lia.
  - apply (proj2 (proj2 (fixed_width_warning_iff
                           (lit ".hero { width: 50%; }") initial))).
    intros Hw.
    apply (proj1 (fixed_width_warning_iff (lit ".hero { width: 50%; }") initial))
      in Hw.
    vm_compute in Hw. lia.
Defined.

(** The shape of what [/prop\s*(\d+)px/] captures. *)
Lemma capture_px_shape (prop : string) (mq d : jsstring) :
  capture_px prop mq = Some d ->
  exists a ws b,
    mq = a ++ lit prop ++ ws ++ d ++ lit "px" ++ b
    /\ forallb isSpace ws = true
    /\ forallb isDigit d = true
    /\ d <> [].
Proof.
  unfold capture_px. intros H.
  apply search_Some in H as (a & t & -> & H).
  apply r_lit_Some in H as (s1 & -> & H).
  apply r_star_Some in H as (ws & y & -> & Hws & H).
  cbv beta in H. unfold r_plus in H.
  apply r_char_Some in H as (c & s2 & -> & Hc & H).
  apply r_star_Some in H as (xs & e & -> & Hxs & H).
  cbv beta in H.
  apply r_lit_Some in H as (b & -> & H). injection H as H.
  assert (E : d = c :: xs)
    by (rewrite <- H; exact (consumed_app (c :: xs) (lit "px" ++ b))).
  clear H. subst d.
  exists a, ws, b. split; [reflexivity |]. split; [assumption |]. split.
  - cbn. now rewrite Hc, Hxs.
  - discriminate.
Qed.

Lemma fold_breakpoints_inv (mqs : list jsstring) :
  forall acc bp,
    In bp (fold_left pushBreakpoints mqs acc) ->
    In bp acc
    \/ exists mq prop d,
         In mq mqs
         /\ (prop = "max-width:"%string \/ prop = "min-width:"%string)
         /\ capture_px prop mq = Some d
         /\ bp = parseInt d.
Proof.
  induction mqs as [|mq mqs IH]; intros acc bp H; cbn [fold_left] in H.
  - now left.
  - apply IH in H as [H | (mq' & prop & d & Hin & Hp & Hc & ->)].
    + unfold pushBreakpoints in H.
      destruct (capture_px "max-width:" mq) as [d1|] eqn:E1;
        destruct (capture_px "min-width:" mq) as [d2|] eqn:E2;
        rewrite ?in_app_iff in H; cbn [In] in H;
        repeat match goal with
               | H : _ \/ _ |- _ => destruct H as [H | H]
               | H : False |- _ => destruct H
               end;
        try (now left);
        right;
        [ exists mq, "max-width:"%string, d1
        | exists mq, "min-width:"%string, d2
        | exists mq, "max-width:"%string, d1
        | exists mq, "min-width:"%string, d2 ];
        (split; [now left | split; [auto | split; [assumption | now symmetry]]]).
    + right. exists mq', prop, d. split; [now right | auto].
Qed.

(** A run of digits spelling at least 100 has three digits or more. *)
Lemma parseInt_three_digits (ds : jsstring) :
  forallb isDigit ds = true -> (100 <= parseInt ds)%N -> (3 <= length ds)%nat.
Proof.
  intros Hds H.
  destruct ds as [|a [|b [|c ds]]]; cbn [length]; try lia; exfalso;
    cbn in Hds; rewrite ?andb_true_iff in Hds.
  - cbn in H. lia.
  - destruct Hds as [Ha _]. unfold parseInt in H. cbn [parseInt_from] in H.
    rewrite Ha in H. unfold isDigit in Ha.
    rewrite andb_true_iff, !N.leb_le in Ha. lia.
  - destruct Hds as [Ha [Hb _]]. unfold parseInt in H.
    cbn [parseInt_from] in H. rewrite Ha, Hb in H. unfold isDigit in Ha, Hb.
    rewrite andb_true_iff, !N.leb_le in Ha, Hb. lia.
Qed.

(** Every media query found is a piece of the corpus. *)
Lemma mediaQueries_substring (content mq : jsstring) :
  In mq (mediaQueries_of content) -> substring mq content.
Proof.
  intros H. apply In_match_all_from in H as (pre & t & rest & -> & Hm & ->).
  apply re_media_shape in Hm as (c & xs & -> & _).
  replace (lit "@media" ++ (c :: xs) ++ 123%N :: rest)
    with ((lit "@media" ++ (c :: xs) ++ [123%N]) ++ rest)
    by (now rewrite <- !app_assoc).
  rewrite consumed_app. exists pre, rest. now rewrite <- !app_assoc.
Qed.

(** Every extracted breakpoint is spelled by a width declaration of the
    corpus: [max-width:] and [min-width:] both end in [width:]. *)
Lemma breakpoint_is_width_decl (content : jsstring) (bp : N) :
  In bp (mqBreakpoints_of content) ->
  exists ws ds,
    substring (widthDecl ws ds) content
    /\ forallb isSpace ws = true
    /\ forallb isDigit ds = true
    /\ ds <> []
    /\ bp = parseInt ds.
Proof.
  unfold mqBreakpoints_of, collect_breakpoints. intros H.
  apply fold_breakpoints_inv in H as [[] | (mq & prop & d & Hin & Hp & Hc & ->)].
  apply mediaQueries_substring in Hin.
  apply capture_px_shape in Hc as (a & ws & b & -> & Hws & Hd & Hne).
  exists ws, d. split; [| auto].
  apply (substring_trans _ (a ++ lit prop ++ ws ++ d ++ lit "px" ++ b));
    [| exact Hin].
  destruct Hp as [-> | ->].
  - exists (a ++ lit "max-"), b. unfold widthDecl. now rewrite <- !app_assoc.
  - exists (a ++ lit "min-"), b. unfold widthDecl. now rewrite <- !app_assoc.
Qed.

(** X2. Every breakpoint above 400 that the analyser extracts is counted
    by its own fixed-width scan.  So a corpus with a tablet breakpoint
    always gets the fixed-width Warning and never the fixed-width Pass:
    the two Passes exclude each other. *)
Theorem tablet_breakpoint_is_a_fixed_width (content : jsstring) (st : State) :
  let n := length (largeFixedWidths_of content) in
  (forall bp, In bp (mqBreakpoints_of content) -> (400 < bp)%N -> (0 < n)%nat)
  /\ (hasTablet_of content = true ->
      (0 < n)%nat
      /\ emits (checkFixedWidths content) st [] [fixedWarning n] []
      /\ In tabletPass (cssPassed content)
      /\ ~ In fixedPass (cssPassed content)).
Proof.
  cbv zeta.
  assert (Hbp : forall bp, In bp (mqBreakpoints_of content) -> (400 < bp)%N ->
                           (0 < length (largeFixedWidths_of content))%nat).
  { intros bp Hin Hgt.
    apply breakpoint_is_width_decl in Hin as (ws & ds & Hsub & Hws & Hds & Hne & ->).
    apply (proj2 (largeFixedWidths_nonempty_iff content)).
    exists ws, ds. repeat (split; [assumption |]). split; [| assumption].
    apply parseInt_three_digits; [assumption | lia]. }
  split; [exact Hbp |].
  intros Ht.
  assert (Hn : (0 < length (largeFixedWidths_of content))%nat).
  { unfold hasTablet_of in Ht. apply existsb_exists in Ht as (bp & Hin & Hr).
    apply andb_true_iff in Hr as [Hlo _]. apply N.leb_le in Hlo.
    apply (Hbp bp Hin). lia. }
  split; [exact Hn |].
  pose proof (checkFixedWidths_emits content st) as He. cbv zeta in He.
  pose proof Hn as Hb. apply Nat.ltb_lt in Hb. rewrite Hb in He.
  split; [exact He |].
  unfold cssPassed. rewrite Ht, Hb. split.
  - cbn. now left.
  - cbn [app]. intros [H | H]; [discriminate H |].
    rewrite !in_app_iff in H.
    repeat match goal with
           | H : _ \/ _ |- _ => destruct H as [H | H]
           | H : In _ (if ?b then _ else _) |- _ => destruct b; cbn in H
           | H : In _ [] |- _ => destruct H
           | H : False |- _ => destruct H
           | H : _ = fixedPass |- _ => discriminate H
           end.
Qed.

Lemma tablet_breakpoint_is_a_fixed_width_witness :
  let content := lit "@media (max-width: 768px) { .hero { padding: 8px; } }" in
  let n := length (largeFixedWidths_of content) in
  (0 < n)%nat
  /\ emits (checkFixedWidths content) initial [] [fixedWarning n] []
  /\ In tabletPass (cssPassed content)
  /\ ~ In fixedPass (cssPassed content).
Proof.
  cbv zeta.
  apply (proj2 (tablet_breakpoint_is_a_fixed_width
                  (lit "@media (max-width: 768px) { .hero { padding: 8px; } }")
                  initial)).
  vm_compute. reflexivity.
Defined.

(** The scan [/prop\s*\d{3,}px/g] finds something exactly when a
    declaration of that shape occurs. *)
Lemma px3_found_iff (prop : string) (content : jsstring) :
  (0 < length (match_all (re_px3 prop) content))%nat
  <-> exists ws ds,
        substring (lit prop ++ ws ++ ds ++ lit "px") content
        /\ forallb isSpace ws = true
        /\ forallb isDigit ds = true
        /\ (3 <= length ds)%nat.
Proof.
  split.
  - intros H.
    destruct (match_all (re_px3 prop) content) as [|w l] eqn:E;
      [cbn in H; lia |].
    assert (Hin : In w (match_all (re_px3 prop) content))
      by (rewrite E; now left).
    apply In_match_all_from in Hin as (pre & t & rest & -> & Hm & _).
    apply re_px3_shape in Hm as (ws & ds & -> & Hws & Hds & Hlen).
    exists ws, ds. split; [| auto].
    exists pre, rest. now rewrite <- !app_assoc.
  - intros (ws & ds & (pre & post & ->) & Hws & Hds & Hlen).
    destruct (match_all (re_px3 prop) _) eqn:E; [| cbn; lia].
    exfalso.
    pose proof (proj1 (match_all_nil_iff _ _) E pre _ eq_refl) as H.
    rewrite <- !app_assoc, re_px3_matches in H by assumption.
    assert (Some post = None); [| discriminate].
    apply H. intros E'. apply (f_equal (@length _)) in E'.
    rewrite !length_app in E'. cbn in E'. lia.
Qed.

(** X3. The padding rule warns exactly when the corpus holds [padding:],
    blanks, three or more digits and [px]: the threshold is the number of
    digits of the first value, so [padding: 100px] is warned about, and a
    shorthand whose first value has fewer digits is not. *)
Theorem padding_warning_iff (content : jsstring) (st : State) :
  let n := length (largePaddings_of content) in
  let large := exists ws ds,
      substring (paddingDecl ws ds) content
      /\ forallb isSpace ws = true
      /\ forallb isDigit ds = true
      /\ (3 <= length ds)%nat in
  ((0 < n)%nat <-> large)
  /\ (large ->
      emits (checkPaddings content) st []
            [(show_nat n ++ " paddings > 100px encontrados")%string] [])
  /\ (~ large -> emits (checkPaddings content) st [] [] []).
Proof.
  cbv zeta. pose proof (px3_found_iff "padding:" content) as Hiff.
  fold (largePaddings_of content) in Hiff.
  pose proof (checkPaddings_emits content st) as He. cbv zeta in He.
  split; [exact Hiff |]. split.
  - intros Hl. apply Hiff, Nat.ltb_lt in Hl. now rewrite Hl in He.
  - intros Hl.
    destruct (0 <? length (largePaddings_of content))%nat eqn:E; [| exact He].
    apply Nat.ltb_lt, Hiff in E. contradiction.
Qed.

Lemma padding_warning_iff_witness :
  emits (checkPaddings (lit ".hero { padding: 100px; }")) initial []
        [(show_nat (length (largePaddings_of (lit ".hero { padding: 100px; }")))
            ++ " paddings > 100px encontrados")%string] []
  /\ emits (checkPaddings (lit ".hero { padding: 20px 120px; }")) initial
           [] [] [].
Proof.
  split.
  - apply (proj1 (proj2 (padding_warning_iff
                           (lit ".hero { padding: 100px; }") initial))).
    exists (lit " "), (lit "100"). split.
    + exists (lit ".hero { "), (lit "; }"). reflexivity.
    + repeat split; cbn; lia.
  - apply (proj2 (proj2 (padding_warning_iff
                           (lit ".hero { padding: 20px 120px; }") initial))).
    intros Hl.
    apply (proj1 (padding_warning_iff
                    (lit ".hero { padding: 20px 120px; }") initial)) in Hl.
    vm_compute in Hl. lia.
Defined.

(* ================================================================= *)
(** ** Further properties: the declaration tests *)

(** [/prop\s*value/.test(content)] holds exactly when the property, blanks
    and the value occur in a row. *)
Lemma test_re_decl_iff (prop value : string) (content : jsstring) :
  test (re_decl prop value) content = true
  <-> exists ws,
        substring (declOf prop value ws) content
        /\ forallb isSpace ws = true.
Proof.
  unfold test, declOf. split.
  - destruct (search (re_decl prop value finish) content) as [r|] eqn:E;
      [| discriminate].
    intros _. apply search_Some in E as (pre & t & -> & H).
    unfold re_decl in H.
    apply r_lit_Some in H as (s1 & -> & H).
    apply r_star_Some in H as (ws & s2 & -> & Hws & H).
    apply r_lit_Some in H as (s3 & -> & _).
    exists ws. split; [| assumption].
    exists pre, s3. now rewrite <- !app_assoc.
  - intros (ws & (pre & post & ->) & Hws).
    assert (H : re_decl prop value finish
                  ((lit prop ++ ws ++ lit value) ++ post) <> None).
    { unfold re_decl. rewrite <- !app_assoc.
      assert (K : r_star isSpace (r_lit (lit value) finish)
                    (ws ++ lit value ++ post) <> None).
      { apply r_star_success; [assumption |].
        assert (r_lit (lit value) finish (lit value ++ post) = Some post)
          by (apply r_lit_Some; now exists post).
        congruence. }
      destruct (r_star isSpace _ (ws ++ lit value ++ post)) as [r|] eqn:E;
        [| congruence].
      assert (r_lit (lit prop) (r_star isSpace (r_lit (lit value) finish))
                (lit prop ++ ws ++ lit value ++ post) = Some r)
        by (apply r_lit_Some; eexists; split; [reflexivity | exact E]).
      congruence. }
    apply (search_success _ _ pre) in H.
    destruct (search _ _); [reflexivity | congruence].
Qed.

(** X4. The four declaration rules.  Overflow control: a Pass when
    [overflow-x:], blanks and [hidden] occur in a row anywhere in the
    corpus, a Warning otherwise.  Layout, font scaling and image scaling:
    a Pass when the declaration occurs ([display:] with [flex] or [grid],
    [font-size:] with [clamp], [max-width:] with [100%]), nothing
    otherwise.  None of them ever adds an Issue. *)
Theorem declaration_rules (content : jsstring) (st : State) :
  let has prop value :=
    exists ws, substring (declOf prop value ws) content
               /\ forallb isSpace ws = true in
  (has "overflow-x:" "hidden" ->
     emits (checkOverflow content) st [] [] ["Controle de overflow horizontal"])
  /\ (~ has "overflow-x:" "hidden" ->
     emits (checkOverflow content) st [] [overflowWarning] [])
  /\ (has "display:" "flex" \/ has "display:" "grid" ->
     emits (checkLayout content) st [] [] ["Usa Flexbox/Grid para layout"])
  /\ (~ (has "display:" "flex" \/ has "display:" "grid") ->
     emits (checkLayout content) st [] [] [])
  /\ (has "font-size:" "clamp" ->
     emits (checkClampFonts content) st [] []
           ["Usa clamp() para fontes responsivas"])
  /\ (~ has "font-size:" "clamp" ->
     emits (checkClampFonts content) st [] [] [])
  /\ (has "max-width:" "100%" ->
     emits (checkImages content) st [] [] ["Imagens com max-width: 100%"])
  /\ (~ has "max-width:" "100%" ->
     emits (checkImages content) st [] [] []).
Proof.
  cbv zeta.
  pose proof (checkOverflow_emits content st) as Ho.
  pose proof (checkLayout_emits content st) as Hl.
  pose proof (checkClampFonts_emits content st) as Hc.
  pose proof (checkImages_emits content st) as Hi.
  assert (T : forall prop value,
             ~ (exists ws, substring (declOf prop value ws) content
                           /\ forallb isSpace ws = true) ->
             test (re_decl prop value) content = false).
  { intros prop value Hn.
    destruct (test (re_decl prop value) content) eqn:E; [| reflexivity].
    apply test_re_decl_iff in E. contradiction. }
  split; [| split; [| split; [| split; [| split; [| split; [| split]]]]]].
  - intros H. apply test_re_decl_iff in H. now rewrite H in Ho.
  - intros H. apply T in H. now rewrite H in Ho.
  - intros [H | H]; apply test_re_decl_iff in H; rewrite H in Hl;
      [| rewrite orb_true_r in Hl]; exact Hl.
  - intros H.
    rewrite (T "display:"%string "flex"%string),
            (T "display:"%string "grid"%string) in Hl; auto.
  - intros H. apply test_re_decl_iff in H. now rewrite H in Hc.
  - intros H. apply T in H. now rewrite H in Hc.
  - intros H. apply test_re_decl_iff in H. now rewrite H in Hi.
  - intros H. apply T in H. now rewrite H in Hi.
Qed.

Lemma declaration_rules_witness :
  emits (checkOverflow (lit "body { overflow-x:hidden; display: inline-flex }"))
        initial [] [] ["Controle de overflow horizontal"]
  /\ emits (checkLayout (lit "body { overflow-x:hidden; display: inline-flex }"))
           initial [] [] [].
Proof.
  split.
  - apply (proj1 (declaration_rules
                    (lit "body { overflow-x:hidden; display: inline-flex }")
                    initial)).
    exists []. split; [| reflexivity].
    exists (lit "body { "), (lit "; display: inline-flex }"). reflexivity.
  - apply (proj1 (proj2 (proj2 (proj2 (declaration_rules
                    (lit "body { overflow-x:hidden; display: inline-flex }")
                    initial))))).
    intros [H | H]; apply test_re_decl_iff in H; vm_compute in H;
      discriminate H.
Defined.

(** X5. A corpus that earns the responsive-images Pass always earns the
    responsive-units Pass too: [100%] is a digit followed by a percent
    sign. *)
Theorem images_pass_implies_units_pass (content : jsstring) (st : State) :
  test (re_decl "max-width:" "100%") content = true ->
  hasResponsiveUnits_of content = true
  /\ emits (checkImages content) st [] [] ["Imagens com max-width: 100%"]
  /\ emits (checkResponsiveUnits content) st [] [] [unitsPass]
  /\ In unitsPass (cssPassed content).
Proof.
  intros H.
  assert (Hu : hasResponsiveUnits_of content = true).
  { apply test_re_decl_iff in H as (ws & (pre & post & ->) & _).
    apply hasResponsiveUnits_iff.
    exists (pre ++ lit "max-width:" ++ ws ++ lit "10"), 48%N, (lit "%"), post.
    split; [| split; [reflexivity | cbn; auto 10]].
    unfold declOf. rewrite <- !app_assoc. reflexivity. }
  split; [exact Hu |].
  pose proof (checkImages_emits content st) as Hi. rewrite H in Hi.
  pose proof (checkResponsiveUnits_emits content st) as Hr. rewrite Hu in Hr.
  split; [exact Hi |]. split; [exact Hr |].
  unfold cssPassed. rewrite Hu, !in_app_iff.
  right. right. right. left. now left.
Qed.

Lemma images_pass_implies_units_pass_witness :
  hasResponsiveUnits_of (lit "img { max-width: 100%; }") = true
  /\ emits (checkImages (lit "img { max-width: 100%; }")) initial [] []
           ["Imagens com max-width: 100%"]
  /\ emits (checkResponsiveUnits (lit "img { max-width: 100%; }")) initial
           [] [] [unitsPass]
  /\ In unitsPass (cssPassed (lit "img { max-width: 100%; }")).
Proof.
  apply (images_pass_implies_units_pass (lit "img { max-width: 100%; }") initial).
  vm_compute. reflexivity.
Defined.

(* ================================================================= *)
(** ** Further properties: the element checker *)

Lemma join_In_after_sep (sep frag : jsstring) (parts : list jsstring) :
  In frag parts ->
  exists x y, sep ++ join sep parts = x ++ sep ++ frag ++ y.
Proof.
  induction parts as [|p ps IH]; intros H; [destruct H |].
  destruct ps as [|q ps].
  - destruct H as [-> | []]. exists [], []. cbn. now rewrite app_nil_r.
  - rewrite join_cons by discriminate. destruct H as [-> | H].
    + now exists [], (sep ++ join sep (q :: ps)).
    + destruct (IH H) as (x & y & E). rewrite E.
      exists (sep ++ p ++ x), y. now rewrite <- !app_assoc.
Qed.

(** A fragment after the first split point stands after a separator. *)
Lemma fragment_after_sep (sep s frag : jsstring) :
  sep <> [] ->
  In frag (tl (split sep s)) ->
  exists pre post, s = pre ++ sep ++ frag ++ post.
Proof.
  intros Hsep H. pose proof (join_split sep s Hsep) as J.
  destruct (split sep s) as [|p0 rest]; [destruct H |]. cbn [tl] in H.
  destruct rest as [|q rest]; [destruct H |].
  rewrite join_cons in J by discriminate.
  destruct (join_In_after_sep sep frag (q :: rest) H) as (x & y & E).
  rewrite E in J. exists (p0 ++ x), y. now rewrite <- J, <- !app_assoc.
Qed.

(** An occurrence of a name that is clear of [@media] lies on one side of
    a token. *)
Lemma occurrence_beside_token (needle cur rest a b : jsstring) :
  clearOfMedia needle = true ->
  cur ++ lit "@media" ++ rest = a ++ needle ++ b ->
  substring needle cur \/ substring needle rest.
Proof.
  intros Hclear H.
  destruct needle as [|n0 needle]; [discriminate Hclear |].
  cbn [clearOfMedia] in Hclear. apply andb_true_iff in Hclear as [Hhead Hat].
  apply app_eq_app in H as [l [[-> H] | [-> H]]].
  - (* the occurrence starts in [cur] *)
    apply app_eq_app in H as [l2 [[E H] | [-> H]]].
    + destruct l2 as [|x l2].
      * rewrite app_nil_r in E. subst l. left. exists a, []. now rewrite app_nil_r.
      * exfalso. cbn in H. injection H as <- _.
        rewrite E, forallb_app in Hat. apply andb_true_iff in Hat as [_ Hat].
        cbn in Hat. discriminate Hat.
    + left. exists a, l2. now rewrite <- ?app_assoc.
  - (* the occurrence starts at or after the token *)
    apply app_eq_app in H as [l2 [[E H] | [-> H]]].
    + destruct l2 as [|x l2].
      * right. exists [], b. cbn in H. now rewrite <- H.
      * exfalso. cbn [app] in H. injection H as <- _.
        assert (Hx : In n0 (lit "@media")) by (rewrite E; apply in_elt).
        cbn in Hx.
        repeat (destruct Hx as [<- | Hx];
                [first [discriminate Hat | discriminate Hhead] |]).
        destruct Hx.
    + right. exists l2, b. exact H.
Qed.

(** After a token, every occurrence of such a name falls in one of the
    fragments still to come. *)
Lemma split_from_covers (needle : jsstring) :
  clearOfMedia needle = true ->
  forall s skip cur,
    substring needle (cur ++ skipn skip s) ->
    exists frag,
      In frag (split_from (lit "@media") skip cur s) /\ substring needle frag.
Proof.
  intros Hclear. induction s as [|c s IH]; intros skip cur H.
  - rewrite skipn_nil, app_nil_r in H. exists cur. split; [now left | exact H].
  - cbn [split_from]. destruct skip as [|n]; [| now apply IH].
    cbn [skipn] in H.
    destruct (startsWith (lit "@media") (c :: s)) eqn:E.
    + apply startsWith_iff in E as (rest & E).
      destruct H as (a & b & H). rewrite E in H.
      apply occurrence_beside_token in H as [H | H]; [| | assumption].
      * exists cur. split; [now left | exact H].
      * cbn in E. injection E as -> ->.
        destruct (IH 5%nat [] H) as (frag & Hin & Hs).
        exists frag. split; [now right | exact Hs].
    + apply (IH 0%nat (cur ++ [c])). cbn [skipn]. now rewrite <- app_assoc.
Qed.

(** Before the first token, the scan reaches it. *)
Lemma split_from_reaches (needle : jsstring) :
  clearOfMedia needle = true ->
  forall s cur pre post,
    s = pre ++ lit "@media" ++ post ->
    substring needle post ->
    exists frag,
      In frag (tl (split_from (lit "@media") 0 cur s))
      /\ substring needle frag.
Proof.
  intros Hclear. induction s as [|c s IH]; intros cur pre post E H.
  - destruct pre; discriminate E.
  - cbn [split_from].
    destruct (startsWith (lit "@media") (c :: s)) eqn:Es.
    + cbn [tl]. apply (split_from_covers needle Hclear s 5%nat []).
      cbn [app].
      apply startsWith_iff in Es as (rest & Es).
      assert (Hr : rest = skipn 6 (pre ++ lit "@media") ++ post).
      { assert (K : skipn 6 (c :: s) = rest) by (rewrite Es; reflexivity).
        rewrite <- K, E, app_assoc, skipn_app.
        replace (6 - length (pre ++ lit "@media"))%nat with 0%nat
          by (rewrite length_app; change (length (lit "@media")) with 6%nat;
              lia).
        reflexivity. }
      cbn in Es. injection Es as -> ->. cbn [skipn]. rewrite Hr.
      destruct H as (a & b & ->).
      exists (skipn 6 (pre ++ lit "@media") ++ a), b.
      now rewrite <- !app_assoc.
    + destruct pre as [|x pre].
      * exfalso. cbn [app] in E.
        assert (startsWith (lit "@media") (c :: s) = true)
          by (apply startsWith_iff; now exists post).
        congruence.
      * cbn in E. injection E as -> ->.
        now apply (IH (cur ++ [x]) pre post).
Qed.

Lemma catalogue_clear_of_media (el : Element) :
  In el criticalElements -> clearOfMedia (bareName (selector el)) = true.
Proof.
  intros H.
  assert (A : forallb (fun e => clearOfMedia (bareName (selector e)))
                criticalElements = true) by (vm_compute; reflexivity).
  rewrite forallb_forall in A. now apply A.
Qed.

Lemma namedAfterMedia_iff (content : jsstring) (el : Element) :
  In el criticalElements ->
  (hasResponsive content el = true <-> namedAfterMedia content el).
Proof.
  intros He. rewrite hasResponsive_iff.
  unfold overriddenInMedia, namedAfterMedia. split.
  - intros (frag & Hin & Hs).
    apply fragment_after_sep in Hin as (pre & post & ->); [| discriminate].
    exists pre, (frag ++ post). split; [reflexivity |].
    destruct Hs as (a & b & ->). exists a, (b ++ post).
    now rewrite <- !app_assoc.
  - intros (pre & post & E & Hs).
    exact (split_from_reaches _ (catalogue_clear_of_media el He)
             content [] pre post E Hs).
Qed.

(** The names of the catalogue tell its entries apart. *)
Lemma catalogue_names_distinct (e e' : Element) :
  In e criticalElements -> In e' criticalElements ->
  name e = name e' -> e = e'.
Proof.
  intros H H'. cbn in H, H'.
  repeat (destruct H as [<- | H]);
    try (destruct H);
    repeat (destruct H' as [<- | H']);
    try (destruct H');
    cbn [name]; intros E; first [reflexivity | discriminate E].
Qed.

Lemma string_length_append (a b : string) :
  String.length (a ++ b) = (String.length a + String.length b)%nat.
Proof. induction a as [|c a IH]; cbn; [reflexivity | now rewrite IH]. Qed.

Lemma append_inj_l (a b suffix : string) :
  (a ++ suffix)%string = (b ++ suffix)%string -> a = b.
Proof.
  intros E.
  assert (L : String.length a = String.length b).
  { apply (f_equal String.length) in E.
    rewrite !string_length_append in E. lia. }
  revert b E L. induction a as [|c a IH]; intros [|d b] E L;
    try discriminate L; [reflexivity |].
  cbn in E. injection E as -> E. f_equal. apply IH; [exact E |].
  cbn in L. lia.
Qed.

Lemma elementPasses_In (content : jsstring) (el : Element) :
  In el criticalElements ->
  (In (responsiveMsg el) (elementPasses content)
   <-> isResponsive content el = true).
Proof.
  intros He. unfold elementPasses. rewrite in_map_iff. split.
  - intros (e & E & Hin). apply filter_In in Hin as [Hin Hr].
    unfold responsiveMsg in E. apply append_inj_l in E.
    now rewrite <- (catalogue_names_distinct e el Hin He E).
  - intros H. exists el. split; [reflexivity |].
    apply filter_In. now split.
Qed.

Lemma elementWarnings_In (content : jsstring) (el : Element) :
  In el criticalElements ->
  (In (reviewMsg el) (elementWarnings content)
   <-> needsReview content el = true).
Proof.
  intros He. unfold elementWarnings. rewrite in_map_iff. split.
  - intros (e & E & Hin). apply filter_In in Hin as [Hin Hr].
    unfold reviewMsg in E. apply append_inj_l in E.
    now rewrite <- (catalogue_names_distinct e el Hin He E).
  - intros H. exists el. split; [reflexivity |].
    apply filter_In. now split.
Qed.

(** X6. For a selector of the catalogue that has a declaration block in
    the corpus, the element checker adds the responsive Pass exactly when
    the selector's bare name occurs somewhere after an [@media] token, in
    any rule whatever and also inside a longer name, and the review
    Warning otherwise.  A selector without a declaration block gets no
    verdict, wherever its name occurs.  So when [.partnership-container]
    is passed as responsive, [.container] is passed too as soon as it has
    a declaration block of its own, and gets no verdict when it has
    none. *)
Theorem responsive_means_named_after_media
    (content : jsstring) (el : Element) (st : State) :
  In el criticalElements ->
  (declaresBlock content el -> namedAfterMedia content el ->
   emits (analyzeElement content el) st [] [] [responsiveMsg el])
  /\ (declaresBlock content el -> ~ namedAfterMedia content el ->
      emits (analyzeElement content el) st [] [reviewMsg el] [])
  /\ (~ declaresBlock content el ->
      emits (analyzeElement content el) st [] [] [])
  /\ emits (analyzeElements content) st []
           (elementWarnings content) (elementPasses content)
  /\ (In (responsiveMsg el) (elementPasses content)
      <-> declaresBlock content el /\ namedAfterMedia content el)
  /\ (In (reviewMsg el) (elementWarnings content)
      <-> declaresBlock content el /\ ~ namedAfterMedia content el)
  /\ (In (responsiveMsg partnership) (elementPasses content) ->
      (declaresBlock content container
       <-> In (responsiveMsg container) (elementPasses content))
      /\ ~ In (reviewMsg container) (elementWarnings content)).
Proof.
  intros Hel.
  pose proof (analyzeElement_Emits content el st) as He.
  unfold needsReview, isResponsive in He.
  pose proof (namedAfterMedia_iff content el Hel) as Hn.
  assert (Hpass : forall e, In e criticalElements ->
            (In (responsiveMsg e) (elementPasses content)
             <-> declaresBlock content e /\ namedAfterMedia content e)).
  { intros e Hin. rewrite (elementPasses_In content e Hin).
    unfold isResponsive.
    now rewrite andb_true_iff, hasBlock_iff,
      (namedAfterMedia_iff content e Hin). }
  assert (Hwarn : forall e, In e criticalElements ->
            (In (reviewMsg e) (elementWarnings content)
             <-> declaresBlock content e /\ ~ namedAfterMedia content e)).
  { intros e Hin. rewrite (elementWarnings_In content e Hin).
    unfold needsReview.
    rewrite andb_true_iff, negb_true_iff, hasBlock_iff,
      <- (namedAfterMedia_iff content e Hin).
    split; intros [H1 H2]; (split; [exact H1 |]).
    - congruence.
    - now destruct (hasResponsive content e). }
  split; [| split; [| split; [| split; [| split; [| split]]]]].
  - intros Hd Ho. apply hasBlock_iff in Hd. apply Hn in Ho.
    now rewrite Hd, Ho in He.
  - intros Hd Ho. apply hasBlock_iff in Hd.
    destruct (hasResponsive content el) eqn:E.
    + apply (namedAfterMedia_iff content el Hel) in E. contradiction.
    + now rewrite Hd in He.
  - intros Hd. destruct (hasBlock content el) eqn:E; [| exact He].
    apply hasBlock_iff in E. contradiction.
  - apply analyzeElements_Emits.
  - exact (Hpass el Hel).
  - exact (Hwarn el Hel).
  - intros H.
    assert (Hp : In partnership criticalElements) by (cbn; auto 20).
    assert (Hc : In container criticalElements) by (cbn; auto 20).
    apply (Hpass partnership Hp) in H as [_ (pre & post & E & Hs)].
    assert (Hnamed : namedAfterMedia content container).
    { exists pre, post. split; [exact E |].
      apply (substring_trans _ (bareName ".partnership-container"));
        [| exact Hs].
      exists (lit "partnership-"), []. reflexivity. }
    split.
    + rewrite (Hpass container Hc). tauto.
    + rewrite (Hwarn container Hc). tauto.
Qed.

Lemma responsive_means_named_after_media_witness :
  emits (analyzeElement partnershipOnly partnership) initial
        [] [] ["Seção parceria: tem estilos responsivos"]
  /\ emits (analyzeElement partnershipOnly container) initial [] [] []
  /\ emits (analyzeElement (lit ".hero { color: red; }")
                           (mkElement ".hero" "Seção Hero")) initial
           [] ["Seção Hero: pode precisar de ajustes mobile"] [].
Proof.
  split; [| split].
  - apply (proj1 (responsive_means_named_after_media
                    partnershipOnly partnership initial
                    ltac:(cbn; auto 20))).
    + exists [], (lit " "), (lit " "),
        (lit " @media (max-width: 480px) { .partnership-container { } }").
      split; [reflexivity | split; reflexivity].
    + exists (lit ".partnership-container { } "),
        (lit " (max-width: 480px) { .partnership-container { } }").
      split; [reflexivity |].
      exists (lit " (max-width: 480px) { ."), (lit " { } }"). reflexivity.
  - apply (proj1 (proj2 (proj2 (responsive_means_named_after_media
                    partnershipOnly container initial
                    ltac:(cbn; auto 20))))).
    intros H. apply hasBlock_iff in H. vm_compute in H. discriminate H.
  - apply (proj1 (proj2 (responsive_means_named_after_media
                    (lit ".hero { color: red; }")
                    (mkElement ".hero" "Seção Hero") initial
                    ltac:(cbn; auto 20)))).
    + exists [], (lit " "), (lit " color: red; "), [].
      split; [reflexivity | split; reflexivity].
    + intros (pre & post & E & _).
      assert (H : includes (lit "@media") (lit ".hero { color: red; }") = false)
        by (vm_compute; reflexivity).
      apply not_true_iff_false in H. apply H.
      apply includes_iff. exists pre, post. exact E.
Defined.

(* ================================================================= *)
(** ** Further properties: how many Findings an analysis adds *)

Lemma length_if_singleton {A} (b : bool) (x : A) :
  length (if b then [x] else []) = (if b then 1 else 0)%nat.
Proof. now destruct b. Qed.

Lemma length_if_singleton_neg {A} (b : bool) (x : A) :
  length (if b then [] else [x]) = (if b then 0 else 1)%nat.
Proof. now destruct b. Qed.

Lemma css_counts (content : jsstring) :
  (length (cssIssues content) <= 1)%nat
  /\ (length (cssWarnings content) <= 4)%nat
  /\ (length (cssPassed content) <= 8)%nat
  /\ (4 <= length (cssIssues content) + length (cssWarnings content)
           + length (cssPassed content) <= 9)%nat.
Proof.
  unfold cssIssues, cssWarnings, cssPassed. cbv zeta.
  rewrite !length_app, !length_if_singleton, !length_if_singleton_neg.
  destruct (hasMobile_of content), (hasTablet_of content),
    (0 <? length (largeFixedWidths_of content))%nat,
    (test (re_decl "overflow-x:" "hidden") content);
    destruct (0 <? length (largePaddings_of content))%nat,
      (hasResponsiveUnits_of content),
      (test (re_decl "display:" "flex") content
       || test (re_decl "display:" "grid") content),
      (test (re_decl "font-size:" "clamp") content),
      (test (re_decl "max-width:" "100%") content); cbn; lia.
Qed.

Lemma filter_disjoint_length {A} (f g : A -> bool) (l : list A) :
  (forall x, f x = true -> g x = false) ->
  (length (filter f l) + length (filter g l) <= length l)%nat.
Proof.
  intros H. induction l as [|x l IH]; cbn; [lia |].
  destruct (f x) eqn:E.
  - rewrite (H x E). cbn. lia.
  - destruct (g x); cbn; lia.
Qed.

Lemma element_counts (css : jsstring) :
  (length (elementWarnings css) + length (elementPasses css) <= 10)%nat.
Proof.
  unfold elementWarnings, elementPasses. rewrite !length_map.
  change 10%nat with (length criticalElements).
  apply filter_disjoint_length.
  intros el. unfold needsReview, isResponsive.
  destruct (hasBlock css el), (hasResponsive css el); cbn; congruence.
Qed.

(** X7. Whatever the corpus, [analyzeCSS] adds between four and nine
    Findings: exactly one each for the tablet, mobile, fixed-width and
    overflow rules, and at most one for each of the other five; at most
    one of them is an Issue, at most four are Warnings and at most eight
    are Passes.  The analysis it returns reports the same mobile verdict
    as the Issue it added. *)
Theorem analyzeCSS_finding_counts
    (content : jsstring) (filename : string) (st : State) :
  let st' := snd (analyzeCSS content filename st) in
  emits (analyzeCSS content filename) st
        (cssIssues content) (cssWarnings content) (cssPassed content)
  /\ (length (issues st') <= length (issues st) + 1)%nat
  /\ (length (warnings st') <= length (warnings st) + 4)%nat
  /\ (length (passed st') <= length (passed st) + 8)%nat
  /\ (4 <= length (cssIssues content) + length (cssWarnings content)
           + length (cssPassed content) <= 9)%nat
  /\ (hasMobile (fst (analyzeCSS content filename st)) = false
      <-> cssIssues content = [mobileIssue]).
Proof.
  cbv zeta. pose proof (analyzeCSS_Emits content filename st) as He.
  destruct (css_counts content) as (Ci & Cw & Cp & Ct).
  split; [exact He |]. destruct He as (Hi & Hw & Hp).
  rewrite Hi, Hw, Hp, !length_app.
  split; [lia |]. split; [lia |]. split; [lia |]. split; [exact Ct |].
  rewrite analyzeCSS_result. cbn [hasMobile]. unfold cssIssues.
  destruct (hasMobile_of content); split; congruence.
Qed.

Lemma Emits_generateSuggestions (analysis : Analysis) :
  Emits (generateSuggestions analysis) [] [] [].
Proof. intros st. unfold generateSuggestions. run_monad. Qed.

(** What the processing of one file adds. *)
Lemma processFile_Emits (fs : FileSystem) (file : string) :
  Emits (processFile fs file)
        (fileIssues fs file) (fileWarnings fs file) (filePassed fs file).
Proof.
  unfold processFile, fileIssues, fileWarnings, filePassed, analysed, corpus.
  destruct (fs file) as [content|]; [| apply Emits_log].
  destruct (match_all re_style content) as [|b bs] eqn:E; [apply Emits_ret |].
  eapply Emits_eq.
  - eapply Emits_bind; [apply analyzeCSS_Emits | intros analysis].
    eapply Emits_bind; [apply analyzeElements_Emits | intros _].
    eapply Emits_bind; [apply Emits_generateSuggestions | intros _].
    apply Emits_ret.
  - now rewrite !app_nil_r.
  - now rewrite !app_nil_r.
  - now rewrite !app_nil_r.
Qed.

Lemma main_Emits (fs : FileSystem) :
  Emits (main fs)
        (fileIssues fs "index.html" ++ fileIssues fs "confirmacao.html")
        (fileWarnings fs "index.html" ++ fileWarnings fs "confirmacao.html")
        (filePassed fs "index.html" ++ filePassed fs "confirmacao.html").
Proof.
  unfold main, files. cbn [forEach].
  eapply Emits_eq.
  - eapply Emits_bind.
    + eapply Emits_bind; [apply processFile_Emits | intros _].
      eapply Emits_bind; [apply processFile_Emits | intros _].
      apply Emits_ret.
    + intros _. eapply Emits_bind; [intros st; unfold printChecklist; run_monad |].
      intros _. eapply Emits_bind; [intros st; unfold printReport; run_monad |].
      intros report. apply Emits_ret.
  - now rewrite !app_nil_r.
  - now rewrite !app_nil_r.
  - now rewrite !app_nil_r.
Qed.

Lemma file_counts (fs : FileSystem) (file : string) :
  (length (fileIssues fs file) <= 1)%nat
  /\ (length (fileIssues fs file) + length (fileWarnings fs file)
      + length (filePassed fs file) <= 19)%nat
  /\ (analysed fs file <> None ->
      4 <= length (fileIssues fs file) + length (fileWarnings fs file)
           + length (filePassed fs file))%nat
  /\ (analysed fs file = None ->
      fileIssues fs file = [] /\ fileWarnings fs file = []
      /\ filePassed fs file = []).
Proof.
  unfold fileIssues, fileWarnings, filePassed.
  destruct (analysed fs file) as [css|].
  - destruct (css_counts css) as (Ci & _ & _ & Ct).
    pose proof (element_counts css) as Ce.
    rewrite !length_app.
    split; [exact Ci |]. split; [lia |]. split; [intros _; lia |].
    discriminate.
  - cbn. split; [lia |]. split; [lia |]. split; [congruence | auto].
Qed.

(* ================================================================= *)
(** ** Further properties: a whole run *)

Lemma run_lists (fs : FileSystem) :
  let final := snd (run fs) in
  issues final = fileIssues fs "index.html" ++ fileIssues fs "confirmacao.html"
  /\ warnings final
     = fileWarnings fs "index.html" ++ fileWarnings fs "confirmacao.html"
  /\ passed final
     = filePassed fs "index.html" ++ filePassed fs "confirmacao.html".
Proof. cbv zeta. unfold run. exact (main_Emits fs initial). Qed.

Lemma run_report (fs : FileSystem) :
  let report := fst (fst (run fs)) in
  let final := snd (run fs) in
  r_issues report = issues final
  /\ r_warnings report = warnings final
  /\ r_passed report = passed final
  /\ score report
     = computeScore (length (passed final)) (length (warnings final))
                    (length (issues final))
  /\ snd (fst (run fs))
     = (if (0 <? length (issues final))%nat then 1 else 0)%nat.
Proof.
  cbv zeta. unfold run. rewrite main_unfold. cbv zeta. cbn [fst snd].
  unfold printReport. cbn [fst r_issues r_warnings r_passed score]. auto.
Qed.

Lemma run_counts (fs : FileSystem) :
  let final := snd (run fs) in
  let total := (length (issues final) + length (warnings final)
                + length (passed final))%nat in
  (length (issues final) <= 2)%nat
  /\ (total <= 38)%nat
  /\ (analysed fs "index.html" <> None \/ analysed fs "confirmacao.html" <> None ->
      (4 <= total)%nat)
  /\ (analysed fs "index.html" = None -> analysed fs "confirmacao.html" = None ->
      issues final = [] /\ warnings final = [] /\ passed final = []).
Proof.
  cbv zeta. destruct (run_lists fs) as (Hi & Hw & Hp). rewrite Hi, Hw, Hp.
  destruct (file_counts fs "index.html") as (A1 & A2 & A3 & A4).
  destruct (file_counts fs "confirmacao.html") as (B1 & B2 & B3 & B4).
  rewrite !length_app.
  split; [lia |]. split; [lia |]. split.
  - intros [H | H]; [specialize (A3 H) | specialize (B3 H)]; lia.
  - intros H1 H2. destruct (A4 H1) as (-> & -> & ->).
    destruct (B4 H2) as (-> & -> & ->). auto.
Qed.

(** X8. A run from the freshly loaded script ends with the Findings of
    [index.html] followed by those of [confirmacao.html]: at most 38 in
    all, at most 2 of them Issues.  The exit status is 1 exactly when one
    of the two files is analysed and its corpus yields no breakpoint of at
    most 500. *)
Theorem run_findings_and_exit_status (fs : FileSystem) :
  let final := snd (run fs) in
  issues final = fileIssues fs "index.html" ++ fileIssues fs "confirmacao.html"
  /\ warnings final
     = fileWarnings fs "index.html" ++ fileWarnings fs "confirmacao.html"
  /\ passed final
     = filePassed fs "index.html" ++ filePassed fs "confirmacao.html"
  /\ (length (issues final) <= 2)%nat
  /\ (length (issues final) + length (warnings final)
      + length (passed final) <= 38)%nat
  /\ (snd (fst (run fs)) = 1%nat
      <-> exists file css,
            In file files
            /\ analysed fs file = Some css
            /\ hasMobile_of css = false).
Proof.
  cbv zeta. destruct (run_lists fs) as (Hi & Hw & Hp).
  destruct (run_counts fs) as (C1 & C2 & _).
  destruct (run_report fs) as (_ & _ & _ & _ & Hc).
  do 3 (split; [assumption |]). do 2 (split; [assumption |]).
  rewrite Hc, Hi. unfold fileIssues, cssIssues, files. split.
  - intros H.
    destruct (analysed fs "index.html") as [c1|] eqn:E1.
    + destruct (hasMobile_of c1) eqn:M1.
      * destruct (analysed fs "confirmacao.html") as [c2|] eqn:E2;
          [| discriminate H].
        destruct (hasMobile_of c2) eqn:M2; [discriminate H |].
        exists "confirmacao.html"%string, c2. cbn. auto.
      * exists "index.html"%string, c1. cbn. auto.
    + destruct (analysed fs "confirmacao.html") as [c2|] eqn:E2;
        [| discriminate H].
      destruct (hasMobile_of c2) eqn:M2; [discriminate H |].
      exists "confirmacao.html"%string, c2. cbn. auto.
  - intros (file & css & Hin & Ha & Hm).
    destruct Hin as [<- | [<- | []]]; rewrite Ha, Hm.
    + reflexivity.
    + destruct (analysed fs "index.html") as [c1|]; [| reflexivity].
      now destruct (hasMobile_of c1).
Qed.

Lemma scores_exact_up_to_38 : scoresExactUpTo 38 = true.
Proof. vm_compute. reflexivity. Qed.

Lemma scoresExactUpTo_spec (bound : nat) :
  scoresExactUpTo bound = true ->
  forall p w i, (0 < p + w + i <= bound)%nat -> scoreIsExact p w i = true.
Proof.
  unfold scoresExactUpTo. intros K p w i H.
  rewrite forallb_forall in K.
  assert (Hp : In p (seq 0 (S bound))) by (apply in_seq; lia).
  specialize (K p Hp). rewrite forallb_forall in K.
  assert (Hw : In w (seq 0 (S bound))) by (apply in_seq; lia).
  specialize (K w Hw). rewrite forallb_forall in K.
  assert (Hi : In i (seq 0 (S bound))) by (apply in_seq; lia).
  specialize (K i Hi).
  assert (E : ((0 <? p + w + i) && (p + w + i <=? bound))%nat = true).
  { apply andb_true_iff. split; [apply Nat.ltb_lt | apply Nat.leb_le]; lia. }
  rewrite E in K. exact K.
Qed.

Lemma scoreIsExact_small (p w i : nat) :
  (0 < p + w + i <= 38)%nat -> scoreIsExact p w i = true.
Proof. exact (scoresExactUpTo_spec 38 scores_exact_up_to_38 p w i). Qed.

(** X9. For every total a run can reach (1 to 38 Findings) the score is
    the exact percentage of Passes, rounded to the nearest integer with a
    half upwards: it is a number, and the banner is the one the exact
    percentage calls for.  So is the score of every run in which a file
    is analysed.  (Beyond that range binary64 rounding can show: 29
    Passes out of 200 Findings score 14, not 15.) *)
Theorem score_is_exact_percentage (fs : FileSystem) :
  (forall p w i,
     (0 < p + w + i <= 38)%nat ->
     (computeScore p w i =? of_length (exactPercent p (p + w + i)))%float = true
     /\ PrimFloat.is_nan (computeScore p w i) = false
     /\ statusMsg (computeScore p w i) = tierOf (exactPercent p (p + w + i)))
  /\ (analysed fs "index.html" <> None \/ analysed fs "confirmacao.html" <> None ->
      let report := fst (fst (run fs)) in
      let p := length (r_passed report) in
      let t := (p + length (r_warnings report) + length (r_issues report))%nat in
      (score report =? of_length (exactPercent p t))%float = true
      /\ statusMsg (score report) = tierOf (exactPercent p t))
  /\ scoreIsExact 29 171 0 = false.
Proof.
  assert (A : forall p w i,
     (0 < p + w + i <= 38)%nat ->
     (computeScore p w i =? of_length (exactPercent p (p + w + i)))%float = true
     /\ PrimFloat.is_nan (computeScore p w i) = false
     /\ statusMsg (computeScore p w i) = tierOf (exactPercent p (p + w + i))).
  { intros p w i H. pose proof (scoreIsExact_small p w i H) as K.
    unfold scoreIsExact in K. cbv zeta in K.
    apply andb_true_iff in K as [K K3]. apply andb_true_iff in K as [K1 K2].
    apply negb_true_iff in K2. apply String.eqb_eq in K3. auto. }
  split; [exact A |]. split; [| vm_compute; reflexivity].
  intros Ha. cbv zeta.
  destruct (run_report fs) as (Ri & Rw & Rp & Rs & _).
  destruct (run_counts fs) as (_ & C2 & C3 & _). specialize (C3 Ha).
  rewrite Ri, Rw, Rp, Rs.
  destruct (A (length (passed (snd (run fs))))
              (length (warnings (snd (run fs))))
              (length (issues (snd (run fs))))) as (A1 & _ & A3); [lia |].
  auto.
Qed.

Lemma score_is_exact_percentage_witness :
  ((computeScore 2 3 0 =? of_length (exactPercent 2 (2 + 3 + 0)))%float = true
   /\ PrimFloat.is_nan (computeScore 2 3 0) = false
   /\ statusMsg (computeScore 2 3 0) = tierOf (exactPercent 2 (2 + 3 + 0)))
  /\ (let report := fst (fst (run onlyIndex)) in
      let p := length (r_passed report) in
      let t := (p + length (r_warnings report) + length (r_issues report))%nat in
      (score report =? of_length (exactPercent p t))%float = true
      /\ statusMsg (score report) = tierOf (exactPercent p t)).
Proof.
  split.
  - apply (proj1 (score_is_exact_percentage onlyIndex) 2%nat 3%nat 0%nat).
    cbn. lia.
  - apply (proj1 (proj2 (score_is_exact_percentage onlyIndex))).
    left. vm_compute. discriminate.
Defined.

Lemma analysed_None_iff (fs : FileSystem) (file : string) :
  analysed fs file = None
  <-> fs file = None
      \/ exists content, fs file = Some content /\ ~ hasStyleBlock content.
Proof.
  unfold analysed. destruct (fs file) as [content|].
  - destruct (match_all re_style content) as [|b bs] eqn:E.
    + split; [intros _ | reflexivity]. right. exists content.
      split; [reflexivity |]. intros H. apply styleMatch_iff in H. congruence.
    + split; [discriminate |].
      intros [H | (c & H & Hn)]; [discriminate H |].
      injection H as <-. exfalso. apply Hn, styleMatch_iff. congruence.
  - split; [now left | reflexivity].
Qed.

(** X10. The score of a run is NaN exactly when neither file is analysed,
    that is, when each of the two files is missing or holds no style
    block; as soon as one file is analysed there are at least four
    Findings and the score is a number. *)
Theorem score_is_nan_iff_nothing_analysed (fs : FileSystem) :
  let report := fst (fst (run fs)) in
  let skipped file :=
    fs file = None
    \/ exists content, fs file = Some content /\ ~ hasStyleBlock content in
  (PrimFloat.is_nan (score report) = true
   <-> skipped "index.html"%string /\ skipped "confirmacao.html"%string)
  /\ (PrimFloat.is_nan (score report) = false
      <-> (4 <= length (r_issues report) + length (r_warnings report)
                + length (r_passed report))%nat).
Proof.
  cbv zeta.
  destruct (run_report fs) as (Ri & Rw & Rp & Rs & _).
  destruct (run_counts fs) as (_ & C2 & C3 & C4).
  rewrite Ri, Rw, Rp, Rs, <- !analysed_None_iff.
  destruct (analysed fs "index.html") as [c1|] eqn:E1;
    [| destruct (analysed fs "confirmacao.html") as [c2|] eqn:E2].
  - assert (H4 : (4 <= length (issues (snd (run fs)))
                       + length (warnings (snd (run fs)))
                       + length (passed (snd (run fs))))%nat)
      by (apply C3; left; discriminate).
    pose proof (scoreIsExact_small
                  (length (passed (snd (run fs))))
                  (length (warnings (snd (run fs))))
                  (length (issues (snd (run fs)))) ltac:(lia)) as K.
    unfold scoreIsExact in K. cbv zeta in K.
    apply andb_true_iff in K as [K _]. apply andb_true_iff in K as [_ K].
    apply negb_true_iff in K. rewrite K. split; split; try congruence; auto.
    intros [H _]. discriminate H.
  - assert (H4 : (4 <= length (issues (snd (run fs)))
                       + length (warnings (snd (run fs)))
                       + length (passed (snd (run fs))))%nat)
      by (apply C3; right; discriminate).
    pose proof (scoreIsExact_small
                  (length (passed (snd (run fs))))
                  (length (warnings (snd (run fs))))
                  (length (issues (snd (run fs)))) ltac:(lia)) as K.
    unfold scoreIsExact in K. cbv zeta in K.
    apply andb_true_iff in K as [K _]. apply andb_true_iff in K as [_ K].
    apply negb_true_iff in K. rewrite K. split; split; try congruence; auto.
    intros [_ H]. discriminate H.
  - destruct (C4 eq_refl eq_refl) as (-> & -> & ->). cbn [length].
    split; split; auto.
    + intros H. vm_compute in H. discriminate H.
    + intros H. cbn in H. lia.
Qed.

(* ================================================================= *)
(** ** Further properties: the corpus and its media queries *)

(** The shape of a block the extraction returns. *)
Lemma style_block_shape (content blk : jsstring) :
  In blk (match_all re_style content) ->
  exists open attrs gt body close,
    blk = open ++ attrs ++ gt ++ body ++ close
    /\ sameUpToCase open (lit "<style")
    /\ forallb (notChar ">") attrs = true
    /\ sameUpToCase gt (lit ">")
    /\ sameUpToCase close (lit "</style>")
    /\ substring blk content.
Proof.
  intros H. apply In_match_all_from in H as (pre & t & rest & -> & Hm & ->).
  unfold re_style in Hm.
  apply r_lit_ci_Some in Hm as (open & s1 & -> & Hopen & Hm).
  apply r_star_Some in Hm as (attrs & s2 & -> & Hattrs & Hm).
  apply r_lit_ci_Some in Hm as (gt & s3 & -> & Hgt & Hm).
  apply r_lazy_Some in Hm as (body & s4 & -> & _ & Hm).
  apply r_lit_ci_Some in Hm as (close & s5 & -> & Hclose & Hm).
  injection Hm as ->.
  replace (open ++ attrs ++ gt ++ body ++ close ++ rest)
    with ((open ++ attrs ++ gt ++ body ++ close) ++ rest)
    by (now rewrite <- !app_assoc).
  rewrite consumed_app.
  exists open, attrs, gt, body, close. do 5 (split; [auto |]).
  exists pre, rest. now rewrite <- !app_assoc.
Qed.

(** X11. When a file is analysed, the corpus handed to the rules is made
    of the whole style blocks, tags included, joined by line feeds: it
    starts with an opening [<style] tag (in any case) and is never empty,
    so [main] never runs the rules on the empty corpus.  The Findings of
    the file are those of the rule set on that corpus followed by those of
    the element checker. *)
Theorem analysed_corpus_keeps_tags
    (fs : FileSystem) (file : string) (css : jsstring) (st : State) :
  analysed fs file = Some css ->
  (exists content,
      fs file = Some content /\ hasStyleBlock content /\ css = corpus content)
  /\ css <> []
  /\ (exists open rest, css = open ++ rest /\ sameUpToCase open (lit "<style"))
  /\ emits (processFile fs file) st
       (cssIssues css)
       (cssWarnings css ++ elementWarnings css)
       (cssPassed css ++ elementPasses css).
Proof.
  intros Ha.
  pose proof (processFile_Emits fs file st) as He.
  unfold fileIssues, fileWarnings, filePassed in He. rewrite Ha in He.
  unfold analysed in Ha.
  destruct (fs file) as [content|]; [| discriminate Ha].
  destruct (match_all re_style content) as [|b bs] eqn:E; [discriminate Ha |].
  injection Ha as <-.
  assert (Hb : In b (match_all re_style content)) by (rewrite E; now left).
  apply style_block_shape in Hb
    as (open & attrs & gt & body & close & -> & Hopen & _).
  assert (Hs : exists rest, corpus content = open ++ rest).
  { unfold corpus. rewrite E. destruct bs as [|b' bs].
    - cbn [join]. eexists. reflexivity.
    - rewrite join_cons by discriminate.
      exists (attrs ++ gt ++ body ++ close ++ newline ++ join newline (b' :: bs)).
      now rewrite <- !app_assoc. }
  destruct Hs as (rest & Hs).
  split.
  { exists content. split; [reflexivity |]. split; [| reflexivity].
    apply styleMatch_iff. congruence. }
  split.
  { rewrite Hs. destruct open; [discriminate Hopen | discriminate]. }
  split; [now exists open, rest | exact He].
Qed.

Lemma analysed_corpus_keeps_tags_witness :
  (exists content,
      onlyIndex "index.html" = Some content
      /\ hasStyleBlock content
      /\ lit "<style>.logo { } @media (max-width: 480px) { .logo { font-size: 2rem; } }</style>"
         = corpus content)
  /\ lit "<style>.logo { } @media (max-width: 480px) { .logo { font-size: 2rem; } }</style>"
     <> []
  /\ (exists open rest,
        lit "<style>.logo { } @media (max-width: 480px) { .logo { font-size: 2rem; } }</style>"
        = open ++ rest
        /\ sameUpToCase open (lit "<style"))
  /\ emits (processFile onlyIndex "index.html") initial
       (cssIssues (lit "<style>.logo { } @media (max-width: 480px) { .logo { font-size: 2rem; } }</style>"))
       (cssWarnings (lit "<style>.logo { } @media (max-width: 480px) { .logo { font-size: 2rem; } }</style>")
          ++ elementWarnings (lit "<style>.logo { } @media (max-width: 480px) { .logo { font-size: 2rem; } }</style>"))
       (cssPassed (lit "<style>.logo { } @media (max-width: 480px) { .logo { font-size: 2rem; } }</style>")
          ++ elementPasses (lit "<style>.logo { } @media (max-width: 480px) { .logo { font-size: 2rem; } }</style>")).
Proof.
  apply (analysed_corpus_keeps_tags onlyIndex "index.html").
  vm_compute. reflexivity.
Defined.

Lemma search_skip (R : Type) (m : cont R) (c : char16) (s : jsstring) :
  m (c :: s) = None -> search m (c :: s) = search m s.
Proof. intros H. cbn [search]. now rewrite H. Qed.

Lemma search_here (R : Type) (m : cont R) (s : jsstring) (r : R) :
  m s = Some r -> search m s = Some r.
Proof. intros H. destruct s; cbn [search]; now rewrite H. Qed.

(** The capture succeeds on a declaration of the expected shape. *)
Lemma capture_at (prop : string) (ws ds b : jsstring) :
  forallb isSpace ws = true ->
  forallb isDigit ds = true ->
  ds <> [] ->
  r_lit (lit prop)
    (r_star isSpace
       (fun d =>
          r_plus isDigit
            (fun e => r_lit (lit "px") (fun _ => Some (consumed d e)) e) d))
    (lit prop ++ ws ++ ds ++ lit "px" ++ b)
  = Some ds.
Proof.
  intros Hws Hds Hne. destruct ds as [|d ds]; [congruence |].
  cbn in Hds. apply andb_true_iff in Hds as [Hd Hds].
  apply r_lit_Some. eexists. split; [reflexivity |].
  apply r_star_greedy; [assumption | |].
  { intros c y E. cbn in E. injection E as <- _. now apply isDigit_not_space. }
  cbv beta. unfold r_plus. cbn [app r_char]. rewrite Hd.
  apply r_star_greedy; [assumption | |].
  { intros c y E. injection E as <- _. reflexivity. }
  cbv beta. apply r_lit_Some. eexists. split; [reflexivity |].
  f_equal. exact (consumed_app (d :: ds) (lit "px" ++ b)).
Qed.

Lemma collect_breakpoints_In_min (mqs : list jsstring) (mq d : jsstring) :
  In mq mqs ->
  capture_px "min-width:" mq = Some d ->
  In (parseInt d) (collect_breakpoints mqs).
Proof.
  unfold collect_breakpoints. generalize (@nil N) as acc.
  induction mqs as [|mq' mqs IH]; intros acc Hin Hd; [destruct Hin |].
  cbn [fold_left]. destruct Hin as [-> | Hin].
  - apply fold_breakpoints_keeps. unfold pushBreakpoints. rewrite Hd.
    rewrite in_app_iff. right. now left.
  - now apply IH.
Qed.



(** A media query of the usual form, after a closed prefix, is found. *)
Lemma media_query_found (pre mid post : jsstring) :
  mediaClosedIn pre ->
  mid <> [] ->
  forallb (notChar "{") mid = true ->
  In (lit "@media" ++ mid ++ lit "{")
     (mediaQueries_of (pre ++ lit "@media" ++ mid ++ lit "{" ++ post)).
Proof.
  intros Hclosed Hne Hmid. unfold mediaQueries_of, match_all.
  assert (H : In (consumed ((lit "@media" ++ mid ++ lit "{") ++ post) post)
                 (match_all_from re_media 0
                    (pre ++ (lit "@media" ++ mid ++ lit "{") ++ post))).
  { apply match_all_from_finds.
    - discriminate.
    - unfold re_media, r_plus. rewrite <- ?app_assoc.
      apply r_lit_Some. eexists. split; [reflexivity |].
      destruct mid as [|c mid]; [congruence |].
      cbn in Hmid. apply andb_true_iff in Hmid as [Hc Hmid].
      cbn [app r_char]. rewrite Hc.
      apply r_star_greedy; [assumption | |].
      { intros x y E. injection E as <- _. reflexivity. }
      apply r_lit_Some. eexists. split; reflexivity.
    - intros p r Hp Hq H.
      exact (re_media_no_overlap pre p _ r Hclosed Hp Hq H).
    - apply Nat.le_0_l. }
  rewrite consumed_app in H. now rewrite <- !app_assoc in H.
Qed.

(** A query [@media (max-width: Npx) {] or [@media (min-width: Npx) {]
    after a closed prefix contributes N. *)
Lemma media_width_extracted (pre ds post : jsstring) (content : jsstring) :
  mediaClosedIn pre ->
  forallb isDigit ds = true ->
  ds <> [] ->
  (content = pre ++ lit "@media (max-width: " ++ ds ++ lit "px) {" ++ post
   \/ content = pre ++ lit "@media (min-width: " ++ ds ++ lit "px) {" ++ post) ->
  In (parseInt ds) (mqBreakpoints_of content).
Proof.
  intros Hclosed Hds Hne Hc.
  assert (Hmid : forall p : string,
             forallb (notChar "{") (lit " (" ++ lit p ++ lit " " ++ ds ++ lit "px) ")
             = true ->
             In (lit "@media" ++ (lit " (" ++ lit p ++ lit " " ++ ds ++ lit "px) ")
                   ++ lit "{")
                (mediaQueries_of
                   (pre ++ lit "@media" ++ (lit " (" ++ lit p ++ lit " " ++ ds
                                             ++ lit "px) ") ++ lit "{" ++ post))).
  { intros p Hp. apply media_query_found; [assumption | discriminate | exact Hp]. }
  assert (Hnb : forallb (notChar "{") ds = true).
  { apply (forallb_imp isDigit); [| assumption].
    intros x Hx. apply isDigit_cases in Hx.
    repeat (destruct Hx as [-> | Hx]; [reflexivity |]). now subst x. }
  destruct Hc as [-> | ->].
  + specialize (Hmid "max-width:"%string).
    rewrite !forallb_app, Hnb in Hmid. specialize (Hmid eq_refl).
    rewrite <- !app_assoc in Hmid. cbn [app lit] in Hmid.
    unfold mqBreakpoints_of.
    eapply collect_breakpoints_In; [exact Hmid |].
    unfold capture_px.
    lazymatch goal with
    | |- search ?m ?l = _ =>
        let l' := eval cbn in l in change (search m l' = Some ds)
    end.
    do 8 (rewrite search_skip by reflexivity).
    apply search_here.
    exact (capture_at "max-width:" (lit " ") ds (lit ") {") eq_refl Hds Hne).
  + specialize (Hmid "min-width:"%string).
    rewrite !forallb_app, Hnb in Hmid. specialize (Hmid eq_refl).
    rewrite <- !app_assoc in Hmid. cbn [app lit] in Hmid.
    unfold mqBreakpoints_of.
    eapply collect_breakpoints_In_min; [exact Hmid |].
    unfold capture_px.
    lazymatch goal with
    | |- search ?m ?l = _ =>
        let l' := eval cbn in l in change (search m l' = Some ds)
    end.
    do 8 (rewrite search_skip by reflexivity).
    apply search_here.
    exact (capture_at "min-width:" (lit " ") ds (lit ") {") eq_refl Hds Hne).
Qed.



(** X13. The suggestions follow the analysis: the mobile-breakpoint
    suggestion comes first exactly when [analyzeCSS] added the mobile
    Issue for that corpus; the touch-target and form-input suggestions
    always follow, in that order; and generating them changes none of the
    three sequences. *)
Theorem suggestions_follow_the_analysis
    (content : jsstring) (filename : string) (st st' : State) :
  let analysis := fst (analyzeCSS content filename st) in
  let suggestions := fst (generateSuggestions analysis st') in
  (cssIssues content = [mobileIssue]
   <-> suggestions = [suggestMobile; suggestTouch; suggestInputs])
  /\ (cssIssues content = []
      <-> suggestions = [suggestTouch; suggestInputs])
  /\ emits (generateSuggestions analysis) st' [] [] [].
Proof.
  cbv zeta. rewrite analyzeCSS_result.
  unfold generateSuggestions, cssIssues, bind, ret, log. cbn [fst snd hasMobile].
  destruct (hasMobile_of content); cbn [app].
  - split; [split; discriminate |]. split; [split; reflexivity |].
    unfold emits. cbn. now rewrite !app_nil_r.
  - split; [split; reflexivity |]. split; [split; discriminate |].
    unfold emits. cbn. now rewrite !app_nil_r.
Qed.

(* ================================================================= *)
(** ** Further properties: test-visual.js *)

Ltac visit_cases :=
  cbn [Visual.total Visual.captured Visual.issues fst snd length
       Nat.ltb Nat.leb app];
  rewrite ?Nat.add_0_r, ?Nat.add_1_r, ?app_nil_r, <- ?app_assoc;
  try reflexivity.

Lemma tryBlock_spec (s : Visual.Session) (p : Visual.PageConfig)
    (v : Visual.Viewport) (r : Visual.Results) :
  match Visual.tryBlock s p v r with
  | (inl _, r') => r'
  | (inr message, r') =>
      Visual.pushIssue r' (Visual.issuePrefix p v ++ message)
  end
  = Visual.mkResults
      (Visual.total r)
      (Visual.captured r + (if completes s then 1 else 0))
      (Visual.issues r ++ visitIssues p v s).
Proof.
  unfold Visual.tryBlock, Visual.evaluateTouch, Visual.andThen, Visual.await,
    Visual.when, Visual.push, Visual.done, Visual.throw, Visual.pushIssue,
    completes, visitIssues, caught, touchThrows, scrollIssue, cutOffIssue.
  destruct (Visual.fault s Visual.Navigate); [visit_cases |].
  destruct (Visual.fault s Visual.ScrollCheck); [visit_cases |].
  destruct (Visual.hasHorizontalScroll (Visual.view s));
    (destruct (Visual.fault s Visual.CutOffCheck); [visit_cases |]);
    (destruct (Visual.elementsCutOff (Visual.view s)) as [|c cut]);
    (destruct (Visual.fault s Visual.TouchCheck); [visit_cases |]);
    (destruct (Visual.smallTouchTargets
                 (Visual.clickables (Visual.view s))); [| visit_cases]);
    (destruct (Visual.fault s Visual.Screenshots)); visit_cases.
Qed.

Lemma visit_spec (browser : Visual.Browser) (p : Visual.PageConfig)
    (r : Visual.Results) (v : Visual.Viewport) :
  Visual.visit browser p r v
  = if survives (Visual.session browser p v)
    then Some (Visual.mkResults
                 (S (Visual.total r))
                 (Visual.captured r
                  + (if completes (Visual.session browser p v) then 1 else 0))
                 (Visual.issues r
                    ++ visitIssues p v (Visual.session browser p v)))
    else None.
Proof.
  unfold Visual.visit, survives. cbv zeta.
  destruct (Visual.fault (Visual.session browser p v) Visual.Open);
    [reflexivity |].
  rewrite tryBlock_spec.
  destruct (Visual.fault (Visual.session browser p v) Visual.Close);
    reflexivity.
Qed.

Lemma visits_spec (browser : Visual.Browser) (p : Visual.PageConfig)
    (vs : list Visual.Viewport) :
  forall r,
    Visual.forViewports browser p vs r
    = if forallb (fun v => survives (Visual.session browser p v)) vs
      then Some (Visual.mkResults
                   (Visual.total r + length vs)
                   (Visual.captured r
                    + length (filter (fun v => completes
                                                 (Visual.session browser p v))
                                     vs))
                   (Visual.issues r
                      ++ flat_map (fun v => visitIssues p v
                                              (Visual.session browser p v))
                                  vs))
      else None.
Proof.
  induction vs as [|v vs IH]; intros r;
    cbn [Visual.forViewports forallb filter flat_map length].
  - rewrite !Nat.add_0_r, app_nil_r. now destruct r.
  - rewrite visit_spec.
    destruct (survives (Visual.session browser p v)); cbn [andb];
      [| reflexivity].
    rewrite IH. cbn [Visual.total Visual.captured Visual.issues].
    destruct (forallb _ vs); [| reflexivity].
    destruct (completes (Visual.session browser p v)); cbn [length];
      rewrite <- ?app_assoc; do 2 f_equal; lia.
Qed.

(** The pairs of a page of [ps] and a viewport of [vps], in the order of
    the loops. *)
Lemma pairs_cons (p : Visual.PageConfig) (ps : list Visual.PageConfig)
    (vps : list Visual.Viewport) :
  flat_map (fun q => map (fun v => (q, v)) vps) (p :: ps)
  = map (fun v => (p, v)) vps
      ++ flat_map (fun q => map (fun v => (q, v)) vps) ps.
Proof. reflexivity. Qed.

Lemma pages_spec (browser : Visual.Browser) (ps : list Visual.PageConfig) :
  forall r,
    let sessionOf := fun pv : Visual.PageConfig * Visual.Viewport =>
                       Visual.session browser (fst pv) (snd pv) in
    let pairs := flat_map (fun p => map (fun v => (p, v)) Visual.viewports)
                          ps in
    Visual.forPages browser ps r
    = if forallb (fun pv => survives (sessionOf pv)) pairs
      then Some (Visual.mkResults
                   (Visual.total r + length pairs)
                   (Visual.captured r
                    + length (filter (fun pv => completes (sessionOf pv))
                                     pairs))
                   (Visual.issues r
                      ++ flat_map (fun pv => visitIssues (fst pv) (snd pv)
                                               (sessionOf pv)) pairs))
      else None.
Proof.
  cbv zeta. induction ps as [|p ps IH]; intros r.
  - cbn [Visual.forPages flat_map forallb filter length].
    rewrite !Nat.add_0_r, app_nil_r. now destruct r.
  - cbn [Visual.forPages]. rewrite pairs_cons, visits_spec.
    rewrite forallb_app, filter_app, flat_map_app, !length_app, !length_map.
    assert (S1 : forall vs,
               forallb (fun pv => survives
                                    (Visual.session browser (fst pv) (snd pv)))
                       (map (fun v => (p, v)) vs)
               = forallb (fun v => survives (Visual.session browser p v)) vs).
    { induction vs as [|v vs IHv]; cbn [map forallb fst snd];
        [reflexivity | now rewrite IHv]. }
    assert (F : forall vs,
               length (filter (fun pv => completes
                                 (Visual.session browser (fst pv) (snd pv)))
                              (map (fun v => (p, v)) vs))
               = length (filter (fun v => completes
                                            (Visual.session browser p v)) vs)).
    { induction vs as [|v vs IHv]; cbn [map filter fst snd];
        [reflexivity |].
      destruct (completes (Visual.session browser p v)); cbn [length];
        now rewrite IHv. }
    assert (G : forall vs,
               flat_map (fun pv => visitIssues (fst pv) (snd pv)
                                     (Visual.session browser (fst pv) (snd pv)))
                        (map (fun v => (p, v)) vs)
               = flat_map (fun v => visitIssues p v
                                      (Visual.session browser p v)) vs).
    { induction vs as [|v vs IHv]; cbn [map flat_map fst snd];
        [reflexivity | now rewrite IHv]. }
    rewrite S1, F, G.
    destruct (forallb (fun v => survives (Visual.session browser p v))
                      Visual.viewports); cbn [andb]; [| reflexivity].
    rewrite IH. cbn [Visual.total Visual.captured Visual.issues].
    destruct (forallb _ (flat_map _ ps)); [| reflexivity].
    rewrite <- app_assoc. do 2 f_equal; lia.
Qed.

Lemma visitIssues_nil_iff (p : Visual.PageConfig) (v : Visual.Viewport)
    (s : Visual.Session) :
  visitIssues p v s = [] <-> clean s = true.
Proof.
  unfold visitIssues, clean, completes, scrollIssue, cutOffIssue.
  destruct (caught s) as [[[] m]|];
    destruct (Visual.hasHorizontalScroll (Visual.view s)),
      (Visual.elementsCutOff (Visual.view s));
    cbn; split; intros H; try discriminate H; reflexivity.
Qed.

Lemma visitIssues_length (p : Visual.PageConfig) (v : Visual.Viewport)
    (s : Visual.Session) :
  (length (visitIssues p v s) <= 3)%nat
  /\ (completes s = false -> (1 <= length (visitIssues p v s))%nat).
Proof.
  unfold visitIssues, completes, scrollIssue, cutOffIssue.
  destruct (caught s) as [[[] m]|];
    destruct (Visual.hasHorizontalScroll (Visual.view s)),
      (Visual.elementsCutOff (Visual.view s));
    cbn [length app]; (split; [lia | intros H; first [discriminate H | lia]]).
Qed.

Lemma flat_map_nil_iff {A B} (f : A -> list B) (l : list A) :
  flat_map f l = [] <-> forall x, In x l -> f x = [].
Proof.
  induction l as [|a l IH]; cbn.
  - split; [intros _ x [] | reflexivity].
  - split.
    + intros H. apply app_eq_nil in H as [Ha Hl].
      intros x [<- | Hx]; [exact Ha | now apply IH].
    + intros H. rewrite (H a (or_introl eq_refl)). cbn.
      apply IH. intros x Hx. apply H. now right.
Qed.

Lemma in_allVisits (p : Visual.PageConfig) (v : Visual.Viewport) :
  In (p, v) allVisits <-> In p Visual.pages /\ In v Visual.viewports.
Proof.
  unfold allVisits. rewrite in_flat_map. split.
  - intros (q & Hq & H). apply in_map_iff in H as (w & E & Hw).
    injection E as -> ->. auto.
  - intros [Hp Hv]. exists p. split; [exact Hp |].
    apply in_map_iff. now exists v.
Qed.

(** Over all visits, a boolean test holds at each one exactly when it
    holds for every page at every viewport. *)
Lemma forallb_allVisits (f : Visual.PageConfig -> Visual.Viewport -> bool) :
  forallb (fun pv => f (fst pv) (snd pv)) allVisits = true
  <-> forall p v, In p Visual.pages -> In v Visual.viewports -> f p v = true.
Proof.
  rewrite forallb_forall. split.
  - intros H p v Hp Hv.
    exact (H (p, v) (proj2 (in_allVisits p v) (conj Hp Hv))).
  - intros H [p v] Hin. destruct (proj1 (in_allVisits p v) Hin) as [Hp Hv].
    exact (H p v Hp Hv).
Qed.

(** What a run reports when no call outside the [try] blocks fails, and
    that it rejects otherwise. *)
Lemma captureScreenshots_spec (browser : Visual.Browser) :
  let sessionOf := fun pv : Visual.PageConfig * Visual.Viewport =>
                     Visual.session browser (fst pv) (snd pv) in
  let issues := flat_map (fun pv => visitIssues (fst pv) (snd pv)
                                      (sessionOf pv)) allVisits in
  Visual.captureScreenshots browser
  = if (Visual.starts browser
        && forallb (fun pv => survives (sessionOf pv)) allVisits
        && Visual.stops browser)%bool
    then Visual.Reported
           (Visual.mkResults
              18 (length (filter (fun pv => completes (sessionOf pv))
                                 allVisits))
              issues)
           (match issues with [] => 0%nat | _ => 1%nat end)
    else Visual.Rejected.
Proof.
  cbv zeta. unfold Visual.captureScreenshots.
  destruct (Visual.starts browser); cbn [andb]; [| reflexivity].
  rewrite pages_spec. cbv zeta. fold allVisits.
  destruct (forallb _ allVisits); cbn [andb]; [| reflexivity].
  destruct (Visual.stops browser); [| reflexivity].
  cbn [Visual.total Visual.captured Visual.issues app Nat.add].
  change (length allVisits) with 18%nat.
  f_equal. now destruct (flat_map _ allVisits).
Qed.

Lemma undisturbed_iff (browser : Visual.Browser) :
  undisturbed browser
  <-> (Visual.starts browser
       && forallb (fun pv => survives
                               (Visual.session browser (fst pv) (snd pv)))
                  allVisits
       && Visual.stops browser)%bool = true.
Proof.
  unfold undisturbed. rewrite !andb_true_iff.
  rewrite (forallb_allVisits
             (fun p v => survives (Visual.session browser p v))).
  tauto.
Qed.

(** X14. The screenshot run.  When no call outside the [try] blocks fails
    (preparing the directory, launching and closing the browser, opening
    and closing each page), the run visits the 2 pages at the 9 viewports,
    18 visits: an error inside the [try] block of a visit does not stop
    the others.  [captured] counts the visits that took both screenshots;
    each visit adds at most three issue lines, and one that does not
    complete adds at least one.  Such a run exits with 0 exactly when
    every visit is clean: no call fails, the page shows no horizontal
    scroll and no cut-off element, and the touch-target callback does not
    throw.  When a call outside the [try] blocks fails, the promise
    rejects and the script exits with 1. *)
Theorem visual_run_results (browser : Visual.Browser) :
  (undisturbed browser ->
   exists results status,
     Visual.captureScreenshots browser = Visual.Reported results status
     /\ Visual.total results = 18%nat
     /\ Visual.captured results
        = length (filter (fun pv => completes
                            (Visual.session browser (fst pv) (snd pv)))
                         allVisits)
     /\ (Visual.captured results <= Visual.total results)%nat
     /\ Visual.issues results
        = flat_map (fun pv => visitIssues (fst pv) (snd pv)
                      (Visual.session browser (fst pv) (snd pv)))
                   allVisits
     /\ (Visual.total results - Visual.captured results
         <= length (Visual.issues results) <= 54)%nat
     /\ (status = 0%nat <-> Visual.issues results = [])
     /\ (status = 1%nat <-> Visual.issues results <> []))
  /\ (~ undisturbed browser ->
      Visual.captureScreenshots browser = Visual.Rejected
      /\ Visual.exitStatus browser = 1%nat)
  /\ (Visual.exitStatus browser = 0%nat
      <-> undisturbed browser /\ allClean browser)
  /\ (Visual.exitStatus browser = 1%nat
      <-> ~ (undisturbed browser /\ allClean browser)).
Proof.
  cbv zeta. unfold Visual.exitStatus.
  rewrite captureScreenshots_spec. cbv zeta.
  pose proof (undisturbed_iff browser) as Hu.
  set (f := fun pv : Visual.PageConfig * Visual.Viewport =>
              completes (Visual.session browser (fst pv) (snd pv))) in *.
  set (g := fun pv : Visual.PageConfig * Visual.Viewport =>
              visitIssues (fst pv) (snd pv)
                          (Visual.session browser (fst pv) (snd pv))) in *.
  assert (L18 : length allVisits = 18%nat) by reflexivity.
  assert (Hf : (length (filter f allVisits) <= length allVisits)%nat)
    by apply filter_length_le.
  assert (Hg : forall l : list (Visual.PageConfig * Visual.Viewport),
             (length l - length (filter f l) <= length (flat_map g l)
              <= 3 * length l)%nat).
  { induction l as [|pv l IH]; cbn [filter flat_map length]; [lia |].
    rewrite length_app.
    destruct (visitIssues_length (fst pv) (snd pv)
                (Visual.session browser (fst pv) (snd pv))) as [U D].
    fold (g pv) in U, D. fold (f pv) in D.
    destruct (f pv); cbn [length]; [lia |].
    specialize (D eq_refl). lia. }
  specialize (Hg allVisits).
  assert (Hnil : flat_map g allVisits = [] <-> allClean browser).
  { rewrite flat_map_nil_iff. unfold allClean. split.
    - intros H p v Hp Hv.
      apply (proj1 (visitIssues_nil_iff p v (Visual.session browser p v))).
      apply (H (p, v)). apply (proj2 (in_allVisits p v)). split; assumption.
    - intros H [p v] Hin. apply (proj1 (in_allVisits p v)) in Hin.
      destruct Hin as [Hp Hv].
      apply (proj2 (visitIssues_nil_iff p v (Visual.session browser p v))).
      exact (H p v Hp Hv). }
  destruct (Visual.starts browser
            && forallb (fun pv => survives
                                    (Visual.session browser (fst pv) (snd pv)))
                       allVisits
            && Visual.stops browser)%bool.
  - assert (U : undisturbed browser) by (apply Hu; reflexivity).
    split.
    { intros _. eexists. eexists. split; [reflexivity |].
      cbn [Visual.total Visual.captured Visual.issues].
      split; [reflexivity |]. split; [reflexivity |]. split; [lia |].
      split; [reflexivity |]. split; [lia |].
      destruct (flat_map g allVisits); split; split; intros H;
        first [reflexivity | discriminate H | congruence]. }
    split; [intros H; contradiction |].
    destruct (flat_map g allVisits) as [|x xs].
    + split; [split; [intros _; split; [exact U | now apply Hnil]
                     | reflexivity] |].
      split; [discriminate |].
      intros H. exfalso. apply H. split; [exact U | now apply Hnil].
    + split; [split; [discriminate |] |].
      * intros [_ H]. apply Hnil in H. discriminate H.
      * split; [intros _ | reflexivity].
        intros [_ H]. apply Hnil in H. discriminate H.
  - assert (U : ~ undisturbed browser).
    { intros H. apply Hu in H. discriminate H. }
    split; [intros H; contradiction |].
    split; [intros _; split; reflexivity |].
    split; [split; [discriminate | intros [H _]; contradiction] |].
    split; [intros _ [H _]; contradiction | reflexivity].
Qed.

Lemma visual_run_results_witness :
  exists results status,
    Visual.captureScreenshots
      (Visual.mkBrowser true (fun _ _ => calmSession [socialLink 43 44]) true)
    = Visual.Reported results status
    /\ Visual.total results = 18%nat
    /\ Visual.issues results = []
    /\ status = 0%nat.
Proof.
  destruct (proj1 (visual_run_results
                     (Visual.mkBrowser true
                        (fun _ _ => calmSession [socialLink 43 44]) true)))
    as (results & status & E & Ht & _ & _ & Hi & _ & H0 & _).
  - split; [reflexivity |]. split; [| reflexivity].
    intros p v _ _. reflexivity.
  - exists results, status. split; [exact E |]. split; [exact Ht |].
    assert (Hn : Visual.issues results = []).
    { rewrite Hi. apply flat_map_nil_iff. intros pv _. reflexivity. }
    split; [exact Hn |]. apply H0. exact Hn.
Defined.

(** A link inside an [<svg>], without id and 43 by 44, is enough to fail
    every visit of a page that is otherwise in order: the callback throws,
    the error is caught as the visit's, no screenshot is counted and the
    run exits with 1. *)
Example svg_link_fails_the_visits :
  let browser := Visual.mkBrowser true (fun _ _ => calmSession [svgLink 43 44])
                                  true in
  Visual.exitStatus browser = 1%nat
  /\ Visual.exitStatus
       (Visual.mkBrowser true (fun _ _ => calmSession [socialLink 43 44]) true)
     = 0%nat
  /\ match Visual.captureScreenshots browser with
     | Visual.Reported results _ =>
         Visual.total results = 18%nat /\ Visual.captured results = 0%nat
         /\ length (Visual.issues results) = 18%nat
         /\ hd [] (Visual.issues results)
            = lit "index @ iPhone-SE: Evaluation failed: TypeError: id.includes is not a function"
     | Visual.Rejected => False
     end.
Proof. vm_compute. repeat split; reflexivity. Qed.

Lemma forEachClickable_spec (cs : list Visual.Clickable) :
  forall acc,
    Visual.forEachClickable cs acc
    = if existsb throwsAt cs then None
      else Some (acc ++ map Visual.label (filter flagged cs)).
Proof.
  induction cs as [|el cs IH]; intros acc;
    cbn [Visual.forEachClickable existsb filter map].
  - now rewrite app_nil_r.
  - rewrite checkClickable_cases.
    destruct (throwsAt el); cbn [orb]; [reflexivity |].
    destruct (flagged el); rewrite IH;
      (destruct (existsb throwsAt cs); [reflexivity |]);
      cbn [map]; now rewrite <- ?app_assoc.
Qed.

Lemma caught_withClickables (s : Visual.Session)
    (cs cs' : list Visual.Clickable) :
  existsb throwsAt cs = existsb throwsAt cs' ->
  caught (withClickables s cs) = caught (withClickables s cs').
Proof.
  intros H. unfold caught, touchThrows, withClickables, Visual.smallTouchTargets.
  cbn [Visual.fault Visual.view Visual.clickables Visual.callbackError].
  rewrite !forEachClickable_spec, H.
  destruct (existsb throwsAt cs'); reflexivity.
Qed.

(** X15. The touch-target callback.  It throws exactly when some element
    that is too small has an object for identifier; otherwise it returns
    one label per flagged element, in document order.  An element whose
    width or height is not above zero is neither flagged nor a cause of
    the throw.  The identifier is the id when that is not the empty
    string, else the class name when that is not the empty string, else
    the tag name.  The returned list is dropped: two visits that differ
    only in the clickable elements of the page, and agree on whether the
    callback throws, leave the same results. *)
Theorem touch_targets_are_listed_not_reported
    (cs cs' : list Visual.Clickable) (el : Visual.Clickable)
    (s : Visual.Session) (p : Visual.PageConfig) (v : Visual.Viewport)
    (r : Visual.Results) :
  Visual.smallTouchTargets cs
  = (if existsb throwsAt cs then None
     else Some (map Visual.label (filter flagged cs)))
  /\ ((0 <? Visual.width el)%float = false ->
      flagged el = false /\ throwsAt el = false)
  /\ ((0 <? Visual.height el)%float = false ->
      flagged el = false /\ throwsAt el = false)
  /\ (Visual.id el <> Visual.Str [] -> Visual.identifier el = Visual.id el)
  /\ (Visual.id el = Visual.Str [] ->
      Visual.className el <> Visual.Str [] ->
      Visual.identifier el = Visual.className el)
  /\ (Visual.id el = Visual.Str [] ->
      Visual.className el = Visual.Str [] ->
      Visual.identifier el = Visual.tagName el)
  /\ (existsb throwsAt cs = existsb throwsAt cs' ->
      forall st st' sp sp',
        Visual.visit
          (Visual.mkBrowser st (fun _ _ => withClickables s cs) sp) p r v
        = Visual.visit
            (Visual.mkBrowser st' (fun _ _ => withClickables s cs') sp') p r v).
Proof.
  split; [exact (forEachClickable_spec cs []) |].
  split.
  { intros H. unfold flagged, throwsAt, Visual.tooSmall. rewrite H.
    split; reflexivity. }
  split.
  { intros H. unfold flagged, throwsAt, Visual.tooSmall. rewrite H.
    rewrite andb_false_r. split; reflexivity. }
  unfold Visual.identifier, Visual.orElse.
  split.
  { intros H. destruct (Visual.id el) as [[|c i] | t]; cbn [Visual.truthy];
      [congruence | reflexivity | reflexivity]. }
  split.
  { intros -> H. cbn [Visual.truthy].
    destruct (Visual.className el) as [[|c i] | t]; cbn [Visual.truthy];
      [congruence | reflexivity | reflexivity]. }
  split; [now intros -> -> |].
  intros H st st' sp sp'. rewrite !visit_spec.
  cbn [Visual.session].
  unfold survives, completes, visitIssues, scrollIssue, cutOffIssue.
  rewrite (caught_withClickables s cs cs' H).
  reflexivity.
Qed.

Lemma touch_targets_are_listed_not_reported_witness :
  (flagged (socialLink 0 20) = false /\ throwsAt (socialLink 0 20) = false)
  /\ Visual.identifier
       (Visual.mkClickable (Visual.Str (lit "newsletter"))
                           (Visual.Str (lit "checkbox"))
                           (Visual.Str (lit "INPUT")) 13 13)
     = Visual.Str (lit "newsletter")
  /\ Visual.identifier (svgLink 43 44)
     = Visual.Obj (lit "[object SVGAnimatedString]")
  /\ Visual.visit
       (Visual.mkBrowser true
          (fun _ _ => withClickables (calmSession []) [socialLink 20 20]) true)
       (Visual.mkPage (lit "index") (lit "index.html"))
       (Visual.mkResults 0 0 [])
       (Visual.mkViewport (lit "iPhone-SE") 375 667 2)
     = Visual.visit
         (Visual.mkBrowser true
            (fun _ _ => withClickables (calmSession []) [socialLink 44 44])
            true)
         (Visual.mkPage (lit "index") (lit "index.html"))
         (Visual.mkResults 0 0 [])
         (Visual.mkViewport (lit "iPhone-SE") 375 667 2).
Proof.
  pose (el2 := Visual.mkClickable (Visual.Str (lit "newsletter"))
                                  (Visual.Str (lit "checkbox"))
                                  (Visual.Str (lit "INPUT")) 13 13).
  pose (p := Visual.mkPage (lit "index") (lit "index.html")).
  pose (v := Visual.mkViewport (lit "iPhone-SE") 375 667 2).
  pose (r := Visual.mkResults 0 0 []).
  split; [| split; [| split]].
  - apply (proj1 (proj2 (touch_targets_are_listed_not_reported
                           [] [] (socialLink 0 20) (calmSession []) p v r))).
    reflexivity.
  - apply (proj1 (proj2 (proj2 (proj2
             (touch_targets_are_listed_not_reported
                [] [] el2 (calmSession []) p v r))))).
    discriminate.
  - apply (proj1 (proj2 (proj2 (proj2 (proj2
             (touch_targets_are_listed_not_reported
                [] [] (svgLink 43 44) (calmSession []) p v r)))))).
    + reflexivity.
    + discriminate.
  - apply (proj2 (proj2 (proj2 (proj2 (proj2 (proj2
             (touch_targets_are_listed_not_reported
                [socialLink 20 20] [socialLink 44 44] (socialLink 0 20)
                (calmSession []) p v r))))))).
    reflexivity.
Defined.

(* ================================================================= *)
(** ** Further properties: the tablet and the units rules *)

Lemma hasTablet_iff (content : jsstring) :
  hasTablet_of content = true
  <-> exists bp, In bp (mqBreakpoints_of content) /\ (600 <= bp <= 900)%N.
Proof.
  unfold hasTablet_of. rewrite existsb_exists.
  split; intros (bp & Hin & H); exists bp; split; auto.
  - apply andb_true_iff in H as [H1 H2].
    apply N.leb_le in H1. apply N.leb_le in H2. lia.
  - apply andb_true_iff. split; apply N.leb_le; lia.
Qed.

(** X16. The tablet rule adds its Pass exactly when a breakpoint between
    600 and 900 (both included) is extracted, and its Warning otherwise;
    it never adds an Issue.  A query [@media (max-width: Npx) {] or
    [@media (min-width: Npx) {] with N in that range, which no unclosed
    [@media] precedes, earns the Pass. *)
Theorem tablet_breakpoint_rule (content : jsstring) (st : State) :
  let tablet :=
    exists bp, In bp (mqBreakpoints_of content) /\ (600 <= bp <= 900)%N in
  let mobileI := if hasMobile_of content then [] else [mobileIssue] in
  let mobileP := if hasMobile_of content then [mobilePass] else [] in
  (tablet -> emits (checkBreakpoints content) st mobileI [] (tabletPass :: mobileP))
  /\ (~ tablet -> emits (checkBreakpoints content) st mobileI [tabletWarning] mobileP)
  /\ (forall pre ds post,
        mediaClosedIn pre ->
        forallb isDigit ds = true ->
        (600 <= parseInt ds <= 900)%N ->
        (content = pre ++ lit "@media (max-width: " ++ ds ++ lit "px) {" ++ post
         \/ content = pre ++ lit "@media (min-width: " ++ ds ++ lit "px) {" ++ post) ->
        tablet).
Proof.
  cbv zeta. pose proof (checkBreakpoints_emits content st) as He.
  split; [| split].
  - intros H. apply hasTablet_iff in H. now rewrite H in He.
  - intros H.
    destruct (hasTablet_of content) eqn:E; [| exact He].
    apply hasTablet_iff in E. contradiction.
  - intros pre ds post Hclosed Hds Hr Hc. exists (parseInt ds).
    split; [| exact Hr].
    apply (media_width_extracted pre ds post content Hclosed Hds); [| exact Hc].
    intros ->. cbn in Hr. lia.
Qed.

Lemma tablet_breakpoint_rule_witness :
  (emits (checkBreakpoints (lit "@media (max-width: 768px) { }")) initial
         [mobileIssue] [] [tabletPass])
  /\ (emits (checkBreakpoints (lit "@media (max-width: 480px) { }")) initial
            [] [tabletWarning] [mobilePass])
  /\ (exists bp,
        In bp (mqBreakpoints_of (lit "@media (max-width: 768px) { }"))
        /\ (600 <= bp <= 900)%N).
Proof.
  split; [| split].
  - apply (proj1 (tablet_breakpoint_rule
                    (lit "@media (max-width: 768px) { }") initial)).
    exists 768%N. split; [vm_compute; now left | lia].
  - apply (proj1 (proj2 (tablet_breakpoint_rule
                    (lit "@media (max-width: 480px) { }") initial))).
    intros (bp & Hin & Hr). vm_compute in Hin.
    destruct Hin as [<- | []]. lia.
  - apply (proj2 (proj2 (tablet_breakpoint_rule
                    (lit "@media (max-width: 768px) { }") initial))
             [] (lit "768") (lit " }")).
    + intros p1 p2 E. destruct p1; discriminate E.
    + reflexivity.
    + cbn. lia.
    + left. reflexivity.
Defined.

(** X17. The responsive-units rule adds its Pass exactly when the corpus
    holds a digit directly followed by [vw], [vh], [rem], [em], [%] or
    [clamp] (so [5em] inside any word counts, and a number separated from
    its unit does not); otherwise it adds nothing. *)
Theorem units_pass_iff (content : jsstring) (st : State) :
  let unit := exists pre d u post,
      content = pre ++ d :: u ++ post /\ isDigit d = true /\ In u units in
  (unit -> emits (checkResponsiveUnits content) st [] [] [unitsPass])
  /\ (~ unit -> checkResponsiveUnits content st = (tt, st))
  /\ (In unitsPass (cssPassed content) <-> unit).
Proof.
  cbv zeta. pose proof (checkResponsiveUnits_emits content st) as He.
  pose proof (hasResponsiveUnits_iff content) as Hiff.
  split; [| split].
  - intros H. apply Hiff in H. now rewrite H in He.
  - intros H. unfold checkResponsiveUnits.
    destruct (hasResponsiveUnits_of content) eqn:E; [| reflexivity].
    exfalso. apply H, Hiff. reflexivity.
  - rewrite <- Hiff. unfold cssPassed. rewrite !in_app_iff. split.
    + intros H.
      destruct (hasResponsiveUnits_of content); [reflexivity |].
      repeat match goal with
             | H : _ \/ _ |- _ => destruct H as [H | H]
             | H : In _ (if ?b then _ else _) |- _ => destruct b; cbn in H
             | H : In _ [] |- _ => destruct H
             | H : False |- _ => destruct H
             | H : _ = unitsPass |- _ => discriminate H
             end.
    + intros ->. right. right. right. left. now left.
Qed.

Lemma units_pass_iff_witness :
  emits (checkResponsiveUnits (lit "We hired 5employees")) initial
        [] [] [unitsPass]
  /\ checkResponsiveUnits (lit ".hero { width: 50 %; }") initial = (tt, initial).
Proof.
  split.
  - apply (proj1 (units_pass_iff (lit "We hired 5employees") initial)).
    exists (lit "We hired "), 53%N, (lit "em"), (lit "ployees").
    split; [reflexivity |]. split; [reflexivity |]. cbn. auto 10.
  - apply (proj1 (proj2 (units_pass_iff (lit ".hero { width: 50 %; }") initial))).
    intros H. apply hasResponsiveUnits_iff in H. vm_compute in H.
    discriminate H.
Defined.
